(** * Robo AI Video Intro Creator: the video generation service and its caller

    A shallow embedding of [services/geminiService.ts] ([dataUrlToMimeAndBase64],
    [generateVideo]) and of [handleGenerate] from [App.tsx], together with the
    properties the design document states about them.

    JavaScript strings are sequences of UTF-16 code units; they are modelled
    as lists of code units so that the regular expression [.] (which refuses
    the four line terminators, two of them outside Latin-1) is exact. *)

From Stdlib Require Import List NArith ZArith QArith Qround Bool Ascii String Lia.
From Stdlib Require Import Decimal DecimalString DecimalNat.
Import ListNotations.

Set Implicit Arguments.

(* ================================================================== *)
(** * The JavaScript values the program manipulates *)
(* ================================================================== *)

Module JS.

(** A string is a list of UTF-16 code units. *)
Definition jsstring : Type := list N.

(** A literal of the source text (all of them are ASCII). *)
Definition js (s : string) : jsstring :=
  List.map N_of_ascii (list_ascii_of_string s).

Definition comma : N := 44.       (* ',' *)
Definition colon : N := 58.       (* ':' *)
Definition semicolon : N := 59.   (* ';' *)

(** ECMAScript LineTerminator: LF, CR, LS (U+2028), PS (U+2029).
    The pattern character [.] matches every code unit but these. *)
Definition is_line_terminator (c : N) : bool :=
  (c =? 10)%N || (c =? 13)%N || (c =? 8232)%N || (c =? 8233)%N.

Definition jsstring_eqb (a b : jsstring) : bool :=
  if list_eq_dec N.eq_dec a b then true else false.

(** [s.split(sep)] for a separator of one code unit: every occurrence
    cuts, so the result has one more segment than [s] has separators. *)
Fixpoint String_split (sep : N) (s : jsstring) : list jsstring :=
  match s with
  | [] => [[]]
  | c :: s' =>
      if (c =? sep)%N then [] :: String_split sep s'
      else match String_split sep s' with
           | [] => [[c]]
           | seg :: segs => (c :: seg) :: segs
           end
  end.

(** [(.*?);] anchored at the head of [s]: the lazy star takes as few
    characters as it can, so it stops at the first [;]; it fails on a
    line terminator and at the end of the string. *)
Fixpoint lazy_dots_then_semicolon (s : jsstring) : option jsstring :=
  match s with
  | [] => None
  | c :: s' =>
      if (c =? semicolon)%N then Some []
      else if is_line_terminator c then None
      else option_map (cons c) (lazy_dots_then_semicolon s')
  end.

(** [s.match(/:(.*?);/)?.[1]]: the leftmost position where the whole
    pattern matches wins; the value is capture group 1. *)
Fixpoint match_colon_group_semicolon (s : jsstring) : option jsstring :=
  match s with
  | [] => None
  | c :: s' =>
      if (c =? colon)%N then
        match lazy_dots_then_semicolon s' with
        | Some g => Some g
        | None => match_colon_group_semicolon s'
        end
      else match_colon_group_semicolon s'
  end.

(** [a ?? b] *)
Definition nullish {A : Type} (a : option A) (b : A) : A :=
  match a with Some x => x | None => b end.

(** [needle] is a prefix of [s]. *)
Fixpoint starts_with (needle s : jsstring) : bool :=
  match needle, s with
  | [], _ => true
  | _ :: _, [] => false
  | a :: needle', b :: s' => (a =? b)%N && starts_with needle' s'
  end.

(** [s.includes(needle)] *)
Fixpoint String_includes (needle s : jsstring) : bool :=
  starts_with needle s
  || match s with
     | [] => false
     | _ :: s' => String_includes needle s'
     end.

(** The decimal digits of a counter, as [`${n}`] prints an integer. *)
Definition Number_toString (n : nat) : jsstring :=
  js (NilEmpty.string_of_uint (Nat.to_uint n)).

(** What reading [message] off a thrown value gives: a string, a falsy
    value that is not a string ([undefined] when the property is absent,
    [null], [0], [false]), or a truthy value that is not a string and has
    no [includes] method (a number, [true], a plain object). *)
Inductive Message : Type :=
| Message_falsy
| Message_text (s : jsstring)
| Message_other.

(** What a [throw] carries.  Anything can be thrown, and a promise can
    be rejected with anything: [null], [undefined], or a value whose
    properties can be read.  [new Error(m)] has [message = m]. *)
Inductive Thrown : Type :=
| Thrown_null
| Thrown_undefined
| Thrown_value (m : Message).

Definition Error (m : jsstring) : Thrown := Thrown_value (Message_text m).

(** The [TypeError] of a property access on [undefined]. *)
Definition TypeError_undefined : Thrown :=
  Error (js "Cannot read properties of undefined").

(** The [TypeError]s of [e.message] on [null] and on [undefined], and
    of a call of [includes] on a value that has no such method. *)
Definition TypeError_message_of_null : Thrown :=
  Error (js "Cannot read properties of null (reading 'message')").
Definition TypeError_message_of_undefined : Thrown :=
  Error (js "Cannot read properties of undefined (reading 'message')").
Definition TypeError_includes : Thrown :=
  Error (js "errorMessage.includes is not a function").

(** A call either returns or throws (a promise resolves or rejects). *)
Inductive result (A : Type) : Type :=
| Ok (a : A)
| Throw (e : Thrown).
Arguments Ok {A} a.
Arguments Throw {A} e.

(** [e.message] *)
Definition message (e : Thrown) : result Message :=
  match e with
  | Thrown_null => Throw TypeError_message_of_null
  | Thrown_undefined => Throw TypeError_message_of_undefined
  | Thrown_value m => Ok m
  end.

(** Numbers are binary64 values; the finite ones are rationals whose
    denominator is a power of two.  [round_to_binary64] takes an exact
    nonnegative result [n / 2^k] to the Number that an arithmetic
    operation returns for it: the numerator is cut to 53 significant
    bits, to the nearest, a tie going to the even one. *)
Definition round_to_binary64 (q : Q) : Q :=
  let n := Qnum q in
  let excess := (Z.log2 n + 1 - 53)%Z in
  if (excess <=? 0)%Z then q
  else
    let kept := (n / 2 ^ excess)%Z in
    let dropped := (n mod 2 ^ excess)%Z in
    let tie := (2 ^ (excess - 1))%Z in
    let kept :=
      if (tie <? dropped)%Z || ((dropped =? tie)%Z && Z.odd kept)
      then (kept + 1)%Z else kept in
    (kept * 2 ^ excess)%Z # Qden q.

(** [a * b] *)
Definition Number_multiply (a b : Q) : Q := round_to_binary64 (a * b).

(** [Math.floor(x)] *)
Definition Math_floor (x : Q) : Z := Qfloor x.

(** Truthiness of an optional string: [undefined] and [''] are falsy. *)
Definition truthy (s : option jsstring) : bool :=
  match s with
  | Some (_ :: _) => true
  | _ => false
  end.

End JS.
Import JS.

(* ================================================================== *)
(** * What the program reaches outside itself *)
(* ================================================================== *)

(** The shapes of [@google/genai] and of the Fetch API that the code reads
    or builds.  Optional members are [option]s, so that every link of
    [operation.response?.generatedVideos?.[0]?.video?.uri] can be absent. *)
Module GenAI.

(** [export type AspectRatio = '16:9' | '9:16'] (types.ts) *)
Inductive AspectRatio : Type := Ratio_16_9 | Ratio_9_16.

Record GoogleGenAI : Type := { apiKey : option jsstring }.

Record Image : Type := {
  imageBytes : option jsstring;
  mimeType : jsstring
}.

Record GenerateVideosConfig : Type := {
  numberOfVideos : N;
  resolution : jsstring;
  aspectRatio : AspectRatio
}.

Record GenerateVideosParameters : Type := {
  model : jsstring;
  prompt : jsstring;
  image : Image;
  config : GenerateVideosConfig
}.

Record Video : Type := { uri : option jsstring }.
Record GeneratedVideo : Type := { video : option Video }.
Record GenerateVideosResponse : Type := {
  generatedVideos : option (list GeneratedVideo)
}.

(** The job descriptor; [name] stands for whatever else the service
    put in it (the code hands the descriptor back untouched). *)
Record GenerateVideosOperation : Type := {
  name : jsstring;
  done : bool;
  response : option GenerateVideosResponse
}.

Definition Blob : Type := list N.

(** A settled [fetch]: [blob] is what [response.blob()] settles to. *)
Record Response : Type := {
  ok : bool;
  statusText : jsstring;
  blob : result Blob
}.

End GenAI.

Module Host.

(** The setters of the component's state ([useState] in [App]). *)
Inductive StateUpdate : Type :=
| setPrompt (v : jsstring)
| setLoadingMessage (v : jsstring)
| setIsLoading (v : bool)
| setVideoUrl (v : option jsstring)
| setError (v : option jsstring)
| setIsKeySelected (v : bool).

(** One entry per interaction with the outside, with what came back. *)
Inductive Event : Type :=
| EvApiKey (v : option jsstring)
| EvProgress (msg : jsstring) (r : result unit)
| EvGenerateVideos (ai : GenAI.GoogleGenAI)
    (params : GenAI.GenerateVideosParameters)
    (r : result GenAI.GenerateVideosOperation)
| EvSetTimeout (ms : N)
| EvGetVideosOperation (ai : GenAI.GoogleGenAI)
    (operation : GenAI.GenerateVideosOperation)
    (r : result GenAI.GenerateVideosOperation)
| EvFetch (url : jsstring) (r : result GenAI.Response)
| EvCreateObjectURL (b : GenAI.Blob) (url : jsstring)
| EvMathRandom (x : Q)
| EvConsoleError (e : Thrown)
| EvSetState (u : StateUpdate).

(** [p] is a power of two. *)
Fixpoint power_of_two (p : positive) : bool :=
  match p with
  | xH => true
  | xO p' => power_of_two p'
  | xI _ => false
  end.

(** [x] is written as a binary64 value of [0, 1): [m / 2^k] with
    [0 <= m < 2^53], [k <= 1074] and [m < 2^k]. *)
Definition binary64_below_one (x : Q) : bool :=
  power_of_two (Qden x)
  && (Z.log2 (Zpos (Qden x)) <=? 1074)%Z
  && (0 <=? Qnum x)%Z
  && (Qnum x <? 2 ^ 53)%Z
  && (Qnum x <? Zpos (Qden x))%Z.

(** A value of [Math.random()]: a Number in [0, 1). *)
Definition unit_interval : Type :=
  { x : Q | binary64_below_one x = true }.

(** The outside world, with state [W]: the environment variable, the
    video service, timers, the network, the object URL registry, and
    for [App] the random source, the console and React. *)
Record t (W : Type) : Type := {
  process_env_API_KEY : W -> option jsstring;
  models_generateVideos :
    GenAI.GoogleGenAI -> GenAI.GenerateVideosParameters ->
    W -> result GenAI.GenerateVideosOperation * W;
  operations_getVideosOperation :
    GenAI.GoogleGenAI -> GenAI.GenerateVideosOperation ->
    W -> result GenAI.GenerateVideosOperation * W;
  setTimeout : N -> W -> W;
  fetch : jsstring -> W -> result GenAI.Response * W;
  URL_createObjectURL : GenAI.Blob -> W -> jsstring * W;
  Math_random : W -> unit_interval * W;
  console_error : Thrown -> W -> W;
  React_setState : StateUpdate -> W -> W
}.

End Host.
Import Host.

(** ** Running asynchronous code

    An [async] function is run to its end against the world.  It returns,
    throws, or is still looping when the fuel (the number of loop
    iterations allowed) is used up.  The events are listed oldest first. *)
Module Run.

Inductive outcome (A : Type) : Type :=
| Returned (a : A)
| Threw (e : Thrown)
| StillPolling.
Arguments Returned {A} a.
Arguments Threw {A} e.
Arguments StillPolling {A}.

Definition M (W A : Type) : Type := W -> outcome A * W * list Event.

Definition ret {W A} (a : A) : M W A := fun w => (Returned a, w, []).

Definition throw {W A} (e : Thrown) : M W A := fun w => (Threw e, w, []).

Definition still_polling {W A} : M W A := fun w => (StillPolling, w, []).

Definition bind {W A B} (m : M W A) (k : A -> M W B) : M W B :=
  fun w =>
    let '(o, w1, l1) := m w in
    match o with
    | Returned a => let '(o2, w2, l2) := k a w1 in (o2, w2, l1 ++ l2)
    | Threw e => (Threw e, w1, l1)
    | StillPolling => (StillPolling, w1, l1)
    end.

(** An interaction that settles to [r] and is logged as [ev r]. *)
Definition interact {W A} (call : W -> result A * W)
    (ev : result A -> Event) : M W A :=
  fun w =>
    let '(r, w1) := call w in
    match r with
    | Ok a => (Returned a, w1, [ev r])
    | Throw e => (Threw e, w1, [ev r])
    end.

(** A value computed without the world: [Throw] becomes a [throw]. *)
Definition settle {W A} (r : result A) : M W A :=
  match r with
  | Ok a => ret a
  | Throw e => throw e
  end.

(** [try { body } catch (e) { handler e }] *)
Definition try_catch {W A} (body : M W A) (handler : Thrown -> M W A) : M W A :=
  fun w =>
    let '(o, w1, l1) := body w in
    match o with
    | Threw e => let '(o2, w2, l2) := handler e w1 in (o2, w2, l1 ++ l2)
    | _ => (o, w1, l1)
    end.

(** [try { body } finally { final }]: [final] runs however [body]
    ended (a loop that never ends never reaches it). *)
Definition try_finally {W A} (body : M W A) (final : M W unit) : M W A :=
  fun w =>
    let '(o, w1, l1) := body w in
    match o with
    | StillPolling => (StillPolling, w1, l1)
    | _ =>
        let '(o2, w2, l2) := final w1 in
        match o2 with
        | Returned _ => (o, w2, l1 ++ l2)
        | Threw e => (Threw e, w2, l1 ++ l2)
        | StillPolling => (StillPolling, w2, l1 ++ l2)
        end
    end.

End Run.
Import Run.

Declare Scope run_scope.
Delimit Scope run_scope with run.
Notation "x <- m ;; k" := (bind m (fun x => k))
  (at level 61, m at next level, right associativity) : run_scope.
Notation "m ;; k" := (bind m (fun _ => k))
  (at level 61, right associativity) : run_scope.
Open Scope run_scope.

(* ================================================================== *)
(** * services/geminiService.ts *)
(* ================================================================== *)

Module GeminiService.

(** The object [{ mimeType, base64 }].  The annotation says [string]
    for [base64], yet a missing second segment leaves it [undefined]. *)
Record MimeAndBase64 : Type := {
  mimeType : jsstring;
  base64 : option jsstring
}.

Definition octet_stream : jsstring := js "application/octet-stream".

(** [[
    const [header, base64] = dataUrl.split(',');
    const mimeType = header.match(/:(.*?);/)?.[1] ?? 'application/octet-stream';
    return { mimeType, base64 };
    ]]
    [header.match] on an [undefined] header would be a [TypeError]. *)
Definition dataUrlToMimeAndBase64 (dataUrl : jsstring) : result MimeAndBase64 :=
  let parts := String_split comma dataUrl in
  match nth_error parts 0 with
  | None => Throw TypeError_undefined
  | Some header =>
      let base64 := nth_error parts 1 in
      let mimeType := nullish (match_colon_group_semicolon header) octet_stream in
      Ok {| mimeType := mimeType; base64 := base64 |}
  end.

(** The progress messages. *)
Definition msg_sending : jsstring := js "Sending request to the AI...".
Definition msg_warming_up : jsstring := js "AI is warming up its creative engines...".
Definition msg_check (pollCount : nat) : jsstring :=
  js "Video generation in progress... (check #" ++ Number_toString pollCount ++ js ")".
Definition msg_complete : jsstring := js "Video generation complete! Downloading...".

(** The two errors [generateVideo] throws itself. *)
Definition no_download_link : Thrown :=
  Error (js "Video generation failed: No download link found.").
Definition failed_to_download (statusText : jsstring) : Thrown :=
  Error (js "Failed to download video: " ++ statusText).

(** [`${v}`] of a value that may be [undefined]. *)
Definition template (v : option jsstring) : jsstring :=
  match v with
  | Some s => s
  | None => js "undefined"
  end.

(** [operation.response?.generatedVideos?.[0]?.video?.uri] *)
Definition downloadLink_of (operation : GenAI.GenerateVideosOperation)
  : option jsstring :=
  match GenAI.response operation with
  | None => None
  | Some response =>
      match GenAI.generatedVideos response with
      | None => None
      | Some videos =>
          match nth_error videos 0 with
          | None => None
          | Some generated =>
              match GenAI.video generated with
              | None => None
              | Some video => GenAI.uri video
              end
          end
      end
  end.

Definition polling_interval : N := 10000.

Section WithHost.

Context {W : Type} (host : Host.t W).

(** [process.env.API_KEY], read from the environment as it is now. *)
Definition read_API_KEY : M W (option jsstring) :=
  fun w =>
    let v := process_env_API_KEY host w in (Returned v, w, [EvApiKey v]).

Definition call_onProgress (onProgress : jsstring -> W -> result unit * W)
    (msg : jsstring) : M W unit :=
  interact (onProgress msg) (EvProgress msg).

Definition generateVideos (ai : GenAI.GoogleGenAI)
    (params : GenAI.GenerateVideosParameters)
  : M W GenAI.GenerateVideosOperation :=
  interact (models_generateVideos host ai params) (EvGenerateVideos ai params).

Definition getVideosOperation (ai : GenAI.GoogleGenAI)
    (operation : GenAI.GenerateVideosOperation)
  : M W GenAI.GenerateVideosOperation :=
  interact (operations_getVideosOperation host ai operation)
           (EvGetVideosOperation ai operation).

(** [await new Promise(resolve => setTimeout(resolve, ms))] *)
Definition sleep (ms : N) : M W unit :=
  fun w => (Returned tt, setTimeout host ms w, [EvSetTimeout ms]).

Definition do_fetch (url : jsstring) : M W GenAI.Response :=
  interact (fetch host url) (EvFetch url).

Definition createObjectURL (b : GenAI.Blob) : M W jsstring :=
  fun w =>
    let '(url, w1) := URL_createObjectURL host b w in
    (Returned url, w1, [EvCreateObjectURL b url]).

(** [[
    while (!operation.done) {
      pollCount++;
      onProgress(`Video generation in progress... (check #${pollCount})`);
      await new Promise(resolve => setTimeout(resolve, 10000));
      operation = await ai.operations.getVideosOperation({ operation: operation });
    }
    ]]
    The loop has no bound of its own; [fuel] is the number of
    iterations this run is followed for.  [pollCount] is a Number that
    only ever holds a count of polls (exact as long as it stays below
    2^53); it is a natural number here. *)
Fixpoint while_not_done (fuel : nat) (ai : GenAI.GoogleGenAI)
    (onProgress : jsstring -> W -> result unit * W)
    (pollCount : nat) (operation : GenAI.GenerateVideosOperation)
  : M W GenAI.GenerateVideosOperation :=
  if GenAI.done operation then ret operation
  else
    match fuel with
    | O => still_polling
    | S fuel' =>
        let pollCount := S pollCount in
        call_onProgress onProgress (msg_check pollCount) ;;
        sleep polling_interval ;;
        operation <- getVideosOperation ai operation ;;
        while_not_done fuel' ai onProgress pollCount operation
    end.

Definition generateVideo (prompt imageDataUrl : jsstring)
    (aspectRatio : GenAI.AspectRatio)
    (onProgress : jsstring -> W -> result unit * W)
    (fuel : nat) : M W jsstring :=
  (* A new instance must be created before each call to use the latest API key. *)
  apiKey <- read_API_KEY ;;
  let ai := {| GenAI.apiKey := apiKey |} in
  decoded <- settle (dataUrlToMimeAndBase64 imageDataUrl) ;;
  let imageBase64 := base64 decoded in
  call_onProgress onProgress msg_sending ;;
  operation <- generateVideos ai
    {| GenAI.model := js "veo-3.1-fast-generate-preview";
       GenAI.prompt := prompt;
       GenAI.image := {| GenAI.imageBytes := imageBase64;
                         GenAI.mimeType := mimeType decoded |};
       GenAI.config := {| GenAI.numberOfVideos := 1;
                          GenAI.resolution := js "720p";
                          GenAI.aspectRatio := aspectRatio |} |} ;;
  call_onProgress onProgress msg_warming_up ;;
  operation <- while_not_done fuel ai onProgress 0 operation ;;
  call_onProgress onProgress msg_complete ;;
  let downloadLink := downloadLink_of operation in
  if negb (truthy downloadLink) then throw no_download_link
  else
    key <- read_API_KEY ;;
    videoResponse <- do_fetch (template downloadLink ++ js "&key=" ++ template key) ;;
    if negb (GenAI.ok videoResponse) then
      throw (failed_to_download (GenAI.statusText videoResponse))
    else
      videoBlob <- settle (GenAI.blob videoResponse) ;;
      createObjectURL videoBlob.

End WithHost.

End GeminiService.
Import GeminiService.

(* ================================================================== *)
(** * constants.ts and App.tsx: the generate handler

    [handleGenerate] is taken from the version of [App.tsx] whose key
    screen is driven by [isKeySelected]. *)
(* ================================================================== *)

Module App.

Definition RANDOM_PROMPTS : list jsstring := [
  js "An epic, cinematic intro for a sci-fi blockbuster set in a neon-drenched cyberpunk city.";
  js "A dramatic, fast-paced opening sequence for an action movie, featuring explosions and high-speed chases.";
  js "A magical and whimsical intro for a fantasy adventure, with glowing forests and mythical creatures.";
  js "A sleek and futuristic title sequence for a high-tech spy thriller.";
  js "A mysterious and suspenseful opening for a horror film, set in a dark, abandoned mansion.";
  js "A vibrant and energetic intro for a superhero movie, showcasing their powers."
].

(** [export interface ImageFile] (types.ts) *)
Record ImageFile : Type := {
  id : jsstring;
  dataUrl : jsstring;
  name : jsstring
}.

Definition msg_no_image : jsstring :=
  js "Please upload an image to generate a video.".
Definition msg_unknown : jsstring := js "An unknown error occurred.".
Definition msg_not_found : jsstring := js "Requested entity was not found".
Definition msg_invalid_key : jsstring :=
  js "API Key is invalid or not found. Please select a valid key.".

(** [a || b] for a string [b]: [a] when it is truthy (a non-empty
    string, or a truthy value of another kind), else [b]. *)
Definition or_else (a : Message) (b : jsstring) : Message :=
  match a with
  | Message_text (c :: s) => Message_text (c :: s)
  | Message_other => Message_other
  | Message_text [] | Message_falsy => Message_text b
  end.

Section WithHost.

Context {W : Type} (host : Host.t W).

Definition set_state (u : StateUpdate) : M W unit :=
  fun w => (Returned tt, React_setState host u w, [EvSetState u]).

Definition random : M W Q :=
  fun w =>
    let '(x, w1) := Math_random host w in
    (Returned (proj1_sig x), w1, [EvMathRandom (proj1_sig x)]).

Definition log_error (e : Thrown) : M W unit :=
  fun w => (Returned tt, console_error host e w, [EvConsoleError e]).

(** [setLoadingMessage], as [generateVideo] receives it. *)
Definition setLoadingMessage_callback (msg : jsstring) (w : W)
  : result unit * W :=
  (Ok tt, React_setState host (setLoadingMessage msg) w).

(** [RANDOM_PROMPTS[Math.floor(Math.random() * RANDOM_PROMPTS.length)]];
    the product is the rounded one of Numbers. *)
Definition pick_random_prompt : M W jsstring :=
  x <- random ;;
  let i := Z.to_nat (Math_floor (Number_multiply x
                        (inject_Z (Z.of_nat (List.length RANDOM_PROMPTS))))) in
  ret (nth i RANDOM_PROMPTS []).

(** [handleGenerate], closed over the [image], [prompt] and
    [aspectRatio] of the render it belongs to.  The catch block reads
    [e.message] and calls [includes] on what it has got, and either can
    throw a [TypeError]; [finally] runs all the same. *)
Definition handleGenerate (image : option ImageFile) (prompt : jsstring)
    (aspectRatio : GenAI.AspectRatio) (fuel : nat) : M W unit :=
  match image with
  | None =>
      set_state (setError (Some msg_no_image)) ;;
      ret tt
  | Some image =>
      set_state (setError None) ;;
      set_state (setVideoUrl None) ;;
      set_state (setIsLoading true) ;;
      finalPrompt <- match prompt with
                     | _ :: _ => ret prompt
                     | [] => pick_random_prompt
                     end ;;
      match prompt with
      | [] => set_state (setPrompt finalPrompt)
      | _ :: _ => ret tt
      end ;;
      try_finally
        (try_catch
           (url <- generateVideo host finalPrompt (dataUrl image) aspectRatio
                     setLoadingMessage_callback fuel ;;
            set_state (setVideoUrl (Some url)))
           (fun e =>
              log_error e ;;
              m <- settle (message e) ;;
              match or_else m msg_unknown with
              | Message_text errorMessage =>
                  errorMessage <-
                    (if String_includes msg_not_found errorMessage then
                       set_state (setIsKeySelected false) ;;
                       ret msg_invalid_key
                     else ret errorMessage) ;;
                  set_state (setError (Some errorMessage))
              | _ => throw TypeError_includes
              end))
        (set_state (setIsLoading false))
  end.

End WithHost.

End App.

(* ================================================================== *)
(** * Scripted worlds for the design document's scenarios *)
(* ================================================================== *)

Module Scenario.

(** The world holds the environment variable, the number of times the
    service will still answer Pending, and the object URLs handed out. *)
Record World : Type := {
  env_API_KEY : option jsstring;
  pending_left : nat;
  registry : list (jsstring * GenAI.Blob)
}.

Definition video_uri : jsstring := js "https://example/video123".

Definition pending_operation : GenAI.GenerateVideosOperation :=
  {| GenAI.name := js "operations/1";
     GenAI.done := false;
     GenAI.response := None |}.

Definition done_operation : GenAI.GenerateVideosOperation :=
  {| GenAI.name := js "operations/1";
     GenAI.done := true;
     GenAI.response :=
       Some {| GenAI.generatedVideos :=
                 Some [ {| GenAI.video := Some {| GenAI.uri := Some video_uri |} |} ] |} |}.

(** Done, but nothing was generated. *)
Definition empty_operation : GenAI.GenerateVideosOperation :=
  {| GenAI.name := js "operations/1";
     GenAI.done := true;
     GenAI.response := Some {| GenAI.generatedVideos := Some [] |} |}.

Definition ok_response : GenAI.Response :=
  {| GenAI.ok := true; GenAI.statusText := js "OK"; GenAI.blob := Ok [1; 2; 3]%N |}.

Definition not_found_response : GenAI.Response :=
  {| GenAI.ok := false; GenAI.statusText := js "Not Found"; GenAI.blob := Ok [] |}.

Definition half : unit_interval := exist _ (1 # 2) eq_refl.

(** [0.16666666666666666] and [0.8333333333333333], the Numbers next
    below 1/6 and 5/6. *)
Definition below_one_sixth : unit_interval :=
  exist _ (6004799503160661 # 36028797018963968) eq_refl.
Definition below_five_sixths : unit_interval :=
  exist _ (3752999689475413 # 4503599627370496) eq_refl.

(** One answer of the service: Pending while some are left, then [final]. *)
Definition answer (final : GenAI.GenerateVideosOperation) (w : World)
  : result GenAI.GenerateVideosOperation * World :=
  match pending_left w with
  | O => (Ok final, w)
  | S n =>
      (Ok pending_operation,
       {| env_API_KEY := env_API_KEY w; pending_left := n; registry := registry w |})
  end.

(** The asset host serves the video only at the URI with [cred]
    appended; the service ends every job with [final]. *)
Definition host (cred : jsstring) (final : GenAI.GenerateVideosOperation)
  : Host.t World :=
  {| process_env_API_KEY := env_API_KEY;
     models_generateVideos := fun _ _ => answer final;
     operations_getVideosOperation := fun _ _ => answer final;
     setTimeout := fun _ w => w;
     fetch := fun url w =>
       if jsstring_eqb url (video_uri ++ js "&key=" ++ cred)
       then (Ok ok_response, w) else (Ok not_found_response, w);
     URL_createObjectURL := fun b w =>
       let url := js "blob:" ++ Number_toString (List.length (registry w)) in
       (url, {| env_API_KEY := env_API_KEY w;
                pending_left := pending_left w;
                registry := (url, b) :: registry w |});
     Math_random := fun w => (half, w);
     console_error := fun _ w => w;
     React_setState := fun _ w => w |}.

(** The progress sink of the scenarios only observes. *)
Definition onProgress (msg : jsstring) (w : World) : result unit * World :=
  (Ok tt, w).

(** The blob behind an object URL. *)
Definition lookup (url : jsstring) (w : World) : option GenAI.Blob :=
  option_map snd (find (fun e => jsstring_eqb (fst e) url) (registry w)).

Definition start (key : option jsstring) (pending : nat) : World :=
  {| env_API_KEY := key; pending_left := pending; registry := [] |}.

(** The call of the scenarios, against a service that ends with [final]
    after [pending] Pending answers, with [key] in the environment. *)
Definition run (cred : jsstring) (final : GenAI.GenerateVideosOperation)
    (key : option jsstring) (pending fuel : nat) :=
  generateVideo (host cred final) (js "A dog running on a beach")
    (js "data:image/png;base64,AAAA") GenAI.Ratio_16_9 onProgress fuel
    (start key pending).

(** The environment variable is given another value. *)
Definition rotate_key (key : option jsstring) (w : World) : World :=
  {| env_API_KEY := key; pending_left := pending_left w; registry := registry w |}.

(** The same call, from any world. *)
Definition run_from (cred : jsstring) (final : GenAI.GenerateVideosOperation)
    (fuel : nat) (w : World) :=
  generateVideo (host cred final) (js "A dog running on a beach")
    (js "data:image/png;base64,AAAA") GenAI.Ratio_16_9 onProgress fuel w.

(** An uploaded image, for the generate handler. *)
Definition image : App.ImageFile :=
  {| App.id := js "1700000000000";
     App.dataUrl := js "data:image/png;base64,AAAA";
     App.name := js "dog.png" |}.

End Scenario.

(* ================================================================== *)
(** * What is observed of a run *)
(* ================================================================== *)

(** The progress messages, in order. *)
Fixpoint progress_messages (l : list Event) : list jsstring :=
  match l with
  | [] => []
  | EvProgress msg _ :: l' => msg :: progress_messages l'
  | _ :: l' => progress_messages l'
  end.

(** The delays awaited. *)
Fixpoint timeouts (l : list Event) : list N :=
  match l with
  | [] => []
  | EvSetTimeout ms :: l' => ms :: timeouts l'
  | _ :: l' => timeouts l'
  end.

(** The job descriptors handed back to the service. *)
Fixpoint polled (l : list Event) : list GenAI.GenerateVideosOperation :=
  match l with
  | [] => []
  | EvGetVideosOperation _ operation _ :: l' => operation :: polled l'
  | _ :: l' => polled l'
  end.

(** The job descriptors the service answered with, to the submission
    and to every poll. *)
Fixpoint answers (l : list Event) : list GenAI.GenerateVideosOperation :=
  match l with
  | [] => []
  | EvGenerateVideos _ _ (Ok operation) :: l' => operation :: answers l'
  | EvGetVideosOperation _ _ (Ok operation) :: l' => operation :: answers l'
  | _ :: l' => answers l'
  end.

(** The submissions, with what the service answered. *)
Fixpoint submissions (l : list Event)
  : list (GenAI.GenerateVideosParameters * result GenAI.GenerateVideosOperation) :=
  match l with
  | [] => []
  | EvGenerateVideos _ params r :: l' => (params, r) :: submissions l'
  | _ :: l' => submissions l'
  end.

(** The clients the service was called through. *)
Fixpoint clients (l : list Event) : list GenAI.GoogleGenAI :=
  match l with
  | [] => []
  | EvGenerateVideos ai _ _ :: l' => ai :: clients l'
  | EvGetVideosOperation ai _ _ :: l' => ai :: clients l'
  | _ :: l' => clients l'
  end.

(** The URLs fetched, with what came back. *)
Fixpoint fetches (l : list Event) : list (jsstring * result GenAI.Response) :=
  match l with
  | [] => []
  | EvFetch url r :: l' => (url, r) :: fetches l'
  | _ :: l' => fetches l'
  end.

(** The object URLs created, with the blob behind each. *)
Fixpoint object_urls (l : list Event) : list (GenAI.Blob * jsstring) :=
  match l with
  | [] => []
  | EvCreateObjectURL b url :: l' => (b, url) :: object_urls l'
  | _ :: l' => object_urls l'
  end.

(** The events that only [generateVideo] produces. *)
Definition from_generateVideo (e : Event) : bool :=
  match e with
  | EvApiKey _ | EvProgress _ _ | EvGenerateVideos _ _ _ | EvSetTimeout _
  | EvGetVideosOperation _ _ _ | EvFetch _ _ | EvCreateObjectURL _ _ => true
  | EvMathRandom _ | EvConsoleError _ | EvSetState _ => false
  end.

(** Every call of the progress callback came back without throwing. *)
Fixpoint callbacks_returned (l : list Event) : bool :=
  match l with
  | [] => true
  | EvProgress _ (Throw _) :: _ => false
  | _ :: l' => callbacks_returned l'
  end.

(** Every fetch came back with a success status and a readable body. *)
Fixpoint downloads_succeeded (l : list Event) : bool :=
  match l with
  | [] => true
  | EvFetch _ (Ok r) :: l' =>
      GenAI.ok r && match GenAI.blob r with Ok _ => true | Throw _ => false end
      && downloads_succeeded l'
  | EvFetch _ (Throw _) :: _ => false
  | _ :: l' => downloads_succeeded l'
  end.

(** The events of the poll cycles that take the job through the
    descriptors [ops], none of them failing: a progress message with the
    next count, the delay, and the poll that hands the current descriptor
    back and receives the next. *)
Fixpoint cycles (ai : GenAI.GoogleGenAI) (pollCount : nat)
    (ops : list GenAI.GenerateVideosOperation) : list Event :=
  match ops with
  | operation :: (next :: _) as ops' =>
      [ EvProgress (msg_check (S pollCount)) (Ok tt);
        EvSetTimeout polling_interval;
        EvGetVideosOperation ai operation (Ok next) ]
      ++ cycles ai (S pollCount) ops'
  | _ => []
  end.

(** The parameters [generateVideo] submits. *)
Definition submitted (prompt : jsstring) (aspectRatio : GenAI.AspectRatio)
    (r : MimeAndBase64) : GenAI.GenerateVideosParameters :=
  {| GenAI.model := js "veo-3.1-fast-generate-preview";
     GenAI.prompt := prompt;
     GenAI.image := {| GenAI.imageBytes := base64 r;
                       GenAI.mimeType := mimeType r |};
     GenAI.config := {| GenAI.numberOfVideos := 1;
                        GenAI.resolution := js "720p";
                        GenAI.aspectRatio := aspectRatio |} |}.

(** ** The shapes a run can take

    These relations list, without the world, every way the loop, the
    download and the whole of [generateVideo] can go; the lemmas below
    show that each run has one of these shapes. *)

(** The loop entered with [pollCount] and [operation]. *)
Inductive Polling (ai : GenAI.GoogleGenAI)
  : nat -> GenAI.GenerateVideosOperation ->
    outcome GenAI.GenerateVideosOperation -> list Event -> Prop :=
| Polling_done pollCount operation :
    GenAI.done operation = true ->
    Polling ai pollCount operation (Returned operation) []
| Polling_cut pollCount operation :
    GenAI.done operation = false ->
    Polling ai pollCount operation StillPolling []
| Polling_callback_threw pollCount operation e :
    GenAI.done operation = false ->
    Polling ai pollCount operation (Threw e)
      [ EvProgress (msg_check (S pollCount)) (Throw e) ]
| Polling_poll_threw pollCount operation e :
    GenAI.done operation = false ->
    Polling ai pollCount operation (Threw e)
      [ EvProgress (msg_check (S pollCount)) (Ok tt);
        EvSetTimeout polling_interval;
        EvGetVideosOperation ai operation (Throw e) ]
| Polling_cycle pollCount operation next o l :
    GenAI.done operation = false ->
    Polling ai (S pollCount) next o l ->
    Polling ai pollCount operation o
      ([ EvProgress (msg_check (S pollCount)) (Ok tt);
         EvSetTimeout polling_interval;
         EvGetVideosOperation ai operation (Ok next) ] ++ l).

(** The URL the video is fetched from. *)
Definition download_url (operation : GenAI.GenerateVideosOperation)
    (key : option jsstring) : jsstring :=
  template (downloadLink_of operation) ++ js "&key=" ++ template key.

(** What follows the loop, for the last descriptor [operation]. *)
Inductive Finishing (operation : GenAI.GenerateVideosOperation)
  : outcome jsstring -> list Event -> Prop :=
| Finishing_callback_threw e :
    Finishing operation (Threw e) [ EvProgress msg_complete (Throw e) ]
| Finishing_no_link :
    truthy (downloadLink_of operation) = false ->
    Finishing operation (Threw no_download_link)
      [ EvProgress msg_complete (Ok tt) ]
| Finishing_fetch_threw key e :
    truthy (downloadLink_of operation) = true ->
    Finishing operation (Threw e)
      [ EvProgress msg_complete (Ok tt); EvApiKey key;
        EvFetch (download_url operation key) (Throw e) ]
| Finishing_not_ok key r :
    truthy (downloadLink_of operation) = true ->
    GenAI.ok r = false ->
    Finishing operation (Threw (failed_to_download (GenAI.statusText r)))
      [ EvProgress msg_complete (Ok tt); EvApiKey key;
        EvFetch (download_url operation key) (Ok r) ]
| Finishing_blob_threw key r e :
    truthy (downloadLink_of operation) = true ->
    GenAI.ok r = true ->
    GenAI.blob r = Throw e ->
    Finishing operation (Threw e)
      [ EvProgress msg_complete (Ok tt); EvApiKey key;
        EvFetch (download_url operation key) (Ok r) ]
| Finishing_returned key r b url :
    truthy (downloadLink_of operation) = true ->
    GenAI.ok r = true ->
    GenAI.blob r = Ok b ->
    Finishing operation (Returned url)
      [ EvProgress msg_complete (Ok tt); EvApiKey key;
        EvFetch (download_url operation key) (Ok r);
        EvCreateObjectURL b url ].

(** The events up to the loop when nothing failed. *)
Definition opening (key : option jsstring)
    (params : GenAI.GenerateVideosParameters)
    (operation : GenAI.GenerateVideosOperation) : list Event :=
  [ EvApiKey key;
    EvProgress msg_sending (Ok tt);
    EvGenerateVideos {| GenAI.apiKey := key |} params (Ok operation);
    EvProgress msg_warming_up (Ok tt) ].

(** A whole run, started with [key] in the environment. *)
Inductive Generating (key : option jsstring)
    (params : GenAI.GenerateVideosParameters)
  : outcome jsstring -> list Event -> Prop :=
| Generating_sending_threw e :
    Generating key params (Threw e)
      [ EvApiKey key; EvProgress msg_sending (Throw e) ]
| Generating_submit_threw e :
    Generating key params (Threw e)
      [ EvApiKey key; EvProgress msg_sending (Ok tt);
        EvGenerateVideos {| GenAI.apiKey := key |} params (Throw e) ]
| Generating_warming_up_threw operation e :
    Generating key params (Threw e)
      [ EvApiKey key; EvProgress msg_sending (Ok tt);
        EvGenerateVideos {| GenAI.apiKey := key |} params (Ok operation);
        EvProgress msg_warming_up (Throw e) ]
| Generating_polling_threw operation e l :
    Polling {| GenAI.apiKey := key |} 0 operation (Threw e) l ->
    Generating key params (Threw e) (opening key params operation ++ l)
| Generating_still_polling operation l :
    Polling {| GenAI.apiKey := key |} 0 operation StillPolling l ->
    Generating key params StillPolling (opening key params operation ++ l)
| Generating_finishing operation final l o l' :
    Polling {| GenAI.apiKey := key |} 0 operation (Returned final) l ->
    Finishing final o l' ->
    Generating key params o (opening key params operation ++ l ++ l').

(* ================================================================== *)
(** * The rest of App.tsx: loading messages, component state, key check *)
(* ================================================================== *)

Module AppUI.

Definition LOADING_MESSAGES : list jsstring := [
  js "Initializing hyperdrive...";
  js "Assembling video matrix...";
  js "Polishing pixels...";
  js "Reticulating splines...";
  js "Charging flux capacitor...";
  js "Warming up the AI's creative circuits...";
  js "Consulting the digital muse...";
  js "Rendering cinematic awesomeness..."
].

(** [array.indexOf(x)]: the first position holding [x], or [-1]. *)
Fixpoint indexOf (x : jsstring) (l : list jsstring) : Z :=
  match l with
  | [] => -1
  | y :: l' =>
      if jsstring_eqb y x then 0
      else let i := indexOf x l' in
           if (i <? 0)%Z then (-1)%Z else (i + 1)%Z
  end.

(** [array[i]] for an integer [i]: [undefined] outside the bounds. *)
Definition at_index (l : list jsstring) (i : Z) : option jsstring :=
  if (i <? 0)%Z then None else nth_error l (Z.to_nat i).

(** The updater the interval hands to [setLoadingMessage]:
    [[
    prev => {
      const currentIndex = LOADING_MESSAGES.indexOf(prev);
      const nextIndex = (currentIndex + 1) % LOADING_MESSAGES.length;
      return LOADING_MESSAGES[nextIndex];
    }
    ]]
    [%] is the remainder that takes the sign of the dividend. *)
Definition next_loading_message (prev : jsstring) : option jsstring :=
  let currentIndex := indexOf prev LOADING_MESSAGES in
  let nextIndex :=
    Z.rem (currentIndex + 1) (Z.of_nat (List.length LOADING_MESSAGES)) in
  at_index LOADING_MESSAGES nextIndex.

(** [n] ticks of the interval, from the message [m]; [None] once a tick
    has produced [undefined]. *)
Fixpoint ticks (n : nat) (m : jsstring) : option jsstring :=
  match n with
  | O => Some m
  | S n' =>
      match next_loading_message m with
      | Some m' => ticks n' m'
      | None => None
      end
  end.

(** The part of the component state that [handleGenerate] and the key
    handlers write ([useState] in [App]). *)
Record AppState : Type := {
  prompt : jsstring;
  isLoading : bool;
  loadingMessage : jsstring;
  videoUrl : option jsstring;
  error : option jsstring;
  isKeySelected : bool
}.

(** The state as [App] first renders it. *)
Definition initial : AppState :=
  {| prompt := []; isLoading := false; loadingMessage := [];
     videoUrl := None; error := None; isKeySelected := false |}.

(** One setter call. *)
Definition apply (st : AppState) (u : StateUpdate) : AppState :=
  match u with
  | setPrompt v =>
      {| prompt := v; isLoading := isLoading st; loadingMessage := loadingMessage st;
         videoUrl := videoUrl st; error := error st; isKeySelected := isKeySelected st |}
  | setLoadingMessage v =>
      {| prompt := prompt st; isLoading := isLoading st; loadingMessage := v;
         videoUrl := videoUrl st; error := error st; isKeySelected := isKeySelected st |}
  | setIsLoading v =>
      {| prompt := prompt st; isLoading := v; loadingMessage := loadingMessage st;
         videoUrl := videoUrl st; error := error st; isKeySelected := isKeySelected st |}
  | setVideoUrl v =>
      {| prompt := prompt st; isLoading := isLoading st; loadingMessage := loadingMessage st;
         videoUrl := v; error := error st; isKeySelected := isKeySelected st |}
  | setError v =>
      {| prompt := prompt st; isLoading := isLoading st; loadingMessage := loadingMessage st;
         videoUrl := videoUrl st; error := v; isKeySelected := isKeySelected st |}
  | setIsKeySelected v =>
      {| prompt := prompt st; isLoading := isLoading st; loadingMessage := loadingMessage st;
         videoUrl := videoUrl st; error := error st; isKeySelected := v |}
  end.

(** The setter calls of a run of a handler, in order.  The progress
    callback [handleGenerate] passes is [setLoadingMessage] itself. *)
Fixpoint updates (l : list Event) : list StateUpdate :=
  match l with
  | [] => []
  | EvSetState u :: l' => u :: updates l'
  | EvProgress msg _ :: l' => setLoadingMessage msg :: updates l'
  | _ :: l' => updates l'
  end.

(** The state once the setter calls of the run are applied. *)
Definition state_after (l : list Event) (st : AppState) : AppState :=
  fold_left apply (updates l) st.

(** [{error && <div>...</div>}]: the banner is rendered for a non-empty
    error. *)
Definition shows_error (st : AppState) : bool := truthy (error st).

(** The string [errorMessage] holds when the catch block of
    [handleGenerate] calls [includes] on it, or the [TypeError] the block
    has thrown by then. *)
Definition errorMessage_of (e : Thrown) : result jsstring :=
  match message e with
  | Throw type_error => Throw type_error
  | Ok m =>
      match App.or_else m App.msg_unknown with
      | Message_text errorMessage => Ok errorMessage
      | _ => Throw TypeError_includes
      end
  end.

(** What [handleGenerate] puts in [error] when [errorMessage] is a
    string. *)
Definition shown_error (errorMessage : jsstring) : jsstring :=
  if String_includes App.msg_not_found errorMessage then App.msg_invalid_key
  else errorMessage.

(** What [handleGenerate] does before it calls [generateVideo]: the
    three resets and, for an empty prompt, the draw [x] and the prompt
    [chosen] that it stores. *)
Definition preparation (draw : option (Q * jsstring)) : list Event :=
  [ EvSetState (setError None);
    EvSetState (setVideoUrl None);
    EvSetState (setIsLoading true) ]
  ++ match draw with
     | Some (x, chosen) => [ EvMathRandom x; EvSetState (setPrompt chosen) ]
     | None => []
     end.

(** What [handleGenerate] does once [generateVideo] has ended with [o]. *)
Definition conclusion (o : outcome jsstring) : list Event :=
  match o with
  | Returned url =>
      [ EvSetState (setVideoUrl (Some url)); EvSetState (setIsLoading false) ]
  | Threw e =>
      EvConsoleError e
      :: match errorMessage_of e with
         | Ok errorMessage =>
             (if String_includes App.msg_not_found errorMessage
              then [ EvSetState (setIsKeySelected false) ] else [])
             ++ [ EvSetState (setError (Some (shown_error errorMessage))) ]
         | Throw _ => []
         end
      ++ [ EvSetState (setIsLoading false) ]
  | StillPolling => []
  end.

(** How [handleGenerate] ends once [generateVideo] has ended with [o]:
    it returns, unless its catch block threw. *)
Definition handler_outcome (o : outcome jsstring) : outcome unit :=
  match o with
  | Returned _ => Returned tt
  | Threw e =>
      match errorMessage_of e with
      | Ok _ => Returned tt
      | Throw type_error => Threw type_error
      end
  | StillPolling => StillPolling
  end.

(** The draws of [Math.random()]. *)
Fixpoint random_draws (l : list Event) : list Q :=
  match l with
  | [] => []
  | EvMathRandom x :: l' => x :: random_draws l'
  | _ :: l' => random_draws l'
  end.

(** The errors written to the console. *)
Fixpoint console_errors (l : list Event) : list Thrown :=
  match l with
  | [] => []
  | EvConsoleError e :: l' => e :: console_errors l'
  | _ :: l' => console_errors l'
  end.

(** [window.aistudio], the key selection of the hosting page. *)
Record AIStudio (W : Type) : Type := {
  window_aistudio : W -> bool;
  hasSelectedApiKey : W -> result bool * W;
  openSelectKey : W -> result unit * W
}.

Definition retry_interval : N := 500.

Section WithHost.

Context {W : Type} (host : Host.t W) (studio : AIStudio W).

(** A call of [window.aistudio]. *)
Definition await {A : Type} (call : W -> result A * W) : M W A :=
  fun w =>
    let '(r, w1) := call w in
    match r with
    | Ok a => (Returned a, w1, [])
    | Throw e => (Threw e, w1, [])
    end.

(** [[
    const checkApiKey = useCallback(async () => {
      if (window.aistudio) {
        const hasKey = await window.aistudio.hasSelectedApiKey();
        setIsKeySelected(hasKey);
      } else {
        setTimeout(checkApiKey, 500);
      }
    }, []);
    ]]
    The invocations chained by the timer are followed as one run, for at
    most [fuel] timers. *)
Fixpoint checkApiKey (fuel : nat) : M W unit :=
  fun w =>
    if window_aistudio studio w then
      (hasKey <- await (hasSelectedApiKey studio) ;;
       App.set_state host (setIsKeySelected hasKey)) w
    else
      match fuel with
      | O => still_polling w
      | S fuel' => (sleep host retry_interval ;; checkApiKey fuel') w
      end.

End WithHost.

End AppUI.

(** Worlds that answer every call the same way, for the behaviour on
    failures and for the unbounded loop. *)
Module Script.

Definition host (submit poll : result GenAI.GenerateVideosOperation)
    (fetched : result GenAI.Response) : Host.t Scenario.World :=
  {| process_env_API_KEY := Scenario.env_API_KEY;
     models_generateVideos := fun _ _ w => (submit, w);
     operations_getVideosOperation := fun _ _ w => (poll, w);
     setTimeout := fun _ w => w;
     fetch := fun _ w => (fetched, w);
     URL_createObjectURL := fun _ w => (js "blob:0", w);
     Math_random := fun w => (Scenario.half, w);
     console_error := fun _ w => w;
     React_setState := fun _ w => w |}.

(** A progress callback that throws [e] on the message [bad]. *)
Definition throws_on (bad : jsstring) (e : Thrown) (msg : jsstring)
    (w : Scenario.World) : result unit * Scenario.World :=
  if jsstring_eqb msg bad then (Throw e, w) else (Ok tt, w).

(** A world whose random source always draws [x]. *)
Definition drawing (x : unit_interval) : Host.t Scenario.World :=
  {| process_env_API_KEY := Scenario.env_API_KEY;
     models_generateVideos := fun _ _ w => (Ok Scenario.done_operation, w);
     operations_getVideosOperation := fun _ _ w => (Ok Scenario.done_operation, w);
     setTimeout := fun _ w => w;
     fetch := fun _ w => (Ok Scenario.ok_response, w);
     URL_createObjectURL := fun _ w => (js "blob:0", w);
     Math_random := fun w => (x, w);
     console_error := fun _ w => w;
     React_setState := fun _ w => w |}.

Definition quota : Thrown := Error (js "Quota exceeded").
Definition not_found : Thrown := Error (js "404: Requested entity was not found.").

Definition run (h : Host.t Scenario.World)
    (onProgress : jsstring -> Scenario.World -> result unit * Scenario.World)
    (fuel : nat) :=
  generateVideo h (js "A dog running on a beach")
    (js "data:image/png;base64,AAAA") GenAI.Ratio_16_9 onProgress fuel
    (Scenario.start (Some (js "cred")) 0).

(** [window.aistudio] appears after [after] timers and reports [answer]. *)
Definition studio (after : nat) (answer : result bool) (opened : result unit)
  : AppUI.AIStudio Scenario.World :=
  {| AppUI.window_aistudio := fun w => Nat.leb after (Scenario.pending_left w);
     AppUI.hasSelectedApiKey := fun w => (answer, w);
     AppUI.openSelectKey := fun w => (opened, w) |}.

(** Time passing is counted in [pending_left]. *)
Definition clock_host : Host.t Scenario.World :=
  {| process_env_API_KEY := Scenario.env_API_KEY;
     models_generateVideos := fun _ _ w => (Ok Scenario.done_operation, w);
     operations_getVideosOperation := fun _ _ w => (Ok Scenario.done_operation, w);
     setTimeout := fun _ w =>
       {| Scenario.env_API_KEY := Scenario.env_API_KEY w;
          Scenario.pending_left := S (Scenario.pending_left w);
          Scenario.registry := Scenario.registry w |};
     fetch := fun _ w => (Ok Scenario.ok_response, w);
     URL_createObjectURL := fun _ w => (js "blob:0", w);
     Math_random := fun w => (Scenario.half, w);
     console_error := fun _ w => w;
     React_setState := fun _ w => w |}.

End Script.

(** The results of the polls. *)
Fixpoint poll_results (l : list Event)
  : list (result GenAI.GenerateVideosOperation) :=
  match l with
  | [] => []
  | EvGetVideosOperation _ _ r :: l' => r :: poll_results l'
  | _ :: l' => poll_results l'
  end.


(** A code unit that the pattern lets into the MIME type and that does
    not cut the header. *)
Definition mime_char (c : N) : Prop :=
  c <> comma /\ c <> semicolon /\ is_line_terminator c = false.


(* ================================================================== *)
(** * Properties of the decoder *)
(* ================================================================== *)

(** A few evaluations, to fix the reading of the JavaScript operations. *)
Example split_keeps_empty_segments :
  String_split comma (js "a,,b,") = [js "a"; []; js "b"; []].
Proof. reflexivity. Qed.

Example split_of_empty_string : String_split comma [] = [[]].
Proof. reflexivity. Qed.

Example match_in_png_header :
  match_colon_group_semicolon (js "data:image/png;base64") = Some (js "image/png").
Proof. reflexivity. Qed.

(** The group may be empty, and a line feed makes the search start again
    at the next colon. *)
Example match_of_empty_group :
  match_colon_group_semicolon (js "data:;base64") = Some [].
Proof. reflexivity. Qed.

Example match_after_line_feed :
  match_colon_group_semicolon (js "a:b" ++ [10%N] ++ js "c:d;e") = Some (js "d").
Proof. reflexivity. Qed.

Example check_message_12 :
  msg_check 12 = js "Video generation in progress... (check #12)".
Proof. reflexivity. Qed.

Example includes_not_found :
  String_includes App.msg_not_found (js "404: Requested entity was not found.") = true.
Proof. reflexivity. Qed.

(** The product [Math.random() * 6] is rounded before the floor is
    taken: the Number next below 1/6 gives index 1, not 0, and the Number
    next below 5/6 gives index 5. *)
Example random_prompt_below_one_sixth :
  fst (fst (App.pick_random_prompt (Script.drawing Scenario.below_one_sixth)
              (Scenario.start None 0)))
  = Returned (js "A dramatic, fast-paced opening sequence for an action movie, featuring explosions and high-speed chases.").
Proof. reflexivity. Qed.

Example random_prompt_below_five_sixths :
  fst (fst (App.pick_random_prompt (Script.drawing Scenario.below_five_sixths)
              (Scenario.start None 0)))
  = Returned (js "A vibrant and energetic intro for a superhero movie, showcasing their powers.").
Proof. reflexivity. Qed.

Example random_prompt_at_half :
  fst (fst (App.pick_random_prompt (Script.drawing Scenario.half)
              (Scenario.start None 0)))
  = Returned (js "A sleek and futuristic title sequence for a high-tech spy thriller.").
Proof. reflexivity. Qed.

(** A rejection with [undefined] makes the catch block itself throw. *)
Example handler_rejects_on_undefined :
  fst (fst (App.handleGenerate
              (Script.host (Throw Thrown_undefined) (Throw Thrown_undefined)
                 (Ok Scenario.ok_response))
              (Some Scenario.image) (js "A dog running on a beach")
              GenAI.Ratio_16_9 0 (Scenario.start (Some (js "cred")) 0)))
  = Threw TypeError_message_of_undefined.
Proof. reflexivity. Qed.

Section Decoder.

Lemma String_split_nonempty sep s : String_split sep s <> [].
Proof.
  destruct s as [|c s]; simpl; [discriminate|].
  destruct (c =? sep)%N; [discriminate|].
  destruct (String_split sep s); discriminate.
Qed.

(** A string without separator is its own single segment. *)
Lemma String_split_no_sep sep s :
  ~ In sep s -> String_split sep s = [s].
Proof.
  induction s as [|c s IH]; simpl; intros H; [reflexivity|].
  destruct (N.eqb_spec c sep) as [->|_]; [exfalso; auto|].
  rewrite IH by tauto. reflexivity.
Qed.

(** The first separator ends the first segment. *)
Lemma String_split_app sep a b :
  ~ In sep a ->
  String_split sep (a ++ sep :: b) = a :: String_split sep b.
Proof.
  induction a as [|c a IH]; simpl; intros H.
  - rewrite N.eqb_refl. reflexivity.
  - destruct (N.eqb_spec c sep) as [->|_]; [exfalso; auto|].
    rewrite IH by tauto. reflexivity.
Qed.

(** The lazy group takes everything up to the first semicolon. *)
Lemma lazy_dots_clean g rest :
  Forall (fun c => c <> semicolon /\ is_line_terminator c = false) g ->
  lazy_dots_then_semicolon (g ++ semicolon :: rest) = Some g.
Proof.
  induction 1 as [|c g [Hs Hl] _ IH]; simpl.
  - reflexivity.
  - destruct (N.eqb_spec c semicolon); [contradiction|].
    rewrite Hl, IH. reflexivity.
Qed.

(** What the decoder returns once the first two segments are known. *)
Lemma decode_two_segments header payload tail :
  ~ In comma header -> ~ In comma payload ->
  tail = [] \/ (exists rest, tail = comma :: rest) ->
  dataUrlToMimeAndBase64 (header ++ comma :: payload ++ tail)
  = Ok {| mimeType := nullish (match_colon_group_semicolon header) octet_stream;
          base64 := Some payload |}.
Proof.
  intros Hh Hp Ht. unfold dataUrlToMimeAndBase64.
  rewrite String_split_app by assumption.
  destruct Ht as [-> | [rest ->]].
  - rewrite app_nil_r, String_split_no_sep by assumption. reflexivity.
  - rewrite String_split_app by assumption. reflexivity.
Qed.

Lemma match_data_header mime :
  Forall mime_char mime ->
  match_colon_group_semicolon (js "data:" ++ mime ++ js ";base64") = Some mime.
Proof.
  intros H.
  change (js "data:") with [100; 97; 116; 97; 58]%N.
  change (js ";base64") with (semicolon :: js "base64").
  change (match_colon_group_semicolon
            ([100; 97; 116; 97; 58]%N ++ mime ++ semicolon :: js "base64"))
    with (match lazy_dots_then_semicolon (mime ++ semicolon :: js "base64") with
          | Some g => Some g
          | None => match_colon_group_semicolon (mime ++ semicolon :: js "base64")
          end).
  rewrite lazy_dots_clean; [reflexivity|].
  eapply Forall_impl; [|exact H]. unfold mime_char; tauto.
Qed.

Lemma data_header_no_comma mime :
  Forall mime_char mime -> ~ In comma (js "data:" ++ mime ++ js ";base64").
Proof.
  intros H Hin. rewrite !in_app_iff in Hin.
  destruct Hin as [Hin | [Hin | Hin]].
  - vm_compute in Hin. intuition discriminate.
  - rewrite Forall_forall in H. apply H in Hin. destruct Hin as [Hc _]. auto.
  - vm_compute in Hin. intuition discriminate.
Qed.

End Decoder.

(** C1 (as amended).  For a string [data:<mime>;base64,<payload>] whose
    [<mime>] has no comma, no semicolon and no line terminator and whose
    [<payload>] has no comma, the decoder returns exactly [<mime>] and
    [<payload>].  For a string whose header (the text before the first
    comma) has no [:...;] match, the MIME type is
    ['application/octet-stream'] and the payload is the text between the
    first comma and the next comma, or the end of the string when there is
    no other comma. *)
Theorem C1_decode_data_url :
  forall mime payload header tail,
    Forall mime_char mime ->
    ~ In comma payload ->
    ~ In comma header ->
    match_colon_group_semicolon header = None ->
    tail = [] \/ (exists rest, tail = comma :: rest) ->
    dataUrlToMimeAndBase64 (js "data:" ++ mime ++ js ";base64," ++ payload)
    = Ok {| mimeType := mime; base64 := Some payload |}
    /\ dataUrlToMimeAndBase64 (header ++ comma :: payload ++ tail)
       = Ok {| mimeType := octet_stream; base64 := Some payload |}.
Proof.
  intros mime payload header tail Hm Hp Hh Hnone Ht. split.
  - change (js ";base64,") with (js ";base64" ++ [comma]).
    replace (js "data:" ++ mime ++ (js ";base64" ++ [comma]) ++ payload)
      with ((js "data:" ++ mime ++ js ";base64") ++ comma :: payload ++ [])
      by (rewrite app_nil_r, <- !app_assoc; reflexivity).
    rewrite decode_two_segments; auto using data_header_no_comma.
    rewrite match_data_header by assumption. reflexivity.
  - rewrite decode_two_segments by assumption.
    rewrite Hnone. reflexivity.
Qed.

(** C1 at [data:image/png;base64,AAAA] and at [x,a,b]. *)
Lemma C1_decode_data_url_witness :
  dataUrlToMimeAndBase64 (js "data:" ++ js "image/png" ++ js ";base64," ++ js "AAAA")
  = Ok {| mimeType := js "image/png"; base64 := Some (js "AAAA") |}
  /\ dataUrlToMimeAndBase64 (js "x" ++ comma :: js "AAAA" ++ js ",b")
     = Ok {| mimeType := octet_stream; base64 := Some (js "AAAA") |}.
Proof.
  apply (@C1_decode_data_url (js "image/png") (js "AAAA") (js "x") (js ",b")).
  - repeat constructor; discriminate.
  - vm_compute. intuition discriminate.
  - vm_compute. intuition discriminate.
  - reflexivity.
  - right. exists (js "b"). reflexivity.
Defined.

(** C1 as stated fails.  The header of [x,a,b] has no [:...;] match,
    and the payload returned is [a], not [a,b] (everything after the first
    comma).  In the form [data:<mime>;base64,<payload>] too: a payload
    [AA,BB] comes back as [AA]; a MIME part [text/plain;charset=utf-8]
    comes back as [text/plain]; and a MIME part with a line feed in it is
    not found at all. *)
Lemma C1_counterexample :
  (match_colon_group_semicolon (js "x") = None
   /\ dataUrlToMimeAndBase64 (js "x,a,b")
      = Ok {| mimeType := octet_stream; base64 := Some (js "a") |}
   /\ js "a" <> js "a,b")
  /\ (dataUrlToMimeAndBase64 (js "data:" ++ js "image/png" ++ js ";base64," ++ js "AA,BB")
      = Ok {| mimeType := js "image/png"; base64 := Some (js "AA") |}
      /\ js "AA" <> js "AA,BB")
  /\ (dataUrlToMimeAndBase64
        (js "data:" ++ js "text/plain;charset=utf-8" ++ js ";base64," ++ js "AAAA")
      = Ok {| mimeType := js "text/plain"; base64 := Some (js "AAAA") |}
      /\ js "text/plain" <> js "text/plain;charset=utf-8")
  /\ (dataUrlToMimeAndBase64 (js "data:" ++ [97; 10; 98]%N ++ js ";base64," ++ js "AAAA")
      = Ok {| mimeType := octet_stream; base64 := Some (js "AAAA") |}
      /\ octet_stream <> [97; 10; 98]%N).
Proof.
  repeat split; try reflexivity; vm_compute; discriminate.
Qed.

Section DecoderMatch.

(** The code units that [.] takes. *)
Lemma not_line_terminator c :
  is_line_terminator c = false
  <-> (c <> 10 /\ c <> 13 /\ c <> 8232 /\ c <> 8233)%N.
Proof.
  unfold is_line_terminator.
  destruct (N.eqb_spec c 10); destruct (N.eqb_spec c 13);
    destruct (N.eqb_spec c 8232); destruct (N.eqb_spec c 8233);
    cbn; split; intros H; try discriminate; try tauto; auto.
Qed.

(** [(.*?);] at the head of [s] gives the text before the first
    semicolon, and that text is all [.] . *)
Lemma lazy_dots_sound s g :
  lazy_dots_then_semicolon s = Some g ->
  (exists rest, s = g ++ semicolon :: rest)
  /\ Forall (fun c => is_line_terminator c = false) g
  /\ ~ In semicolon g.
Proof.
  revert g. induction s as [|c s IH]; simpl; intros g H; [discriminate|].
  destruct (N.eqb_spec c semicolon) as [->|Hne].
  - inversion H; subst. split; [exists s; reflexivity|]. split; [constructor | auto].
  - destruct (is_line_terminator c) eqn:Hlt; [discriminate|].
    destruct (lazy_dots_then_semicolon s) as [g'|]; [|discriminate].
    inversion H; subst. destruct (IH g' eq_refl) as ([rest ->] & H2 & H3).
    split; [exists rest; reflexivity|]. split; [constructor; assumption|].
    simpl. intuition.
Qed.

(** It fails only when no prefix of [s] made of [.] is followed by a
    semicolon. *)
Lemma lazy_dots_complete s g rest :
  lazy_dots_then_semicolon s = None ->
  s = g ++ semicolon :: rest ->
  ~ Forall (fun c => is_line_terminator c = false) g.
Proof.
  revert g. induction s as [|c s IH]; simpl; intros g Hnone Hs Hg.
  - destruct g; discriminate.
  - destruct g as [|c' g].
    + inversion Hs; subst. rewrite N.eqb_refl in Hnone. discriminate.
    + inversion Hs; subst c'. inversion Hg as [|? ? Hc Hg']; subst.
      destruct (c =? semicolon)%N; [discriminate|].
      rewrite Hc in Hnone.
      destruct (lazy_dots_then_semicolon (g ++ semicolon :: rest)) eqn:Hl;
        [discriminate|].
      exact (IH g eq_refl eq_refl Hg').
Qed.

(** No match means that the pattern matches nowhere. *)
Lemma match_complete s pre g rest :
  match_colon_group_semicolon s = None ->
  s = pre ++ colon :: g ++ semicolon :: rest ->
  ~ Forall (fun c => is_line_terminator c = false) g.
Proof.
  revert pre. induction s as [|c s IH]; simpl; intros pre Hnone Hs.
  - destruct pre; discriminate.
  - destruct pre as [|c' pre].
    + inversion Hs; subst. rewrite N.eqb_refl in Hnone.
      destruct (lazy_dots_then_semicolon (g ++ semicolon :: rest)) eqn:Hl;
        [discriminate|].
      exact (lazy_dots_complete _ Hl eq_refl).
    + inversion Hs; subst c'. apply (IH pre); [|assumption].
      destruct (c =? colon)%N; [|exact Hnone].
      destruct (lazy_dots_then_semicolon s); [discriminate | exact Hnone].
Qed.

(** A match is a match of the pattern, its group stops at the first
    semicolon, and no match of the pattern starts further left. *)
Lemma match_sound s g :
  match_colon_group_semicolon s = Some g ->
  exists pre,
    (exists rest, s = pre ++ colon :: g ++ semicolon :: rest)
    /\ Forall (fun c => is_line_terminator c = false) g
    /\ ~ In semicolon g
    /\ forall pre' g' rest',
         s = pre' ++ colon :: g' ++ semicolon :: rest' ->
         Forall (fun c => is_line_terminator c = false) g' ->
         (List.length pre <= List.length pre')%nat.
Proof.
  induction s as [|c s IH]; simpl; intros H; [discriminate|].
  assert (Hlater :
            match_colon_group_semicolon s = Some g ->
            (forall g' rest', c = colon -> s = g' ++ semicolon :: rest' ->
                              ~ Forall (fun c => is_line_terminator c = false) g') ->
            exists pre,
              (exists rest, c :: s = pre ++ colon :: g ++ semicolon :: rest)
              /\ Forall (fun c => is_line_terminator c = false) g
              /\ ~ In semicolon g
              /\ forall pre' g' rest',
                   c :: s = pre' ++ colon :: g' ++ semicolon :: rest' ->
                   Forall (fun c => is_line_terminator c = false) g' ->
                   (List.length pre <= List.length pre')%nat).
  { intros Hm Hhere. destruct (IH Hm) as (pre & [rest Hs] & Hg & Hsemi & Hleft).
    exists (c :: pre). split; [exists rest; rewrite Hs at 1; reflexivity|].
    split; [exact Hg|]. split; [exact Hsemi|].
    intros [|c' pre'] g' rest' Hs' Hg'; simpl in Hs'; injection Hs' as Hc Htail.
    - exfalso. exact (Hhere g' rest' Hc Htail Hg').
    - simpl. apply le_n_S. exact (Hleft pre' g' rest' Htail Hg'). }
  destruct (N.eqb_spec c colon) as [->|Hne].
  - destruct (lazy_dots_then_semicolon s) as [g0|] eqn:Hl.
    + inversion H; subst g0.
      destruct (lazy_dots_sound _ Hl) as ([rest ->] & Hg & Hsemi).
      exists []. split; [exists rest; reflexivity|].
      split; [exact Hg|]. split; [exact Hsemi|].
      intros pre' g' rest' _ _. simpl. apply Nat.le_0_l.
    + apply Hlater; [exact H|].
      intros g' rest' _ Hs'. exact (lazy_dots_complete _ Hl Hs').
  - apply Hlater; [exact H|]. intros g' rest' Hc. contradiction.
Qed.

(** Two ways of cutting a string at a code unit that the first parts
    do not hold are the same. *)
Lemma cut_at_first (x : N) g rest g0 rest0 :
  g ++ x :: rest = g0 ++ x :: rest0 ->
  ~ In x g -> ~ In x g0 -> g = g0.
Proof.
  revert g0. induction g as [|c g IH]; intros [|c0 g0] Heq Hg Hg0.
  - reflexivity.
  - exfalso. injection Heq as Hc _. apply Hg0. left. symmetry. exact Hc.
  - exfalso. injection Heq as Hc _. apply Hg. left. exact Hc.
  - injection Heq as Hc Htail. subst c0. f_equal.
    apply (IH g0 Htail); intros Hin; [apply Hg | apply Hg0]; right; exact Hin.
Qed.

(** The group of a match that starts no later than the first colon and
    stops at the first semicolon is the text between the two. *)
Lemma leftmost_group_unique s pre g rest pre0 g0 rest0 :
  s = pre ++ [58%N] ++ g ++ [59%N] ++ rest ->
  ~ In 59%N g ->
  s = pre0 ++ [58%N] ++ g0 ++ [59%N] ++ rest0 ->
  ~ In 58%N pre0 ->
  ~ In 59%N g0 ->
  (List.length pre <= List.length pre0)%nat ->
  g = g0.
Proof.
  intros -> Hg. revert pre0.
  induction pre as [|c pre IH]; intros [|c0 pre0] Heq Hpre0 Hg0 Hlen.
  - cbn in Heq. injection Heq as Heq. exact (@cut_at_first _ _ _ _ _ Heq Hg Hg0).
  - exfalso. cbn in Heq. injection Heq as Hc _. apply Hpre0. left. symmetry. exact Hc.
  - cbn in Hlen. lia.
  - cbn in Heq. injection Heq as Hc Htail.
    apply (IH pre0 Htail).
    + intros Hin. apply Hpre0. right. exact Hin.
    + exact Hg0.
    + cbn in Hlen. lia.
Qed.

End DecoderMatch.

(** C9.  On a string without comma the decoder returns (it does not
    throw); the payload is [undefined], which is neither the input nor the
    empty string; the MIME type is taken from the whole input: it is the
    group of the leftmost match of [:(.*?);] (a colon, then characters
    other than line terminators up to the first semicolon), or
    ['application/octet-stream'] when the pattern matches nowhere. *)
Theorem C9_decode_without_comma :
  forall dataUrl,
    ~ In 44%N dataUrl ->
    exists r,
      dataUrlToMimeAndBase64 dataUrl = Ok r
      /\ base64 r = None
      /\ base64 r <> Some dataUrl
      /\ base64 r <> Some []
      /\ let dots g :=
           Forall (fun c => c <> 10 /\ c <> 13 /\ c <> 8232 /\ c <> 8233)%N g in
         let found pre g :=
           exists rest, dataUrl = pre ++ [58%N] ++ g ++ [59%N] ++ rest /\ dots g in
         (exists pre g,
            found pre g
            /\ ~ In 59%N g
            /\ (forall pre' g', found pre' g' -> (List.length pre <= List.length pre')%nat)
            /\ mimeType r = g)
         \/ ((forall pre g, ~ found pre g)
             /\ mimeType r = js "application/octet-stream").
Proof.
  intros dataUrl H. unfold dataUrlToMimeAndBase64.
  rewrite String_split_no_sep by exact H. cbn [nth_error].
  eexists. split; [reflexivity|]. cbn [base64 mimeType].
  split; [reflexivity|]. split; [discriminate|]. split; [discriminate|].
  cbv zeta.
  assert (Hdots : forall g,
             Forall (fun c => c <> 10 /\ c <> 13 /\ c <> 8232 /\ c <> 8233)%N g
             <-> Forall (fun c => is_line_terminator c = false) g).
  { intros g. split; intros Hg; (eapply Forall_impl; [|exact Hg]);
      intros c Hc; apply not_line_terminator; exact Hc. }
  destruct (match_colon_group_semicolon dataUrl) as [g|] eqn:Hm; cbn [nullish].
  - left. destruct (match_sound _ Hm) as (pre & [rest Hs] & Hg & Hsemi & Hleft).
    exists pre, g. split; [exists rest; split; [exact Hs | apply Hdots; exact Hg]|].
    split; [exact Hsemi|]. split; [|reflexivity].
    intros pre' g' [rest' [Hs' Hg']]. apply (Hleft pre' g' rest' Hs').
    apply Hdots. exact Hg'.
  - right. split; [|reflexivity].
    intros pre g [rest [Hs Hg]].
    apply (match_complete _ _ Hm Hs). apply Hdots. exact Hg.
Qed.

(** C9 at [data:image/png;base64]: the payload is [undefined] and the
    MIME type is [image/png]. *)
Lemma C9_decode_without_comma_witness :
  exists r,
    dataUrlToMimeAndBase64 (js "data:image/png;base64") = Ok r
    /\ base64 r = None
    /\ base64 r <> Some (js "data:image/png;base64")
    /\ base64 r <> Some []
    /\ mimeType r = js "image/png"
    /\ r = {| mimeType := js "image/png"; base64 := None |}.
Proof.
  destruct (@C9_decode_without_comma (js "data:image/png;base64"))
    as (r & Hr & Hb & Hi & He & Hm).
  - vm_compute. intuition discriminate.
  - exists r. do 4 (split; [assumption|]).
    split; [|vm_compute in Hr; inversion Hr; reflexivity].
    cbv zeta in Hm.
    assert (Hfound :
              exists rest,
                js "data:image/png;base64"
                = js "data" ++ [58%N] ++ js "image/png" ++ [59%N] ++ rest
                /\ Forall (fun c => c <> 10 /\ c <> 13 /\ c <> 8232 /\ c <> 8233)%N
                     (js "image/png")).
    { exists (js "base64"). split; [reflexivity|].
      repeat (constructor; [repeat split; discriminate|]). constructor. }
    destruct Hm as [(pre & g & [rest [Hs Hd]] & Hsemi & Hleft & ->) | [Hnone _]].
    + apply (@leftmost_group_unique _ pre g rest (js "data") (js "image/png")
               (js "base64") Hs Hsemi eq_refl).
      * vm_compute. intuition discriminate.
      * vm_compute. intuition discriminate.
      * apply (Hleft (js "data") (js "image/png")). exact Hfound.
    + exfalso. exact (Hnone _ _ Hfound).
Defined.

(** Without a colon the default comes back. *)
Example decode_of_a_file_name :
  dataUrlToMimeAndBase64 (js "image.png")
  = Ok {| mimeType := js "application/octet-stream"; base64 := None |}.
Proof. reflexivity. Qed.

(* ================================================================== *)
(** * Every run has one of the listed shapes *)
(* ================================================================== *)

Section Shapes.

Context {W : Type} (host : Host.t W).

Lemma decoder_returns dataUrl : exists r, dataUrlToMimeAndBase64 dataUrl = Ok r.
Proof.
  unfold dataUrlToMimeAndBase64.
  pose proof (String_split_nonempty comma dataUrl) as H.
  destruct (String_split comma dataUrl) as [|header parts]; [contradiction|].
  cbn. eexists. reflexivity.
Qed.

Lemma while_not_done_shape fuel :
  forall ai onProgress pollCount operation w o w' l,
    while_not_done host fuel ai onProgress pollCount operation w = (o, w', l) ->
    Polling ai pollCount operation o l.
Proof.
  induction fuel as [|fuel IH]; intros ai onProgress pollCount operation w o w' l H;
    simpl in H; destruct (GenAI.done operation) eqn:Hdone;
    try (inversion H; subst; now constructor).
  unfold bind, call_onProgress, sleep, getVideosOperation, interact in H.
  destruct (onProgress (msg_check (S pollCount)) w) as [[[]|e] w1].
  2:{ inversion H; subst. now constructor. }
  destruct (operations_getVideosOperation host ai operation
              (setTimeout host polling_interval w1)) as [[next|e] w2].
  2:{ inversion H; subst. now constructor. }
  destruct (while_not_done host fuel ai onProgress (S pollCount) next w2)
    as [[o1 w3] l1] eqn:Hloop.
  apply IH in Hloop.
  destruct o1; inversion H; subst; now apply Polling_cycle.
Qed.

Lemma finishing_shape operation onProgress w o w' l :
  (call_onProgress onProgress msg_complete ;;
   if negb (truthy (downloadLink_of operation)) then throw no_download_link
   else
     key <- read_API_KEY host ;;
     videoResponse <- do_fetch host
       (template (downloadLink_of operation) ++ js "&key=" ++ template key) ;;
     if negb (GenAI.ok videoResponse) then
       throw (failed_to_download (GenAI.statusText videoResponse))
     else
       videoBlob <- settle (GenAI.blob videoResponse) ;;
       createObjectURL host videoBlob) w = (o, w', l) ->
  Finishing operation o l.
Proof.
  unfold bind, call_onProgress, read_API_KEY, do_fetch, createObjectURL,
    interact, throw.
  intros H.
  destruct (onProgress msg_complete w) as [[[]|e] w1].
  2:{ inversion H; subst. constructor. }
  destruct (truthy (downloadLink_of operation)) eqn:Hlink; cbn [negb] in H.
  2:{ inversion H; subst. now constructor. }
  fold (download_url operation (process_env_API_KEY host w1)) in H.
  destruct (fetch host (download_url operation (process_env_API_KEY host w1)) w1)
    as [[r|e] w2].
  2:{ inversion H; subst. now constructor. }
  destruct (GenAI.ok r) eqn:Hok; cbn [negb] in H.
  2:{ inversion H; subst. now constructor. }
  destruct (GenAI.blob r) as [b|e] eqn:Hblob; cbn in H.
  2:{ inversion H; subst. now apply Finishing_blob_threw. }
  destruct (URL_createObjectURL host b w2) as [url w3].
  inversion H; subst. now apply Finishing_returned.
Qed.

(** Every run of [generateVideo] has one of the shapes of [Generating]. *)
Lemma generateVideo_shape prompt imageDataUrl aspectRatio onProgress fuel w o w' l :
  generateVideo host prompt imageDataUrl aspectRatio onProgress fuel w = (o, w', l) ->
  exists r,
    dataUrlToMimeAndBase64 imageDataUrl = Ok r
    /\ Generating (process_env_API_KEY host w) (submitted prompt aspectRatio r) o l.
Proof.
  destruct (decoder_returns imageDataUrl) as [r Hr].
  intros H. exists r. split; [assumption|].
  unfold generateVideo in H. rewrite Hr in H. cbv zeta in H.
  set (key := process_env_API_KEY host w) in *.
  unfold bind at 1 in H. unfold read_API_KEY at 1 in H. fold key in H.
  unfold bind at 1 in H. cbn [settle ret] in H.
  fold (submitted prompt aspectRatio r) in H.
  set (params := submitted prompt aspectRatio r) in *.
  unfold bind at 1 in H. unfold call_onProgress at 1, interact at 1 in H.
  destruct (onProgress msg_sending w) as [[[]|e] w1].
  2:{ inversion H; subst. constructor. }
  unfold bind at 1 in H. unfold generateVideos, interact at 1 in H.
  destruct (models_generateVideos host {| GenAI.apiKey := key |} params w1)
    as [[operation|e] w2].
  2:{ inversion H; subst. constructor. }
  unfold bind at 1 in H. unfold call_onProgress at 1, interact at 1 in H.
  destruct (onProgress msg_warming_up w2) as [[[]|e] w3].
  2:{ inversion H; subst. constructor. }
  unfold bind at 1 in H.
  destruct (while_not_done host fuel {| GenAI.apiKey := key |} onProgress 0
              operation w3) as [[o1 w4] l1] eqn:Hloop.
  apply while_not_done_shape in Hloop.
  destruct o1 as [final|e|].
  - lazymatch type of H with
    | context [bind ?m ?k w4] =>
        destruct (bind m k w4) as [[o2 w5] l2] eqn:Hfin
    end.
    apply finishing_shape in Hfin.
    inversion H; subst.
    eapply Generating_finishing; eassumption.
  - inversion H; subst. now apply Generating_polling_threw.
  - inversion H; subst. now apply Generating_still_polling.
Qed.

End Shapes.

(* ================================================================== *)
(** * The fuel only cuts a run short *)
(* ================================================================== *)

Section Fuel.

Context {W : Type} (host : Host.t W).

(** A loop that ended keeps its result when given more fuel. *)
Lemma while_not_done_more_fuel fuel :
  forall ai onProgress pollCount operation w o w' l fuel',
    while_not_done host fuel ai onProgress pollCount operation w = (o, w', l) ->
    o <> StillPolling ->
    (fuel <= fuel')%nat ->
    while_not_done host fuel' ai onProgress pollCount operation w = (o, w', l).
Proof.
  induction fuel as [|fuel IH];
    intros ai onProgress pollCount operation w o w' l fuel' H Ho Hle.
  - destruct fuel'; simpl in *; destruct (GenAI.done operation);
      try exact H; inversion H; subst; contradiction.
  - destruct fuel' as [|fuel']; [lia|].
    simpl in *. destruct (GenAI.done operation); [exact H|].
    unfold bind, call_onProgress, sleep, getVideosOperation, interact in *.
    destruct (onProgress (msg_check (S pollCount)) w) as [[[]|e] w1]; [|exact H].
    destruct (operations_getVideosOperation host ai operation
                (setTimeout host polling_interval w1)) as [[next|e] w2]; [|exact H].
    destruct (while_not_done host fuel ai onProgress (S pollCount) next w2)
      as [[o1 w3] l1] eqn:Hloop.
    assert (Ho1 : o1 <> StillPolling).
    { intros ->. inversion H; subst. contradiction. }
    rewrite (IH _ _ _ _ _ _ _ _ fuel' Hloop Ho1) by lia. exact H.
Qed.

(** A loop cut short has polled as many times as it had fuel. *)
Lemma while_not_done_cut fuel :
  forall ai onProgress pollCount operation w w' l,
    while_not_done host fuel ai onProgress pollCount operation w
    = (StillPolling, w', l) ->
    List.length (polled l) = fuel.
Proof.
  induction fuel as [|fuel IH]; intros ai onProgress pollCount operation w w' l H;
    simpl in H; destruct (GenAI.done operation); try discriminate.
  - inversion H; subst. reflexivity.
  - unfold bind, call_onProgress, sleep, getVideosOperation, interact in H.
    destruct (onProgress (msg_check (S pollCount)) w) as [[[]|e] w1]; [|discriminate].
    destruct (operations_getVideosOperation host ai operation
                (setTimeout host polling_interval w1)) as [[next|e] w2]; [|discriminate].
    destruct (while_not_done host fuel ai onProgress (S pollCount) next w2)
      as [[o1 w3] l1] eqn:Hloop.
    destruct o1; inversion H; subst.
    apply IH in Hloop. cbn. rewrite Hloop. reflexivity.
Qed.

(** The steps of [generateVideo] up to the loop, in a hypothesis or in
    the goal. *)
Ltac up_to_the_loop onProgress w finish :=
  unfold generateVideo in *;
  match goal with
  | |- context [dataUrlToMimeAndBase64 ?u] =>
      let r := fresh "r" in
      let Hr := fresh "Hr" in
      destruct (decoder_returns u) as [r Hr]; rewrite Hr in *
  end;
  cbv zeta in *;
  unfold bind, read_API_KEY, call_onProgress, generateVideos, interact in *;
  cbn [settle ret] in *;
  destruct (onProgress msg_sending w) as [[[]|?] ?]; [|finish];
  match goal with
  | |- context [models_generateVideos host ?a ?p ?w1] =>
      destruct (models_generateVideos host a p w1) as [[?|?] ?]; [|finish]
  end;
  match goal with
  | |- context [onProgress msg_warming_up ?w2] =>
      destruct (onProgress msg_warming_up w2) as [[[]|?] ?]; [|finish]
  end.

(** A run that ended keeps its result when given more fuel. *)
Lemma generateVideo_more_fuel prompt imageDataUrl aspectRatio onProgress w o w' l :
  forall fuel fuel',
    generateVideo host prompt imageDataUrl aspectRatio onProgress fuel w = (o, w', l) ->
    o <> StillPolling ->
    (fuel <= fuel')%nat ->
    generateVideo host prompt imageDataUrl aspectRatio onProgress fuel' w = (o, w', l).
Proof.
  intros fuel fuel' H Ho Hle. revert H.
  up_to_the_loop onProgress w ltac:(exact (fun H => H)).
  match goal with
  | |- context [while_not_done host fuel ?ai onProgress 0 ?op ?w3] =>
      destruct (while_not_done host fuel ai onProgress 0 op w3)
        as [[o1 w4] l1] eqn:Hloop
  end.
  destruct o1 as [final|e|].
  - rewrite (while_not_done_more_fuel _ _ _ _ _ Hloop) by (discriminate || lia).
    exact (fun H => H).
  - rewrite (while_not_done_more_fuel _ _ _ _ _ Hloop) by (discriminate || lia).
    exact (fun H => H).
  - intros H. inversion H; subst. contradiction.
Qed.

(** A run cut short has polled as many times as it had fuel: with
    [fuel] above the number of Pending answers of the service, the run is
    followed to its end. *)
Lemma generateVideo_cut prompt imageDataUrl aspectRatio onProgress fuel w w' l :
  generateVideo host prompt imageDataUrl aspectRatio onProgress fuel w
  = (StillPolling, w', l) ->
  List.length (polled l) = fuel.
Proof.
  intros H. revert H.
  up_to_the_loop onProgress w ltac:(discriminate).
  match goal with
  | |- context [while_not_done host fuel ?ai onProgress 0 ?op ?w3] =>
      destruct (while_not_done host fuel ai onProgress 0 op w3)
        as [[o1 w4] l1] eqn:Hloop
  end.
  destruct o1 as [final|e|].
  - unfold do_fetch, createObjectURL, interact, throw.
    destruct (onProgress msg_complete w4) as [[[]|?] ?]; [|discriminate].
    destruct (negb (truthy (downloadLink_of final))); [discriminate|].
    match goal with
    | |- context [fetch host ?u ?w5] =>
        destruct (fetch host u w5) as [[response|?] ?]; [|discriminate]
    end.
    destruct (negb (GenAI.ok response)); [discriminate|].
    destruct (GenAI.blob response); cbn; [|discriminate].
    match goal with
    | |- context [URL_createObjectURL host ?b ?w6] =>
        destruct (URL_createObjectURL host b w6)
    end.
    discriminate.
  - discriminate.
  - intros H. inversion H; subst.
    apply while_not_done_cut in Hloop. cbn. exact Hloop.
Qed.

End Fuel.

(* ================================================================== *)
(** * What each shape lets one observe *)
(* ================================================================== *)

Section Observations.

Ltac by_cases_on_events l1 IH :=
  induction l1 as [|e l1 IH]; [reflexivity|];
  destruct e; simpl;
  repeat match goal with
         | |- context [match ?r with Ok _ => _ | Throw _ => _ end] => destruct r
         end;
  rewrite ?IH; try reflexivity.

Lemma progress_messages_app l1 l2 :
  progress_messages (l1 ++ l2) = progress_messages l1 ++ progress_messages l2.
Proof. by_cases_on_events l1 IH. Qed.

Lemma timeouts_app l1 l2 : timeouts (l1 ++ l2) = timeouts l1 ++ timeouts l2.
Proof. by_cases_on_events l1 IH. Qed.

Lemma polled_app l1 l2 : polled (l1 ++ l2) = polled l1 ++ polled l2.
Proof. by_cases_on_events l1 IH. Qed.

Lemma answers_app l1 l2 : answers (l1 ++ l2) = answers l1 ++ answers l2.
Proof. by_cases_on_events l1 IH. Qed.

Lemma submissions_app l1 l2 :
  submissions (l1 ++ l2) = submissions l1 ++ submissions l2.
Proof. by_cases_on_events l1 IH. Qed.

Lemma clients_app l1 l2 : clients (l1 ++ l2) = clients l1 ++ clients l2.
Proof. by_cases_on_events l1 IH. Qed.

Lemma fetches_app l1 l2 : fetches (l1 ++ l2) = fetches l1 ++ fetches l2.
Proof. by_cases_on_events l1 IH. Qed.

Lemma object_urls_app l1 l2 :
  object_urls (l1 ++ l2) = object_urls l1 ++ object_urls l2.
Proof. by_cases_on_events l1 IH. Qed.

Lemma callbacks_returned_app l1 l2 :
  callbacks_returned (l1 ++ l2) = callbacks_returned l1 && callbacks_returned l2.
Proof. by_cases_on_events l1 IH. Qed.

Lemma downloads_succeeded_app l1 l2 :
  downloads_succeeded (l1 ++ l2) = downloads_succeeded l1 && downloads_succeeded l2.
Proof.
  induction l1 as [|e l1 IH]; [reflexivity|].
  destruct e; simpl; try assumption.
  destruct r; [|reflexivity]. rewrite IH, andb_assoc. reflexivity.
Qed.

Variable ai : GenAI.GoogleGenAI.

Lemma cycles_cons pollCount operation next rest :
  cycles ai pollCount (operation :: next :: rest)
  = [ EvProgress (msg_check (S pollCount)) (Ok tt);
      EvSetTimeout polling_interval;
      EvGetVideosOperation ai operation (Ok next) ]
    ++ cycles ai (S pollCount) (next :: rest).
Proof. reflexivity. Qed.

(** The loop neither submits nor downloads, and polls through [ai]. *)
Lemma Polling_elsewhere pollCount operation o l :
  Polling ai pollCount operation o l ->
  submissions l = [] /\ fetches l = [] /\ object_urls l = []
  /\ Forall (eq ai) (clients l).
Proof.
  induction 1 as [| | | | k op next o l Hd _ (Hs & Hf & Hu & Hc)]; simpl; auto.
Qed.

(** A descriptor that is done on entry ends the loop at once. *)
Lemma Polling_done_on_entry pollCount operation o l :
  Polling ai pollCount operation o l ->
  GenAI.done operation = true ->
  o = Returned operation /\ l = [].
Proof. destruct 1; intros Hd; try congruence. auto. Qed.

(** A loop that returns went through Pending descriptors only, one
    cycle each, and returns the first one that is done. *)
Lemma Polling_returned pollCount operation final l :
  Polling ai pollCount operation (Returned final) l ->
  exists pending,
    operation :: answers l = pending ++ [final]
    /\ Forall (fun a => GenAI.done a = false) pending
    /\ GenAI.done final = true
    /\ l = cycles ai pollCount (pending ++ [final])
    /\ polled l = pending
    /\ progress_messages l
       = List.map msg_check (seq (S pollCount) (List.length pending))
    /\ timeouts l = repeat polling_interval (List.length pending)
    /\ callbacks_returned l = true.
Proof.
  intros H. remember (Returned final) as o eqn:Ho.
  induction H as [k op Hd | | | | k op next o l Hd H IH]; try discriminate.
  - inversion Ho; subst. exists []. cbn. auto 10.
  - destruct (IH Ho) as (pending & Ha & Hp & Hf & Hl & Hpo & Hm & Ht & Hc).
    exists (op :: pending).
    assert (Hcycles : cycles ai k ((op :: pending) ++ [final])
                      = [ EvProgress (msg_check (S k)) (Ok tt);
                          EvSetTimeout polling_interval;
                          EvGetVideosOperation ai op (Ok next) ] ++ l).
    { rewrite <- app_comm_cons, <- Ha, cycles_cons, Ha, <- Hl. reflexivity. }
    rewrite Hcycles.
    change (answers ([ EvProgress (msg_check (S k)) (Ok tt);
                       EvSetTimeout polling_interval;
                       EvGetVideosOperation ai op (Ok next) ] ++ l))
      with (next :: answers l).
    change (polled ([ EvProgress (msg_check (S k)) (Ok tt);
                      EvSetTimeout polling_interval;
                      EvGetVideosOperation ai op (Ok next) ] ++ l))
      with (op :: polled l).
    change (progress_messages ([ EvProgress (msg_check (S k)) (Ok tt);
                                 EvSetTimeout polling_interval;
                                 EvGetVideosOperation ai op (Ok next) ] ++ l))
      with (msg_check (S k) :: progress_messages l).
    change (timeouts ([ EvProgress (msg_check (S k)) (Ok tt);
                        EvSetTimeout polling_interval;
                        EvGetVideosOperation ai op (Ok next) ] ++ l))
      with (polling_interval :: timeouts l).
    change (callbacks_returned ([ EvProgress (msg_check (S k)) (Ok tt);
                                  EvSetTimeout polling_interval;
                                  EvGetVideosOperation ai op (Ok next) ] ++ l))
      with (callbacks_returned l).
    rewrite Ha, Hpo, Hm, Ht, Hc.
    repeat split; auto.
Qed.

(** A loop that does not return has seen no descriptor that is done. *)
Lemma Polling_not_returned pollCount operation o l :
  Polling ai pollCount operation o l ->
  (forall final, o <> Returned final) ->
  Forall (fun a => GenAI.done a = false) (operation :: answers l).
Proof.
  induction 1 as [k op Hd | | | | k op next o l Hd H IH]; intros Ho; simpl; auto.
  exfalso. eapply Ho; reflexivity.
Qed.

(** The loop returns the first descriptor that is done. *)
Lemma Polling_done_answer pollCount operation o l a :
  Polling ai pollCount operation o l ->
  In a (operation :: answers l) ->
  GenAI.done a = true ->
  o = Returned a.
Proof.
  intros H Hin Hd.
  assert (Hnot : forall xs, Forall (fun a => GenAI.done a = false) xs -> ~ In a xs).
  { intros xs Hxs Hx. rewrite Forall_forall in Hxs. apply Hxs in Hx. congruence. }
  destruct o as [final| |].
  - destruct (Polling_returned H) as (pending & Ha & Hp & _).
    rewrite Ha in Hin. apply in_app_or in Hin.
    destruct Hin as [Hin | [-> | []]]; [|reflexivity].
    exfalso. exact (Hnot _ Hp Hin).
  - exfalso. refine (Hnot _ (Polling_not_returned H _) Hin). discriminate.
  - exfalso. refine (Hnot _ (Polling_not_returned H _) Hin). discriminate.
Qed.

(** After the loop there is one progress message, no delay and no
    call of the service. *)
Lemma Finishing_elsewhere operation o l :
  Finishing operation o l ->
  progress_messages l = [msg_complete] /\ timeouts l = [] /\ polled l = []
  /\ answers l = [] /\ submissions l = [] /\ clients l = [].
Proof. destruct 1; cbn; auto 10. Qed.

End Observations.

Section Opening.

Variables (key : option jsstring) (params : GenAI.GenerateVideosParameters)
          (operation : GenAI.GenerateVideosOperation).

Lemma opening_progress :
  progress_messages (opening key params operation)
  = [msg_sending; msg_warming_up].
Proof. reflexivity. Qed.

Lemma opening_timeouts : timeouts (opening key params operation) = [].
Proof. reflexivity. Qed.

Lemma opening_polled : polled (opening key params operation) = [].
Proof. reflexivity. Qed.

Lemma opening_answers : answers (opening key params operation) = [operation].
Proof. reflexivity. Qed.

Lemma opening_submissions :
  submissions (opening key params operation)
  = [(params, Ok operation)].
Proof. reflexivity. Qed.

Lemma opening_clients :
  clients (opening key params operation)
  = [ {| GenAI.apiKey := key |} ].
Proof. reflexivity. Qed.

Lemma opening_fetches : fetches (opening key params operation) = [].
Proof. reflexivity. Qed.

Lemma opening_object_urls : object_urls (opening key params operation) = [].
Proof. reflexivity. Qed.

Lemma opening_callbacks :
  callbacks_returned (opening key params operation)
  = true.
Proof. reflexivity. Qed.

Lemma opening_downloads :
  downloads_succeeded (opening key params operation)
  = true.
Proof. reflexivity. Qed.

End Opening.

Create Rewrite HintDb observe.
#[local] Hint Rewrite
  progress_messages_app timeouts_app polled_app answers_app submissions_app
  clients_app fetches_app object_urls_app callbacks_returned_app
  downloads_succeeded_app
  opening_progress opening_timeouts opening_polled opening_answers
  opening_submissions opening_clients opening_fetches opening_object_urls
  opening_callbacks opening_downloads : observe.

(** From a run to its shape. *)
Ltac shape_of Hrun r Hr Hshape :=
  destruct (generateVideo_shape _ _ _ _ _ _ _ Hrun) as (r & Hr & Hshape).

(* ================================================================== *)
(** * Auxiliary facts *)
(* ================================================================== *)

Lemma truthy_Some s :
  truthy s = true -> exists link, s = Some link /\ link <> [].
Proof.
  destruct s as [[|c link]|]; try discriminate.
  intros _. exists (c :: link). split; [reflexivity | discriminate].
Qed.

(** One call: the key is read first, from the world the call starts in,
    and every request to the service goes through a client built on it. *)
Lemma generateVideo_reads_key (W : Type) (host : Host.t W)
    prompt imageDataUrl aspectRatio onProgress fuel w o w' log :
  generateVideo host prompt imageDataUrl aspectRatio onProgress fuel w
  = (o, w', log) ->
  hd_error log = Some (EvApiKey (process_env_API_KEY host w))
  /\ Forall (fun ai => GenAI.apiKey ai = process_env_API_KEY host w) (clients log).
Proof.
  intros Hrun. shape_of Hrun r Hr Hshape.
  assert (Hpoll : forall op o l,
             Polling {| GenAI.apiKey := process_env_API_KEY host w |} 0 op o l ->
             Forall (fun ai => GenAI.apiKey ai = process_env_API_KEY host w) (clients l)).
  { intros op o1 l Hp. destruct (Polling_elsewhere Hp) as (_ & _ & _ & Hc).
    eapply Forall_impl; [|exact Hc]. intros ai <-. reflexivity. }
  destruct Hshape as [e | e | op0 e | op0 e l Hp | op0 l Hp | op0 final l o l' Hp Hf];
    (split; [reflexivity|]); autorewrite with observe; cbn;
    repeat (constructor; [reflexivity|]); eauto.
  destruct (Finishing_elsewhere Hf) as (_ & _ & _ & _ & _ & ->).
  rewrite app_nil_r. eauto.
Qed.

Lemma jsstring_eqb_refl s : jsstring_eqb s s = true.
Proof.
  unfold jsstring_eqb. destruct (list_eq_dec N.eq_dec s s); [reflexivity|contradiction].
Qed.

(* ================================================================== *)
(** * The properties of [generateVideo] *)
(* ================================================================== *)

(** C2 (as amended).  In the scenario (prompt "A dog running on a
    beach", seed image [data:image/png;base64,AAAA], ratio 16:9, a
    service that is done at once with the URI [https://example/video123],
    an asset host that serves bytes 1, 2, 3 at that URI followed by
    [&key=<cred>]), the call returns an object URL behind which are the
    bytes 1, 2, 3, and the progress callback is called three times: with
    the message of the request being sent, with the message that follows
    the submission, and with the message of the download. *)
Theorem C2_scenario :
  forall cred fuel,
    let run := Scenario.run cred Scenario.done_operation (Some cred) 0 fuel in
    exists handle,
      fst (fst run) = Returned handle
      /\ Scenario.lookup handle (snd (fst run)) = Some [1; 2; 3]%N
      /\ object_urls (snd run) = [([1; 2; 3]%N, handle)]
      /\ fetches (snd run)
         = [(js "https://example/video123" ++ js "&key=" ++ cred, Ok Scenario.ok_response)]
      /\ progress_messages (snd run)
         = [ js "Sending request to the AI...";
             js "AI is warming up its creative engines...";
             js "Video generation complete! Downloading..." ].
Proof.
  intros cred fuel run.
  assert (Hrun : run
                 = (Returned (js "blob:0"),
                    {| Scenario.env_API_KEY := Some cred;
                       Scenario.pending_left := 0;
                       Scenario.registry := [(js "blob:0", [1; 2; 3]%N)] |},
                    opening (Some cred)
                      (submitted (js "A dog running on a beach") GenAI.Ratio_16_9
                         {| mimeType := js "image/png"; base64 := Some (js "AAAA") |})
                      Scenario.done_operation
                    ++ [ EvProgress msg_complete (Ok tt);
                         EvApiKey (Some cred);
                         EvFetch (Scenario.video_uri ++ js "&key=" ++ cred)
                           (Ok Scenario.ok_response);
                         EvCreateObjectURL [1; 2; 3]%N (js "blob:0") ])).
  { subst run. unfold Scenario.run, generateVideo.
    change (dataUrlToMimeAndBase64 (js "data:image/png;base64,AAAA"))
      with (Ok {| mimeType := js "image/png"; base64 := Some (js "AAAA") |}).
    destruct fuel;
      unfold bind, read_API_KEY, call_onProgress, generateVideos, do_fetch,
        createObjectURL, interact, settle, ret, throw;
      cbn -[jsstring_eqb]; rewrite jsstring_eqb_refl; reflexivity. }
  rewrite Hrun. exists (js "blob:0"). repeat split; reflexivity.
Qed.

(** C2 as stated fails: in the scenario the progress callback is called
    three times, not twice. *)
Lemma C2_counterexample :
  let run := Scenario.run (js "<cred>") Scenario.done_operation (Some (js "<cred>")) 0 0 in
  fst (fst run) = Returned (js "blob:0")
  /\ progress_messages (snd run)
     = [ js "Sending request to the AI...";
         js "AI is warming up its creative engines...";
         js "Video generation complete! Downloading..." ]
  /\ List.length (progress_messages (snd run)) <> 2%nat.
Proof.
  cbv zeta. split; [reflexivity|]. split; [reflexivity|]. vm_compute. discriminate.
Qed.

Section ReturningCallback.

Context {W : Type} (host : Host.t W).
Variable onProgress : jsstring -> W -> result unit * W.
Hypothesis callback_returns : forall msg w, fst (onProgress msg w) = Ok tt.

Lemma call_onProgress_returns msg w :
  exists w1, call_onProgress onProgress msg w = (Returned tt, w1, [EvProgress msg (Ok tt)]).
Proof.
  unfold call_onProgress, interact.
  pose proof (callback_returns msg w) as H.
  destruct (onProgress msg w) as [r w1]. cbn in H. subst r. eauto.
Qed.

Lemma while_not_done_callbacks fuel :
  forall ai pollCount operation w o w' l,
    while_not_done host fuel ai onProgress pollCount operation w = (o, w', l) ->
    callbacks_returned l = true.
Proof.
  induction fuel as [|fuel IH]; intros ai pollCount operation w o w' l H;
    simpl in H; destruct (GenAI.done operation);
    try (inversion H; subst; reflexivity).
  unfold bind in H.
  destruct (call_onProgress_returns (msg_check (S pollCount)) w) as [w1 Hc].
  rewrite Hc in H. unfold sleep, getVideosOperation, interact in H.
  destruct (operations_getVideosOperation host ai operation
              (setTimeout host polling_interval w1)) as [[next|e] w2].
  2:{ inversion H; subst. reflexivity. }
  destruct (while_not_done host fuel ai onProgress (S pollCount) next w2)
    as [[o1 w3] l1] eqn:Hloop.
  apply IH in Hloop.
  destruct o1; inversion H; subst; cbn; exact Hloop.
Qed.

(** With a callback that returns, no callback event of a run is a throw. *)
Lemma generateVideo_callbacks prompt imageDataUrl aspectRatio fuel w o w' l :
  generateVideo host prompt imageDataUrl aspectRatio onProgress fuel w = (o, w', l) ->
  callbacks_returned l = true.
Proof.
  intros H. unfold generateVideo in H.
  destruct (decoder_returns imageDataUrl) as [r Hr]. rewrite Hr in H. cbv zeta in H.
  unfold bind at 1 in H. unfold read_API_KEY at 1 in H.
  unfold bind at 1 in H. cbn [settle ret] in H.
  unfold bind at 1 in H.
  destruct (call_onProgress_returns msg_sending w) as [w1 Hc1]. rewrite Hc1 in H.
  unfold bind at 1 in H. unfold generateVideos, interact at 1 in H.
  match type of H with
  | context [models_generateVideos host ?ai ?p w1] =>
      destruct (models_generateVideos host ai p w1) as [[operation|e] w2]
  end.
  2:{ inversion H; subst. reflexivity. }
  unfold bind at 1 in H.
  destruct (call_onProgress_returns msg_warming_up w2) as [w3 Hc3]. rewrite Hc3 in H.
  unfold bind at 1 in H.
  match type of H with
  | context [while_not_done host fuel ?ai onProgress 0 operation w3] =>
      destruct (while_not_done host fuel ai onProgress 0 operation w3)
        as [[o1 w4] l1] eqn:Hloop
  end.
  apply while_not_done_callbacks in Hloop.
  destruct o1 as [final|e|].
  - unfold bind at 1 in H.
    destruct (call_onProgress_returns msg_complete w4) as [w5 Hc5]. rewrite Hc5 in H.
    unfold bind, read_API_KEY, do_fetch, createObjectURL, interact, throw in H.
    assert (Hdone : forall rest,
               callbacks_returned rest = true ->
               callbacks_returned (l1 ++ EvProgress msg_complete (Ok tt) :: rest) = true).
    { intros rest Hrest. rewrite callbacks_returned_app, Hloop. exact Hrest. }
    destruct (negb (truthy (downloadLink_of final))).
    { inversion H; subst. cbn. apply Hdone. reflexivity. }
    match type of H with
    | context [fetch host ?u w5] => destruct (fetch host u w5) as [[response|e] w6]
    end.
    2:{ inversion H; subst. cbn. apply Hdone. reflexivity. }
    destruct (negb (GenAI.ok response)).
    { inversion H; subst. cbn. apply Hdone. reflexivity. }
    destruct (GenAI.blob response) as [blob|e]; cbn [settle ret] in H.
    2:{ inversion H; subst. cbn. apply Hdone. reflexivity. }
    destruct (URL_createObjectURL host blob w6) as [url w7].
    inversion H; subst. cbn. apply Hdone. reflexivity.
  - inversion H; subst. cbn. exact Hloop.
  - inversion H; subst. cbn. exact Hloop.
Qed.

End ReturningCallback.

Section Traces.

(** A log with no callback event that is a throw. *)
Lemma no_throwing_callback log :
  (forall msg e, ~ In (EvProgress msg (Throw e)) log) ->
  callbacks_returned log = true.
Proof.
  induction log as [|ev log IH]; intros H; [reflexivity|].
  assert (Hrest : callbacks_returned log = true).
  { apply IH. intros msg e Hin. apply (H msg e). right. exact Hin. }
  destruct ev as [| msg [[]|e] | | | | | | | |]; cbn; try exact Hrest.
  exfalso. apply (H msg e). left. reflexivity.
Qed.

(** A log whose fetches all came back with a success status and a
    readable body. *)
Lemma successful_downloads log :
  (forall url r, In (EvFetch url r) log ->
     exists response blob,
       r = Ok response /\ GenAI.ok response = true /\ GenAI.blob response = Ok blob) ->
  downloads_succeeded log = true.
Proof.
  induction log as [|ev log IH]; intros H; [reflexivity|].
  assert (Hrest : downloads_succeeded log = true).
  { apply IH. intros url r Hin. apply (H url r). right. exact Hin. }
  destruct ev as [| | | | | url r | | | |]; cbn; try exact Hrest.
  destruct (H url r (or_introl eq_refl)) as (response & blob & -> & Hok & Hblob).
  rewrite Hok, Hblob, Hrest. reflexivity.
Qed.

Lemma In_fetches url r log : In (EvFetch url r) log -> In (url, r) (fetches log).
Proof.
  induction log as [|ev log IH]; intros H; [contradiction|].
  destruct H as [-> | H]; [left; reflexivity|].
  destruct ev; cbn; auto.
Qed.

Lemma In_object_urls blob url log :
  In (EvCreateObjectURL blob url) log -> In (blob, url) (object_urls log).
Proof.
  induction log as [|ev log IH]; intros H; [contradiction|].
  destruct H as [-> | H]; [left; reflexivity|].
  destruct ev; cbn; auto.
Qed.

End Traces.

Section Returning.

Context {W : Type} (host : Host.t W).

(** What is behind a run that returns: the host was asked for the
    video and served it, the host made an object URL for its blob, and
    the run returns that URL, in the world the host left. *)
Lemma generateVideo_returned prompt imageDataUrl aspectRatio onProgress fuel w
    handle w' log :
  generateVideo host prompt imageDataUrl aspectRatio onProgress fuel w
  = (Returned handle, w', log) ->
  exists url response blob w1 w2,
    fetch host url w1 = (Ok response, w2)
    /\ GenAI.ok response = true
    /\ GenAI.blob response = Ok blob
    /\ URL_createObjectURL host blob w2 = (handle, w')
    /\ In (EvFetch url (Ok response)) log
    /\ In (EvCreateObjectURL blob handle) log.
Proof.
  intros H. unfold generateVideo in H.
  destruct (decoder_returns imageDataUrl) as [r Hr]. rewrite Hr in H. cbv zeta in H.
  unfold bind at 1 in H. unfold read_API_KEY at 1 in H.
  unfold bind at 1 in H. cbn [settle ret] in H.
  unfold bind at 1 in H. unfold call_onProgress at 1, interact at 1 in H.
  destruct (onProgress msg_sending w) as [[[]|e] w1]; [|discriminate H].
  unfold bind at 1 in H. unfold generateVideos, interact at 1 in H.
  match type of H with
  | context [models_generateVideos host ?ai ?p w1] =>
      destruct (models_generateVideos host ai p w1) as [[operation|e] w2];
      [|discriminate H]
  end.
  unfold bind at 1 in H. unfold call_onProgress at 1, interact at 1 in H.
  destruct (onProgress msg_warming_up w2) as [[[]|e] w3]; [|discriminate H].
  unfold bind at 1 in H.
  match type of H with
  | context [while_not_done host fuel ?ai onProgress 0 operation w3] =>
      destruct (while_not_done host fuel ai onProgress 0 operation w3)
        as [[[final|e|] w4] l1]; [|discriminate H|discriminate H]
  end.
  unfold bind, call_onProgress, read_API_KEY, do_fetch, createObjectURL,
    interact, throw in H.
  destruct (onProgress msg_complete w4) as [[[]|e] w5]; [|discriminate H].
  destruct (negb (truthy (downloadLink_of final))); [discriminate H|].
  match type of H with
  | context [fetch host ?u w5] =>
      destruct (fetch host u w5) as [[response|e] w6] eqn:Hfetch; [|discriminate H];
      exists u, response
  end.
  destruct (GenAI.ok response) eqn:Hok; cbn [negb] in H; [|discriminate H].
  destruct (GenAI.blob response) as [blob|e] eqn:Hblob; cbn [settle ret] in H;
    [|discriminate H].
  destruct (URL_createObjectURL host blob w6) as [url w7] eqn:Hurl.
  inversion H; subst. exists blob, w5, w6.
  split; [exact Hfetch|]. split; [reflexivity|]. split; [reflexivity|].
  split; [exact Hurl|].
  split; repeat first [rewrite in_app_iff | progress cbn [In app]]; tauto.
Qed.

End Returning.

(** The shape of a run whose submission was answered Done. *)
Lemma done_at_once_trace :
  forall (W : Type) (host : Host.t W) prompt imageDataUrl aspectRatio onProgress
         fuel w o w' log params operation,
    generateVideo host prompt imageDataUrl aspectRatio onProgress fuel w
    = (o, w', log) ->
    In (params, Ok operation) (submissions log) ->
    GenAI.done operation = true ->
    timeouts log = []
    /\ polled log = []
    /\ (callbacks_returned log = true ->
        truthy (downloadLink_of operation) = true ->
        downloads_succeeded log = true ->
        exists handle url response blob,
          o = Returned handle
          /\ fetches log = [(url, Ok response)]
          /\ GenAI.blob response = Ok blob
          /\ object_urls log = [(blob, handle)]).
Proof.
  intros W host prompt imageDataUrl aspectRatio onProgress fuel w o w' log
         params operation Hrun Hin Hdone.
  shape_of Hrun r Hr Hshape.
  destruct Hshape as [e | e | op0 e | op0 e l Hp | op0 l Hp | op0 final l o l' Hp Hf].
  - cbn in Hin. contradiction.
  - cbn in Hin. destruct Hin as [Heq | []]. discriminate.
  - cbn. repeat split. discriminate.
  - destruct (Polling_elsewhere Hp) as (Hs & _).
    autorewrite with observe in Hin. rewrite Hs in Hin.
    destruct Hin as [Heq | []]. inversion Heq; subst.
    destruct (Polling_done_on_entry Hp Hdone). discriminate.
  - destruct (Polling_elsewhere Hp) as (Hs & _).
    autorewrite with observe in Hin. rewrite Hs in Hin.
    destruct Hin as [Heq | []]. inversion Heq; subst.
    destruct (Polling_done_on_entry Hp Hdone). discriminate.
  - destruct (Polling_elsewhere Hp) as (Hs & _).
    destruct (Finishing_elsewhere Hf) as (_ & Ht & Hpo & _ & Hs' & _).
    autorewrite with observe in Hin |- *. rewrite Hs, Hs' in Hin.
    destruct Hin as [Heq | []]. inversion Heq; subst.
    destruct (Polling_done_on_entry Hp Hdone) as [Hfinal ->].
    inversion Hfinal; subst. rewrite Ht, Hpo.
    repeat split.
    intros Hcb Hlink Hdl. cbn in Hcb, Hdl |- *.
    destruct Hf as [e | Hno | key e | key response Hl Hok
                   | key response e Hl Hok Hblob
                   | key response blob url Hl Hok Hblob];
      cbn in Hcb, Hdl; try discriminate; try congruence.
    + rewrite Hok in Hdl. discriminate.
    + rewrite Hok, Hblob in Hdl. discriminate.
    + exists url, (download_url operation key), response, blob.
      cbn. auto.
Qed.


(** C3 (as amended).  When the submission was answered with a
    descriptor that is already done, no delay is awaited and the service
    is not polled, whatever the callback does.  If moreover no call of
    the progress callback threw, the descriptor has a download link that
    is not empty and the download succeeded, then the host was asked for
    the video and served it with a success status and a readable body,
    the host made an object URL for that blob, and the call returns this
    object URL, in the world the host left. *)
Theorem C3_done_at_once :
  forall (W : Type) (host : Host.t W) prompt imageDataUrl aspectRatio onProgress
         fuel w o w' log params operation,
    generateVideo host prompt imageDataUrl aspectRatio onProgress fuel w
    = (o, w', log) ->
    In (params, Ok operation) (submissions log) ->
    GenAI.done operation = true ->
    timeouts log = []
    /\ polled log = []
    /\ ((forall msg e, ~ In (EvProgress msg (Throw e)) log) ->
        (exists link, downloadLink_of operation = Some link /\ link <> []) ->
        (forall url r, In (EvFetch url r) log ->
           exists response blob,
             r = Ok response /\ GenAI.ok response = true
             /\ GenAI.blob response = Ok blob) ->
        exists handle url response blob w1 w2,
          o = Returned handle
          /\ fetch host url w1 = (Ok response, w2)
          /\ GenAI.ok response = true
          /\ GenAI.blob response = Ok blob
          /\ URL_createObjectURL host blob w2 = (handle, w')
          /\ fetches log = [(url, Ok response)]
          /\ object_urls log = [(blob, handle)]).
Proof.
  intros W host prompt imageDataUrl aspectRatio onProgress fuel w o w' log
         params operation Hrun Hin Hdone.
  destruct (@done_at_once_trace _ _ _ _ _ _ _ _ _ _ _ _ _ Hrun Hin Hdone)
    as (Ht & Hp & Hreturns).
  split; [exact Ht|]. split; [exact Hp|].
  intros Hcb (link & Hlink & Hne) Hdl.
  destruct Hreturns as (handle & url0 & response0 & blob0 & -> & Hf & _ & Hu).
  - apply no_throwing_callback. exact Hcb.
  - rewrite Hlink. destruct link; [contradiction | reflexivity].
  - apply successful_downloads. exact Hdl.
  - destruct (@generateVideo_returned _ _ _ _ _ _ _ _ _ _ _ Hrun)
      as (url & response & blob & w1 & w2 & Hfetch & Hok & Hblob & Hurl & Hinf & Hinu).
    apply In_fetches in Hinf. apply In_object_urls in Hinu.
    rewrite Hf in Hinf. rewrite Hu in Hinu.
    destruct Hinf as [Heqf | []]. destruct Hinu as [Hequ | []].
    exists handle, url, response, blob, w1, w2.
    rewrite Hf, Hu, Heqf, Hequ. auto 10.
Qed.

(** C3 on the scenario of the design document: the call returns
    [blob:0], behind which the registry holds the bytes 1, 2, 3. *)
Lemma C3_done_at_once_witness :
  let host := Scenario.host (js "cred") Scenario.done_operation in
  let run := Scenario.run (js "cred") Scenario.done_operation (Some (js "cred")) 0 0 in
  timeouts (snd run) = []
  /\ polled (snd run) = []
  /\ (exists handle url response blob w1 w2,
        fst (fst run) = Returned handle
        /\ fetch host url w1 = (Ok response, w2)
        /\ GenAI.ok response = true
        /\ GenAI.blob response = Ok blob
        /\ URL_createObjectURL host blob w2 = (handle, snd (fst run))
        /\ fetches (snd run) = [(url, Ok response)]
        /\ object_urls (snd run) = [(blob, handle)])
  /\ fst (fst run) = Returned (js "blob:0")
  /\ Scenario.lookup (js "blob:0") (snd (fst run)) = Some [1; 2; 3]%N.
Proof.
  cbv zeta.
  destruct (@C3_done_at_once _
              (Scenario.host (js "cred") Scenario.done_operation)
              (js "A dog running on a beach") (js "data:image/png;base64,AAAA")
              GenAI.Ratio_16_9 Scenario.onProgress 0
              (Scenario.start (Some (js "cred")) 0) _ _ _
              (submitted (js "A dog running on a beach") GenAI.Ratio_16_9
                 {| mimeType := js "image/png"; base64 := Some (js "AAAA") |})
              Scenario.done_operation eq_refl (or_introl eq_refl) eq_refl)
    as (Ht & Hp & Hreturns).
  split; [exact Ht|]. split; [exact Hp|]. split; [|split; reflexivity].
  apply Hreturns.
  - intros msg e Hin. vm_compute in Hin. intuition discriminate.
  - exists (js "https://example/video123"). split; [reflexivity | discriminate].
  - intros url r Hin. vm_compute in Hin.
    destruct Hin as [H|[H|[H|[H|[H|[H|[H|[H|[]]]]]]]]]; try discriminate H.
    inversion H; subst. exists Scenario.ok_response, [1; 2; 3]%N.
    repeat split; reflexivity.
Defined.

(** C3 as stated fails: the submission is answered Done, with a
    download link, and the host would serve the video at any URL, yet the
    call returns no handle, because the progress callback throws on the
    message that precedes the download. *)
Lemma C3_counterexample :
  let host := Script.host (Ok Scenario.done_operation) (Ok Scenario.done_operation)
                (Ok Scenario.ok_response) in
  let run := Script.run host
               (Script.throws_on (js "Video generation complete! Downloading...")
                  (Error (js "Quota exceeded"))) 0 in
  List.map snd (submissions (snd run)) = [Ok Scenario.done_operation]
  /\ GenAI.done Scenario.done_operation = true
  /\ downloadLink_of Scenario.done_operation = Some (js "https://example/video123")
  /\ (forall url w, fetch host url w = (Ok Scenario.ok_response, w))
  /\ GenAI.ok Scenario.ok_response = true
  /\ GenAI.blob Scenario.ok_response = Ok [1; 2; 3]%N
  /\ fst (fst run) = Threw (Error (js "Quota exceeded"))
  /\ fetches (snd run) = []
  /\ object_urls (snd run) = [].
Proof.
  cbv zeta. repeat split.
Qed.

(** The shape of a run whose service answered Pending, then Done. *)
Lemma poll_cycles_trace :
  forall (W : Type) (host : Host.t W) prompt imageDataUrl aspectRatio onProgress
         fuel w o w' log pending final,
    generateVideo host prompt imageDataUrl aspectRatio onProgress fuel w
    = (o, w', log) ->
    callbacks_returned log = true ->
    answers log = pending ++ [final] ->
    GenAI.done final = true ->
    let N := List.length pending in
    (o <> StillPolling
     /\ forall fuel', (fuel <= fuel')%nat ->
          generateVideo host prompt imageDataUrl aspectRatio onProgress fuel' w
          = (o, w', log))
    /\ Forall (fun a => GenAI.done a = false) pending
    /\ progress_messages log
       = [msg_sending; msg_warming_up]
         ++ List.map msg_check (seq 1 N) ++ [msg_complete]
    /\ timeouts log = repeat 10000%N N
    /\ polled log = pending
    /\ exists ai before after,
         log = before ++ cycles ai 0 (pending ++ [final]) ++ after
         /\ timeouts before = [] /\ polled before = []
         /\ timeouts after = [] /\ polled after = [].
Proof.
  intros W host prompt imageDataUrl aspectRatio onProgress fuel w o w' log
         pending final Hrun Hcb Hans Hdone N.
  assert (Hin : In final (pending ++ [final])) by (apply in_or_app; right; left; reflexivity).
  shape_of Hrun r Hr Hshape.
  destruct Hshape as [e | e | op0 e | op0 e l Hp | op0 l Hp | op0 final' l o l' Hp Hf];
    try (cbn in Hans; rewrite <- Hans in Hin; contradiction);
    try (cbn in Hcb; discriminate).
  - autorewrite with observe in Hans. rewrite <- Hans in Hin.
    pose proof (Polling_done_answer Hp Hin Hdone). discriminate.
  - autorewrite with observe in Hans. rewrite <- Hans in Hin.
    pose proof (Polling_done_answer Hp Hin Hdone). discriminate.
  - destruct (Polling_returned Hp) as (pending' & Ha & Hpend & _ & Hl & Hpo & Hm & Ht & _).
    destruct (Finishing_elsewhere Hf) as (Hm' & Ht' & Hpo' & Ha' & _).
    autorewrite with observe in Hans |- *.
    rewrite Ha', app_nil_r in Hans.
    change ([op0] ++ answers l) with (op0 :: answers l) in Hans.
    rewrite Ha in Hans. apply app_inj_tail in Hans. destruct Hans as [-> ->].
    rewrite Hm, Hm', Ht, Ht', Hpo, Hpo', !app_nil_r. fold N.
    assert (Ho : o <> StillPolling) by (destruct Hf; discriminate).
    repeat split; auto.
    + intros fuel' Hle. exact (generateVideo_more_fuel _ _ _ _ _ _ Hrun Ho Hle).
    + exists {| GenAI.apiKey := process_env_API_KEY host w |},
        (opening (process_env_API_KEY host w) (submitted prompt aspectRatio r) op0), l'.
      rewrite <- Hl. auto.
Qed.


Section PendingJob.

Context {W : Type} (host : Host.t W) (left : W -> nat).
Variable onProgress : jsstring -> W -> result unit * W.

(** The callback returns, and neither it nor the timer changes how
    many answers the job still needs. *)
Hypothesis callback_returns :
  forall msg w,
    fst (onProgress msg w) = Ok tt /\ left (snd (onProgress msg w)) = left w.
Hypothesis timer_keeps : forall ms w, left (setTimeout host ms w) = left w.

(** The service answers Done when no answer is left, Pending
    otherwise, and every answer takes one off. *)
Hypothesis submission_answers :
  forall ai params w,
    exists operation,
      fst (models_generateVideos host ai params w) = Ok operation
      /\ GenAI.done operation = (left w =? 0)%nat
      /\ left (snd (models_generateVideos host ai params w)) = pred (left w).
Hypothesis poll_answers :
  forall ai handed w,
    exists operation,
      fst (operations_getVideosOperation host ai handed w) = Ok operation
      /\ GenAI.done operation = (left w =? 0)%nat
      /\ left (snd (operations_getVideosOperation host ai handed w)) = pred (left w).

Lemma callback_step msg w :
  exists w1, onProgress msg w = (Ok tt, w1) /\ left w1 = left w.
Proof.
  destruct (callback_returns msg w) as [H1 H2].
  destruct (onProgress msg w) as [r w1]. cbn in H1, H2. subst r. eauto.
Qed.

(** Entered with a descriptor that needs [m] more answers, the loop
    returns after [m] delays. *)
Lemma while_not_done_counts m :
  forall fuel ai pollCount operation w o w' l,
    (m <= fuel)%nat ->
    GenAI.done operation = (m =? 0)%nat ->
    left w = pred m ->
    while_not_done host fuel ai onProgress pollCount operation w = (o, w', l) ->
    (exists final, o = Returned final) /\ List.length (timeouts l) = m.
Proof.
  induction m as [|m IH]; intros fuel ai pollCount operation w o w' l Hle Hd Hw H.
  - cbn in Hd. destruct fuel; simpl in H; rewrite Hd in H;
      inversion H; subst; split; eauto.
  - cbn in Hd, Hw. destruct fuel as [|fuel]; [lia|].
    simpl in H. rewrite Hd in H.
    unfold bind, call_onProgress, sleep, getVideosOperation, interact in H.
    destruct (callback_step (msg_check (S pollCount)) w) as (w1 & Hc & Hw1).
    rewrite Hc in H.
    destruct (poll_answers ai operation (setTimeout host polling_interval w1))
      as (next & Hn & Hdn & Hw2).
    destruct (operations_getVideosOperation host ai operation
                (setTimeout host polling_interval w1)) as [r w2].
    cbn in Hn, Hw2. subst r.
    rewrite timer_keeps, Hw1, Hw in Hdn, Hw2.
    destruct (while_not_done host fuel ai onProgress (S pollCount) next w2)
      as [[o1 w3] l1] eqn:Hloop.
    destruct (IH _ _ _ _ _ _ _ _ (le_S_n _ _ Hle) Hdn Hw2 Hloop) as ([final ->] & Hlen).
    inversion H; subst. split; [eauto|]. cbn. rewrite Hlen. reflexivity.
Qed.

(** A call that starts when the job needs [left w] more answers is
    over once it has been followed for that many iterations, and the
    service has answered Pending [left w] times and then Done. *)
Lemma generateVideo_counts prompt imageDataUrl aspectRatio fuel w o w' log :
  (left w <= fuel)%nat ->
  generateVideo host prompt imageDataUrl aspectRatio onProgress fuel w = (o, w', log) ->
  o <> StillPolling
  /\ exists pending final,
       answers log = pending ++ [final]
       /\ GenAI.done final = true
       /\ List.length pending = left w.
Proof.
  intros Hle H. unfold generateVideo in H.
  destruct (decoder_returns imageDataUrl) as [r Hr]. rewrite Hr in H. cbv zeta in H.
  unfold bind at 1 in H. unfold read_API_KEY at 1 in H.
  unfold bind at 1 in H. cbn [settle ret] in H.
  unfold bind at 1 in H. unfold call_onProgress at 1, interact at 1 in H.
  destruct (callback_step msg_sending w) as (w1 & Hc1 & Hw1). rewrite Hc1 in H.
  unfold bind at 1 in H. unfold generateVideos, interact at 1 in H.
  match type of H with
  | context [models_generateVideos host ?ai ?p w1] =>
      destruct (submission_answers ai p w1) as (operation & Hs & Hd & Hw2);
      destruct (models_generateVideos host ai p w1) as [r2 w2]
  end.
  cbn in Hs, Hw2. subst r2. rewrite Hw1 in Hd, Hw2.
  unfold bind at 1 in H. unfold call_onProgress at 1, interact at 1 in H.
  destruct (callback_step msg_warming_up w2) as (w3 & Hc3 & Hw3). rewrite Hc3 in H.
  rewrite Hw2 in Hw3.
  unfold bind at 1 in H.
  match type of H with
  | context [while_not_done host fuel ?ai onProgress 0 operation w3] =>
      destruct (while_not_done host fuel ai onProgress 0 operation w3)
        as [[o1 w4] l1] eqn:Hloop
  end.
  destruct (@while_not_done_counts _ _ _ _ _ _ _ _ _ Hle Hd Hw3 Hloop)
    as ([final ->] & Hlen).
  apply while_not_done_shape in Hloop.
  destruct (Polling_returned Hloop) as (pending & Ha & _ & Hdone & _ & _ & _ & Ht & _).
  lazymatch type of H with
  | context [bind ?m ?k w4] =>
      destruct (bind m k w4) as [[o2 w5] l2] eqn:Hfin
  end.
  apply finishing_shape in Hfin.
  destruct (Finishing_elsewhere Hfin) as (_ & _ & _ & Ha2 & _).
  inversion H; subst. split; [destruct Hfin; discriminate|].
  exists pending, final.
  rewrite Ht, repeat_length in Hlen.
  split; [|split; [exact Hdone | exact Hlen]].
  repeat first [rewrite answers_app | progress cbn [answers app]].
  rewrite Ha2, app_nil_r. exact Ha.
Qed.

End PendingJob.

(** C4 (as amended).  Take a service in which a job needs a number of
    status answers, [left], before it is done: it answers Pending while
    [left] is not 0 and Done when it is, each answer taking one off;
    and a progress callback that returns, which like the timer leaves
    [left] alone.  A call made when [left] is [N], followed for at least
    [N] iterations, is over, and the same for any such number of
    iterations.  The service answered Pending [N] times (to the
    submission and to the polls after it) and then Done.  The callback
    received, between the two fixed messages before and the one after,
    ['Video generation in progress... (check #1)'] to ['... (check
    #N)'] in this order; the delay of 10000 ms was awaited [N] times;
    each poll handed back the descriptor received last; and the log holds
    the [N] cycles message, delay, poll one after the other, with no
    delay and no poll outside them. *)
Theorem C4_poll_cycles :
  forall (W : Type) (host : Host.t W) (left : W -> nat)
         prompt imageDataUrl aspectRatio onProgress fuel w o w' log,
    (forall msg w,
        fst (onProgress msg w) = Ok tt /\ left (snd (onProgress msg w)) = left w) ->
    (forall ms w, left (setTimeout host ms w) = left w) ->
    (forall ai params w,
        exists operation,
          fst (models_generateVideos host ai params w) = Ok operation
          /\ GenAI.done operation = (left w =? 0)%nat
          /\ left (snd (models_generateVideos host ai params w)) = pred (left w)) ->
    (forall ai handed w,
        exists operation,
          fst (operations_getVideosOperation host ai handed w) = Ok operation
          /\ GenAI.done operation = (left w =? 0)%nat
          /\ left (snd (operations_getVideosOperation host ai handed w))
             = pred (left w)) ->
    (left w <= fuel)%nat ->
    generateVideo host prompt imageDataUrl aspectRatio onProgress fuel w
    = (o, w', log) ->
    let N := left w in
    (o <> StillPolling
     /\ forall fuel', (N <= fuel')%nat ->
          generateVideo host prompt imageDataUrl aspectRatio onProgress fuel' w
          = (o, w', log))
    /\ progress_messages log
       = [ js "Sending request to the AI...";
           js "AI is warming up its creative engines..." ]
         ++ List.map
              (fun pollCount =>
                 js "Video generation in progress... (check #"
                 ++ js (NilEmpty.string_of_uint (Nat.to_uint pollCount)) ++ js ")")
              (seq 1 N)
         ++ [ js "Video generation complete! Downloading..." ]
    /\ timeouts log = repeat 10000%N N
    /\ exists pending final,
         answers log = pending ++ [final]
         /\ List.length pending = N
         /\ Forall (fun a => GenAI.done a = false) pending
         /\ GenAI.done final = true
         /\ polled log = pending
         /\ exists ai before after,
              log = before ++ cycles ai 0 (pending ++ [final]) ++ after
              /\ timeouts before = [] /\ polled before = []
              /\ timeouts after = [] /\ polled after = [].
Proof.
  intros W host left prompt imageDataUrl aspectRatio onProgress fuel w o w' log
         Hcb Htimer Hsubmit Hpoll Hle Hrun N.
  destruct (@generateVideo_counts _ _ _ _ Hcb Htimer Hsubmit Hpoll _ _ _ _ _ _ _ _ Hle Hrun)
    as (Ho & pending & final & Hans & Hdone & Hlen).
  assert (Hret : callbacks_returned log = true).
  { eapply generateVideo_callbacks; [|exact Hrun]. intros msg w0. apply Hcb. }
  destruct (@poll_cycles_trace _ _ _ _ _ _ _ _ _ _ _ _ _ Hrun Hret Hans Hdone)
    as (_ & Hpend & Hmsg & Ht & Hpolled & Hcycles).
  fold N in Hlen. rewrite Hlen in Hmsg, Ht.
  split; [split; [exact Ho|]|].
  - intros fuel' Hle'.
    destruct (generateVideo host prompt imageDataUrl aspectRatio onProgress N w)
      as [[o0 w0] l0] eqn:Hrun0.
    destruct (@generateVideo_counts _ _ _ _ Hcb Htimer Hsubmit Hpoll _ _ _ _ _ _ _ _
                (le_n _) Hrun0)
      as (Ho0 & _).
    pose proof (generateVideo_more_fuel _ _ _ _ _ _ Hrun0 Ho0 Hle) as Hsame.
    rewrite Hrun in Hsame. rewrite Hsame.
    exact (generateVideo_more_fuel _ _ _ _ _ _ Hrun0 Ho0 Hle').
  - split; [exact Hmsg|]. split; [exact Ht|].
    exists pending, final. auto 10.
Qed.

(** C4 on a service that answers Pending three times and then Done. *)
Lemma C4_poll_cycles_witness :
  let run := Scenario.run (js "cred") Scenario.done_operation (Some (js "cred")) 3 3 in
  ((fst (fst run) <> StillPolling
    /\ forall fuel', (3 <= fuel')%nat ->
         Scenario.run (js "cred") Scenario.done_operation (Some (js "cred")) 3 fuel'
         = (fst (fst run), snd (fst run), snd run))
  /\ progress_messages (snd run)
     = [ js "Sending request to the AI...";
         js "AI is warming up its creative engines...";
         js "Video generation in progress... (check #1)";
         js "Video generation in progress... (check #2)";
         js "Video generation in progress... (check #3)";
         js "Video generation complete! Downloading..." ]
  /\ timeouts (snd run) = [10000; 10000; 10000]%N
  /\ exists pending final,
       answers (snd run) = pending ++ [final]
       /\ List.length pending = 3%nat
       /\ Forall (fun a => GenAI.done a = false) pending
       /\ GenAI.done final = true
       /\ polled (snd run) = pending
       /\ exists ai before after,
            snd run = before ++ cycles ai 0 (pending ++ [final]) ++ after
            /\ timeouts before = [] /\ polled before = []
            /\ timeouts after = [] /\ polled after = [])
  /\ fst (fst run) = Returned (js "blob:0")
  /\ snd run
     = [ EvApiKey (Some (js "cred"));
         EvProgress (js "Sending request to the AI...") (Ok tt);
         EvGenerateVideos {| GenAI.apiKey := Some (js "cred") |}
           (submitted (js "A dog running on a beach") GenAI.Ratio_16_9
              {| mimeType := js "image/png"; base64 := Some (js "AAAA") |})
           (Ok Scenario.pending_operation);
         EvProgress (js "AI is warming up its creative engines...") (Ok tt);
         EvProgress (js "Video generation in progress... (check #1)") (Ok tt);
         EvSetTimeout 10000;
         EvGetVideosOperation {| GenAI.apiKey := Some (js "cred") |}
           Scenario.pending_operation (Ok Scenario.pending_operation);
         EvProgress (js "Video generation in progress... (check #2)") (Ok tt);
         EvSetTimeout 10000;
         EvGetVideosOperation {| GenAI.apiKey := Some (js "cred") |}
           Scenario.pending_operation (Ok Scenario.pending_operation);
         EvProgress (js "Video generation in progress... (check #3)") (Ok tt);
         EvSetTimeout 10000;
         EvGetVideosOperation {| GenAI.apiKey := Some (js "cred") |}
           Scenario.pending_operation (Ok Scenario.done_operation);
         EvProgress (js "Video generation complete! Downloading...") (Ok tt);
         EvApiKey (Some (js "cred"));
         EvFetch (js "https://example/video123&key=cred") (Ok Scenario.ok_response);
         EvCreateObjectURL [1; 2; 3]%N (js "blob:0") ].
Proof.
  cbv zeta. split; [|split; reflexivity].
  apply (@C4_poll_cycles _
           (Scenario.host (js "cred") Scenario.done_operation)
           Scenario.pending_left
           (js "A dog running on a beach") (js "data:image/png;base64,AAAA")
           GenAI.Ratio_16_9 Scenario.onProgress 3
           (Scenario.start (Some (js "cred")) 3)
           (fst (fst (Scenario.run (js "cred") Scenario.done_operation
                        (Some (js "cred")) 3 3)))
           (snd (fst (Scenario.run (js "cred") Scenario.done_operation
                        (Some (js "cred")) 3 3)))
           (snd (Scenario.run (js "cred") Scenario.done_operation
                   (Some (js "cred")) 3 3))).
  - intros msg w. split; reflexivity.
  - intros ms w. reflexivity.
  - intros ai params [key [|n] registry]; eexists; repeat split; reflexivity.
  - intros ai handed [key [|n] registry]; eexists; repeat split; reflexivity.
  - cbn. lia.
  - reflexivity.
Defined.

(** C4 as stated fails: the service answers Pending twice and then
    Done, as the run with a callback that only observes shows, yet with a
    callback that throws on the first check message no delay is awaited
    and the service is not polled. *)
Lemma C4_counterexample :
  let watched := Scenario.run (js "cred") Scenario.done_operation (Some (js "cred")) 2 5 in
  let run := generateVideo (Scenario.host (js "cred") Scenario.done_operation)
               (js "A dog running on a beach") (js "data:image/png;base64,AAAA")
               GenAI.Ratio_16_9
               (Script.throws_on (js "Video generation in progress... (check #1)")
                  (Error (js "Quota exceeded")))
               5 (Scenario.start (Some (js "cred")) 2) in
  (answers (snd watched)
   = [Scenario.pending_operation; Scenario.pending_operation; Scenario.done_operation]
   /\ timeouts (snd watched) = [10000; 10000]%N)
  /\ fst (fst run) = Threw (Error (js "Quota exceeded"))
  /\ progress_messages (snd run)
     = [ js "Sending request to the AI...";
         js "AI is warming up its creative engines...";
         js "Video generation in progress... (check #1)" ]
  /\ timeouts (snd run) = []
  /\ polled (snd run) = []
  /\ timeouts (snd run) <> repeat 10000%N 2.
Proof.
  cbv zeta. repeat split. vm_compute. discriminate.
Qed.

(** C5 (as amended).  When the service has answered with a descriptor
    that is done and whose download link is absent or empty, no fetch is
    made, no object URL is created and the call throws; and when no call
    of the progress callback threw, what it throws is the error ['Video
    generation failed: No download link found.']. *)
Theorem C5_missing_download_link :
  forall (W : Type) (host : Host.t W) prompt imageDataUrl aspectRatio onProgress
         fuel w o w' log operation,
    generateVideo host prompt imageDataUrl aspectRatio onProgress fuel w
    = (o, w', log) ->
    In operation (answers log) ->
    GenAI.done operation = true ->
    downloadLink_of operation = None \/ downloadLink_of operation = Some [] ->
    fetches log = []
    /\ object_urls log = []
    /\ (exists e, o = Threw e)
    /\ ((forall msg e, ~ In (EvProgress msg (Throw e)) log) ->
        o = Threw (Error (js "Video generation failed: No download link found."))).
Proof.
  intros W host prompt imageDataUrl aspectRatio onProgress fuel w o w' log
         operation Hrun Hin Hdone Habsent.
  assert (Hlink : truthy (downloadLink_of operation) = false).
  { destruct Habsent as [-> | ->]; reflexivity. }
  shape_of Hrun r Hr Hshape.
  destruct Hshape as [e | e | op0 e | op0 e l Hp | op0 l Hp | op0 final l o l' Hp Hf];
    try (cbn in Hin; contradiction).
  - split; [reflexivity|]. split; [reflexivity|]. split; [eauto|].
    intros Hcb. exfalso. apply (Hcb msg_warming_up e).
    right. right. right. left. reflexivity.
  - autorewrite with observe in Hin.
    pose proof (Polling_done_answer Hp Hin Hdone). discriminate.
  - autorewrite with observe in Hin.
    pose proof (Polling_done_answer Hp Hin Hdone). discriminate.
  - destruct (Finishing_elsewhere Hf) as (_ & _ & _ & Ha & _).
    destruct (Polling_elsewhere Hp) as (_ & Hfl & Hul & _).
    autorewrite with observe in Hin |- *.
    rewrite Ha, app_nil_r in Hin. rewrite Hfl, Hul.
    pose proof (Polling_done_answer Hp Hin Hdone) as Hfinal.
    inversion Hfinal; subst final.
    destruct Hf; try congruence.
    + split; [reflexivity|]. split; [reflexivity|]. split; [eauto|].
      intros Hcb. exfalso. apply (Hcb msg_complete e).
      rewrite !in_app_iff. right. right. left. reflexivity.
    + split; [reflexivity|]. split; [reflexivity|]. split; [eauto|].
      intros _. reflexivity.
Qed.

(** C5 on a service that is done at once with no video generated. *)
Lemma C5_missing_download_link_witness :
  let run := Scenario.run (js "cred") Scenario.empty_operation (Some (js "cred")) 0 0 in
  fetches (snd run) = []
  /\ object_urls (snd run) = []
  /\ (exists e, fst (fst run) = Threw e)
  /\ fst (fst run)
     = Threw (Error (js "Video generation failed: No download link found."))
  /\ progress_messages (snd run)
     = [ js "Sending request to the AI...";
         js "AI is warming up its creative engines...";
         js "Video generation complete! Downloading..." ].
Proof.
  cbv zeta.
  destruct (@C5_missing_download_link _
              (Scenario.host (js "cred") Scenario.empty_operation)
              (js "A dog running on a beach") (js "data:image/png;base64,AAAA")
              GenAI.Ratio_16_9 Scenario.onProgress 0
              (Scenario.start (Some (js "cred")) 0) _ _ _
              Scenario.empty_operation eq_refl (or_introl eq_refl) eq_refl
              (or_introl eq_refl))
    as (Hf & Hu & He & Hthrows).
  split; [exact Hf|]. split; [exact Hu|]. split; [exact He|].
  split; [|reflexivity].
  apply Hthrows. intros msg e Hin. vm_compute in Hin. intuition discriminate.
Defined.

(** C5 as stated fails: the service is done at once with no video
    generated, yet the call does not fail with the missing-link error,
    because the progress callback throws on the message that precedes the
    test of the link; the call fails with what the callback threw. *)
Lemma C5_counterexample :
  let run := Script.run
               (Script.host (Ok Scenario.empty_operation) (Ok Scenario.empty_operation)
                  (Ok Scenario.ok_response))
               (Script.throws_on (js "Video generation complete! Downloading...")
                  (Error (js "Quota exceeded"))) 0 in
  answers (snd run) = [Scenario.empty_operation]
  /\ GenAI.done Scenario.empty_operation = true
  /\ downloadLink_of Scenario.empty_operation = None
  /\ fst (fst run) = Threw (Error (js "Quota exceeded"))
  /\ fst (fst run)
     <> Threw (Error (js "Video generation failed: No download link found."))
  /\ fetches (snd run) = [].
Proof.
  cbv zeta. repeat split. vm_compute. discriminate.
Qed.

(** C6.  When the fetch of the video came back with a status that is
    not a success, the call throws the error ['Failed to download video:
    <statusText>'], and no object URL is created or returned. *)
Theorem C6_download_failed :
  forall (W : Type) (host : Host.t W) prompt imageDataUrl aspectRatio onProgress
         fuel w o w' log url response,
    generateVideo host prompt imageDataUrl aspectRatio onProgress fuel w
    = (o, w', log) ->
    In (url, Ok response) (fetches log) ->
    GenAI.ok response = false ->
    o = Threw (failed_to_download (GenAI.statusText response))
    /\ object_urls log = []
    /\ (forall handle, o <> Returned handle).
Proof.
  intros W host prompt imageDataUrl aspectRatio onProgress fuel w o w' log
         url response Hrun Hin Hok.
  shape_of Hrun r Hr Hshape.
  destruct Hshape as [e | e | op0 e | op0 e l Hp | op0 l Hp | op0 final l o l' Hp Hf];
    try (cbn in Hin; contradiction).
  - destruct (Polling_elsewhere Hp) as (_ & Hfl & _).
    autorewrite with observe in Hin. rewrite Hfl in Hin. contradiction.
  - destruct (Polling_elsewhere Hp) as (_ & Hfl & _).
    autorewrite with observe in Hin. rewrite Hfl in Hin. contradiction.
  - destruct (Polling_elsewhere Hp) as (_ & Hfl & Hu & _).
    autorewrite with observe in Hin |- *. rewrite Hfl in Hin. rewrite Hu.
    destruct Hf; cbn in Hin; try contradiction;
      destruct Hin as [Heq | []]; inversion Heq; subst; try congruence.
    repeat split; try reflexivity. discriminate.
Qed.

(** C6 when the environment holds no key, so that the URL fetched is
    not the one the asset host serves. *)
Lemma C6_download_failed_witness :
  let run := Scenario.run (js "cred") Scenario.done_operation None 0 0 in
  fst (fst run) = Threw (failed_to_download (js "Not Found"))
  /\ object_urls (snd run) = []
  /\ (forall handle, fst (fst run) <> Returned handle).
Proof.
  cbv zeta.
  apply (@C6_download_failed _
           (Scenario.host (js "cred") Scenario.done_operation)
           (js "A dog running on a beach") (js "data:image/png;base64,AAAA")
           GenAI.Ratio_16_9 Scenario.onProgress 0
           (Scenario.start None 0) _
           (snd (fst (Scenario.run (js "cred") Scenario.done_operation None 0 0)))
           _ (js "https://example/video123&key=undefined")
           Scenario.not_found_response).
  - reflexivity.
  - left. reflexivity.
  - reflexivity.
Defined.

(** C7.  Of two calls, each reads [process.env.API_KEY] as its first
    step, from the world as it is when that call starts, and sends its
    requests with the value it has read itself: whatever the first call
    read has no bearing on the second. *)
Theorem C7_key_read_at_each_call :
  forall (W : Type) (host : Host.t W)
         prompt1 imageDataUrl1 aspectRatio1 onProgress1 fuel1 w1 o1 w1' log1
         prompt2 imageDataUrl2 aspectRatio2 onProgress2 fuel2 w2 o2 w2' log2,
    generateVideo host prompt1 imageDataUrl1 aspectRatio1 onProgress1 fuel1 w1
    = (o1, w1', log1) ->
    generateVideo host prompt2 imageDataUrl2 aspectRatio2 onProgress2 fuel2 w2
    = (o2, w2', log2) ->
    (hd_error log1 = Some (EvApiKey (process_env_API_KEY host w1))
     /\ Forall (fun ai => GenAI.apiKey ai = process_env_API_KEY host w1) (clients log1))
    /\ (hd_error log2 = Some (EvApiKey (process_env_API_KEY host w2))
        /\ Forall (fun ai => GenAI.apiKey ai = process_env_API_KEY host w2) (clients log2)).
Proof.
  intros. split; eapply generateVideo_reads_key; eassumption.
Qed.

(** C7 on two calls between which the key is replaced. *)
Lemma C7_key_read_at_each_call_witness :
  let host := Scenario.host (js "cred") Scenario.done_operation in
  let run1 := Scenario.run_from (js "cred") Scenario.done_operation 0
                (Scenario.start (Some (js "first key")) 0) in
  let w2 := Scenario.rotate_key (Some (js "second key")) (snd (fst run1)) in
  let run2 := Scenario.run_from (js "cred") Scenario.done_operation 0 w2 in
  (hd_error (snd run1) = Some (EvApiKey (Some (js "first key")))
   /\ Forall (fun ai => GenAI.apiKey ai = Some (js "first key")) (clients (snd run1)))
  /\ (hd_error (snd run2) = Some (EvApiKey (Some (js "second key")))
      /\ Forall (fun ai => GenAI.apiKey ai = Some (js "second key")) (clients (snd run2))).
Proof.
  cbv zeta.
  eapply (@C7_key_read_at_each_call _
           (Scenario.host (js "cred") Scenario.done_operation)
           (js "A dog running on a beach") (js "data:image/png;base64,AAAA")
           GenAI.Ratio_16_9 Scenario.onProgress 0
           (Scenario.start (Some (js "first key")) 0)
           (fst (fst (Scenario.run_from (js "cred") Scenario.done_operation 0
                        (Scenario.start (Some (js "first key")) 0))))
           (snd (fst (Scenario.run_from (js "cred") Scenario.done_operation 0
                        (Scenario.start (Some (js "first key")) 0))))
           _
           (js "A dog running on a beach") (js "data:image/png;base64,AAAA")
           GenAI.Ratio_16_9 Scenario.onProgress 0
           (Scenario.rotate_key (Some (js "second key"))
              (snd (fst (Scenario.run_from (js "cred") Scenario.done_operation 0
                           (Scenario.start (Some (js "first key")) 0)))))
           _ _ _).
  - reflexivity.
  - reflexivity.
Defined.

(** C8.  In every run that returns, exactly one fetch is made; its URL
    is the download link of the last descriptor received (which is done),
    followed by [&key=] and the value of [process.env.API_KEY] read just
    before; the fetch is given the URL alone, which makes it a GET. *)
Theorem C8_download_url :
  forall (W : Type) (host : Host.t W) prompt imageDataUrl aspectRatio onProgress
         fuel w w' log handle,
    generateVideo host prompt imageDataUrl aspectRatio onProgress fuel w
    = (Returned handle, w', log) ->
    exists earlier operation link key response blob before,
      answers log = earlier ++ [operation]
      /\ GenAI.done operation = true
      /\ downloadLink_of operation = Some link
      /\ link <> []
      /\ fetches log = [(link ++ js "&key=" ++ template key, Ok response)]
      /\ log = before ++ [ EvApiKey key;
                           EvFetch (link ++ js "&key=" ++ template key) (Ok response);
                           EvCreateObjectURL blob handle ]
      /\ GenAI.ok response = true
      /\ GenAI.blob response = Ok blob.
Proof.
  intros W host prompt imageDataUrl aspectRatio onProgress fuel w w' log handle Hrun.
  shape_of Hrun r Hr Hshape.
  inversion Hshape as [| | | | | op0 final l o l' Hp Hf]; subst.
  inversion Hf as [| | | | | key response blob url Hlink Hok Hblob]; subst.
  destruct (Polling_returned Hp) as (pending & Ha & _ & Hdone & _).
  destruct (Polling_elsewhere Hp) as (_ & Hfl & _).
  destruct (truthy_Some _ Hlink) as (link & Hsome & Hne).
  exists pending, final, link, key, response, blob.
  exists (opening (process_env_API_KEY host w) (submitted prompt aspectRatio r) op0
            ++ l ++ [EvProgress msg_complete (Ok tt)]).
  autorewrite with observe. rewrite Hfl.
  unfold download_url. rewrite Hsome. cbn [template].
  repeat split; auto.
  - cbn. rewrite app_nil_r. exact Ha.
  - rewrite <- !app_assoc. reflexivity.
Qed.

(** C8 on the scenario of the design document. *)
Lemma C8_download_url_witness :
  exists earlier operation link key response blob before,
    answers (snd (Scenario.run (js "cred") Scenario.done_operation (Some (js "cred")) 0 0))
    = earlier ++ [operation]
    /\ GenAI.done operation = true
    /\ downloadLink_of operation = Some link
    /\ link <> []
    /\ fetches (snd (Scenario.run (js "cred") Scenario.done_operation (Some (js "cred")) 0 0))
       = [(link ++ js "&key=" ++ template key, Ok response)]
    /\ snd (Scenario.run (js "cred") Scenario.done_operation (Some (js "cred")) 0 0)
       = before ++ [ EvApiKey key;
                     EvFetch (link ++ js "&key=" ++ template key) (Ok response);
                     EvCreateObjectURL blob (js "blob:0") ]
    /\ GenAI.ok response = true
    /\ GenAI.blob response = Ok blob.
Proof.
  apply (@C8_download_url _
           (Scenario.host (js "cred") Scenario.done_operation)
           (js "A dog running on a beach") (js "data:image/png;base64,AAAA")
           GenAI.Ratio_16_9 Scenario.onProgress 0
           (Scenario.start (Some (js "cred")) 0)
           (snd (fst (Scenario.run (js "cred") Scenario.done_operation
                        (Some (js "cred")) 0 0)))).
  reflexivity.
Defined.

(* ================================================================== *)
(** * The generate handler *)
(* ================================================================== *)

(** C10.  Called with no image selected, [handleGenerate] sets the
    error message ['Please upload an image to generate a video.'] and
    returns, having done nothing else; so a run of the handler in which
    [generateVideo] did anything at all had an image. *)
Theorem C10_no_image_no_generation :
  forall (W : Type) (host : Host.t W) prompt aspectRatio fuel w,
    App.handleGenerate host None prompt aspectRatio fuel w
    = (Returned tt,
       React_setState host (setError (Some (js "Please upload an image to generate a video."))) w,
       [ EvSetState (setError (Some (js "Please upload an image to generate a video."))) ])
    /\ forall image o w' log,
         App.handleGenerate host image prompt aspectRatio fuel w = (o, w', log) ->
         existsb from_generateVideo log = true ->
         exists file, image = Some file.
Proof.
  intros W host prompt aspectRatio fuel w.
  assert (Hnone : App.handleGenerate host None prompt aspectRatio fuel w
                  = (Returned tt,
                     React_setState host (setError (Some App.msg_no_image)) w,
                     [ EvSetState (setError (Some App.msg_no_image)) ]))
    by reflexivity.
  split; [exact Hnone|].
  intros [file|] o w' log Hrun Hgen.
  - exists file. reflexivity.
  - rewrite Hnone in Hrun. inversion Hrun; subst. discriminate.
Qed.

(** C10 on a run of the handler with an image: [generateVideo] is
    entered. *)
Lemma C10_no_image_no_generation_witness :
  let host := Scenario.host (js "cred") Scenario.done_operation in
  let w := Scenario.start (Some (js "cred")) 0 in
  let run := App.handleGenerate host (Some Scenario.image) [] GenAI.Ratio_16_9 0 w in
  existsb from_generateVideo (snd run) = true
  /\ exists file, Some Scenario.image = Some file.
Proof.
  cbv zeta. split; [reflexivity|].
  eapply (proj2 (@C10_no_image_no_generation _
                   (Scenario.host (js "cred") Scenario.done_operation)
                   [] GenAI.Ratio_16_9 0 (Scenario.start (Some (js "cred")) 0))
            (Some Scenario.image)).
  - reflexivity.
  - reflexivity.
Defined.

(* ================================================================== *)
(** * More on the decoder *)
(* ================================================================== *)

Section DecoderMore.

Lemma String_split_segments sep s :
  Forall (fun seg => ~ In sep seg /\ forall c, In c seg -> In c s) (String_split sep s).
Proof.
  induction s as [|c s IH]; simpl.
  - constructor; [|constructor]. split; [auto | intros ? []].
  - destruct (N.eqb_spec c sep) as [->|Hne].
    + constructor; [split; [auto | intros ? []]|].
      eapply Forall_impl; [|exact IH]. intros seg [H1 H2]. split; [exact H1|].
      intros x Hx. right. auto.
    + destruct (String_split sep s) as [|seg segs].
      { constructor; [|constructor]. split; simpl; [intuition|]. intros x [->|[]]. auto. }
      inversion IH as [|? ? [H1 H2] Hrest]; subst.
      constructor.
      * split; [simpl; intuition|].
        intros x [->|Hx]; [left; reflexivity | right; auto].
      * eapply Forall_impl; [|exact Hrest]. intros seg' [H3 H4]. split; [exact H3|].
        intros x Hx. right. auto.
Qed.

Lemma lazy_dots_group s g :
  lazy_dots_then_semicolon s = Some g ->
  ~ In semicolon g
  /\ Forall (fun c => is_line_terminator c = false) g
  /\ In semicolon s.
Proof.
  revert g. induction s as [|c s IH]; simpl; intros g H; [discriminate|].
  destruct (N.eqb_spec c semicolon) as [->|Hne].
  - inversion H; subst. repeat split; auto.
  - destruct (is_line_terminator c) eqn:Hlt; [discriminate|].
    destruct (lazy_dots_then_semicolon s) as [g'|]; [|discriminate].
    inversion H; subst. destruct (IH g' eq_refl) as (H1 & H2 & H3).
    repeat split; auto. simpl. intuition.
Qed.

Lemma match_group s g :
  match_colon_group_semicolon s = Some g ->
  ~ In semicolon g
  /\ Forall (fun c => is_line_terminator c = false) g
  /\ In colon s /\ In semicolon s.
Proof.
  induction s as [|c s IH]; simpl; intros H; [discriminate|].
  destruct (N.eqb_spec c colon) as [->|Hne].
  - destruct (lazy_dots_then_semicolon s) as [g'|] eqn:Hl.
    + inversion H; subst. destruct (lazy_dots_group _ Hl) as (H1 & H2 & H3). auto 10.
    + destruct (IH H) as (H1 & H2 & H3 & H4). auto 10.
  - destruct (IH H) as (H1 & H2 & H3 & H4). auto 10.
Qed.

Lemma match_first_colon pre g rest :
  ~ In colon pre ->
  Forall (fun c => c <> semicolon /\ is_line_terminator c = false) g ->
  match_colon_group_semicolon (pre ++ colon :: g ++ semicolon :: rest) = Some g.
Proof.
  intros Hpre Hg. induction pre as [|c pre IH]; simpl.
  - rewrite lazy_dots_clean by assumption. reflexivity.
  - destruct (N.eqb_spec c colon) as [->|_]; [exfalso; simpl in Hpre; auto|].
    apply IH. simpl in Hpre. tauto.
Qed.

End DecoderMore.

(** X1.  The decoder returns for every string; the MIME type it returns
    has no semicolon and no line terminator in it, and the payload, when
    there is one, has no comma in it. *)
Theorem decoder_invariants :
  forall dataUrl,
    exists r,
      dataUrlToMimeAndBase64 dataUrl = Ok r
      /\ ~ In semicolon (mimeType r)
      /\ Forall (fun c => is_line_terminator c = false) (mimeType r)
      /\ (forall payload, base64 r = Some payload -> ~ In comma payload).
Proof.
  intros dataUrl. unfold dataUrlToMimeAndBase64.
  pose proof (String_split_nonempty comma dataUrl) as Hne.
  pose proof (String_split_segments comma dataUrl) as Hseg.
  destruct (String_split comma dataUrl) as [|header parts]; [contradiction|].
  cbn [nth_error]. eexists. split; [reflexivity|]. cbn [mimeType base64].
  split; [|split].
  - destruct (match_colon_group_semicolon header) as [g|] eqn:Hm; cbn.
    + apply (match_group _ Hm).
    + vm_compute. intuition discriminate.
  - destruct (match_colon_group_semicolon header) as [g|] eqn:Hm; cbn.
    + apply (match_group _ Hm).
    + repeat constructor.
  - intros payload Hp. inversion Hseg as [|? ? _ Hparts]; subst.
    destruct parts as [|p parts']; [discriminate|]. cbn in Hp. inversion Hp; subst.
    inversion Hparts as [|? ? [Hc _] _]; subst. exact Hc.
Qed.

(** X2.  The MIME type is the text between the first colon of the
    header and the first semicolon after it, whatever precedes the colon
    and whatever follows the semicolon (parameters such as
    [charset=utf-8] are dropped), as long as that text has no line
    terminator. *)
Theorem decoder_mime_between_colon_and_semicolon :
  forall pre mime rest payload tail,
    ~ In colon pre ->
    Forall (fun c => c <> semicolon /\ is_line_terminator c = false) mime ->
    ~ In comma (pre ++ colon :: mime ++ semicolon :: rest) ->
    ~ In comma payload ->
    tail = [] \/ (exists more, tail = comma :: more) ->
    dataUrlToMimeAndBase64
      ((pre ++ colon :: mime ++ semicolon :: rest) ++ comma :: payload ++ tail)
    = Ok {| mimeType := mime; base64 := Some payload |}.
Proof.
  intros pre mime rest payload tail Hpre Hmime Hheader Hpayload Htail.
  rewrite decode_two_segments by assumption.
  rewrite match_first_colon by assumption. reflexivity.
Qed.

(** X2 at [data:text/plain;charset=utf-8;base64,AAAA]. *)
Lemma decoder_mime_between_colon_and_semicolon_witness :
  dataUrlToMimeAndBase64
    ((js "data" ++ colon :: js "text/plain" ++ semicolon :: js "charset=utf-8;base64")
     ++ comma :: js "AAAA" ++ [])
  = Ok {| mimeType := js "text/plain"; base64 := Some (js "AAAA") |}.
Proof.
  apply (@decoder_mime_between_colon_and_semicolon
           (js "data") (js "text/plain") (js "charset=utf-8;base64") (js "AAAA") []).
  - vm_compute. intuition discriminate.
  - repeat constructor; discriminate.
  - vm_compute. intuition discriminate.
  - vm_compute. intuition discriminate.
  - left. reflexivity.
Defined.

(** X3.  A string with no colon in it, or with no semicolon in it,
    decodes to the MIME type ['application/octet-stream']. *)
Theorem decoder_default_mime :
  forall dataUrl r,
    dataUrlToMimeAndBase64 dataUrl = Ok r ->
    ~ In colon dataUrl \/ ~ In semicolon dataUrl ->
    mimeType r = octet_stream.
Proof.
  intros dataUrl r Hr Hno. unfold dataUrlToMimeAndBase64 in Hr.
  pose proof (String_split_segments comma dataUrl) as Hseg.
  destruct (String_split comma dataUrl) as [|header parts]; [discriminate|].
  cbn [nth_error] in Hr. inversion Hr; subst. cbn [mimeType].
  inversion Hseg as [|? ? [_ Hsub] _]; subst.
  destruct (match_colon_group_semicolon header) as [g|] eqn:Hm; [|reflexivity].
  destruct (match_group _ Hm) as (_ & _ & Hc & Hs).
  exfalso. destruct Hno as [Hno | Hno]; apply Hno; auto.
Qed.

(** X3 at [image/png;base64,AAAA], which has no colon. *)
Lemma decoder_default_mime_witness :
  let r := {| mimeType := octet_stream; base64 := Some (js "AAAA") |} in
  dataUrlToMimeAndBase64 (js "image/png;base64,AAAA") = Ok r
  /\ mimeType r = octet_stream.
Proof.
  cbv zeta. split; [reflexivity|].
  apply (@decoder_default_mime (js "image/png;base64,AAAA")).
  - reflexivity.
  - left. vm_compute. intuition discriminate.
Defined.

(** X4.  Nothing after the second comma of the input reaches the
    result. *)
Theorem decoder_ignores_after_second_comma :
  forall header payload rest1 rest2,
    ~ In comma header ->
    ~ In comma payload ->
    dataUrlToMimeAndBase64 (header ++ comma :: payload ++ comma :: rest1)
    = dataUrlToMimeAndBase64 (header ++ comma :: payload ++ comma :: rest2).
Proof.
  intros header payload rest1 rest2 Hh Hp.
  rewrite !decode_two_segments by eauto. reflexivity.
Qed.

(** X4 at [x,a,b] and [x,a,c,d]. *)
Lemma decoder_ignores_after_second_comma_witness :
  dataUrlToMimeAndBase64 (js "x" ++ comma :: js "a" ++ comma :: js "b")
  = dataUrlToMimeAndBase64 (js "x" ++ comma :: js "a" ++ comma :: js "c,d").
Proof.
  apply (@decoder_ignores_after_second_comma (js "x") (js "a") (js "b") (js "c,d")).
  - vm_compute. intuition discriminate.
  - vm_compute. intuition discriminate.
Defined.

(* ================================================================== *)
(** * More on [generateVideo] *)
(* ================================================================== *)

Section PollingMore.

Variable ai : GenAI.GoogleGenAI.

Lemma poll_results_app l1 l2 :
  poll_results (l1 ++ l2) = poll_results l1 ++ poll_results l2.
Proof.
  induction l1 as [|e l1 IH]; [reflexivity|].
  destruct e; simpl; rewrite ?IH; reflexivity.
Qed.

(** In the loop: as many delays as polls, only Pending descriptors are
    handed back, and each is the one received last. *)
Lemma Polling_discipline pollCount operation o l :
  Polling ai pollCount operation o l ->
  timeouts l = repeat polling_interval (List.length (polled l))
  /\ Forall (fun a => GenAI.done a = false) (polled l)
  /\ exists rest,
       operation :: answers l = polled l ++ rest /\ (List.length rest <= 1)%nat.
Proof.
  induction 1 as [k op Hd | k op Hd | k op e Hd | k op e Hd
                 | k op next o l Hd H (Ht & Hp & rest & Ha & Hr)].
  - cbn. repeat split; auto. exists [op]. auto.
  - cbn. repeat split; auto. exists [op]. auto.
  - cbn. repeat split; auto. exists [op]. auto.
  - cbn. repeat split; auto. exists []. auto.
  - change (timeouts ([ EvProgress (msg_check (S k)) (Ok tt);
                        EvSetTimeout polling_interval;
                        EvGetVideosOperation ai op (Ok next) ] ++ l))
      with (polling_interval :: timeouts l).
    change (polled ([ EvProgress (msg_check (S k)) (Ok tt);
                      EvSetTimeout polling_interval;
                      EvGetVideosOperation ai op (Ok next) ] ++ l))
      with (op :: polled l).
    change (answers ([ EvProgress (msg_check (S k)) (Ok tt);
                       EvSetTimeout polling_interval;
                       EvGetVideosOperation ai op (Ok next) ] ++ l))
      with (next :: answers l).
    rewrite Ht, Ha. repeat split; auto.
    exists rest. auto.
Qed.

(** A callback that throws ends the loop with its error, as the last
    event. *)
Lemma Polling_callback pollCount operation o l :
  Polling ai pollCount operation o l ->
  callbacks_returned l = false ->
  exists msg e before,
    l = before ++ [EvProgress msg (Throw e)]
    /\ o = Threw e
    /\ callbacks_returned before = true.
Proof.
  induction 1 as [k op Hd | k op Hd | k op e Hd | k op e Hd
                 | k op next o l Hd H IH]; cbn; try discriminate.
  - intros _. exists (msg_check (S k)), e, []. auto.
  - intros Hc. destruct (IH Hc) as (msg & e & before & -> & -> & Hb).
    exists msg, e,
      ([ EvProgress (msg_check (S k)) (Ok tt);
         EvSetTimeout polling_interval;
         EvGetVideosOperation ai op (Ok next) ] ++ before).
    repeat split; auto.
Qed.

(** The loop's polls fail at most once, and then the loop throws. *)
Lemma Polling_poll_results pollCount operation o l :
  Polling ai pollCount operation o l ->
  forall e, In (Throw e) (poll_results l) ->
    o = Threw e
    /\ exists before operation',
         l = before ++ [EvGetVideosOperation ai operation' (Throw e)].
Proof.
  induction 1 as [k op Hd | k op Hd | k op e Hd | k op e Hd
                 | k op next o l Hd H IH]; cbn; intros e' Hin; try contradiction.
  - destruct Hin as [Heq | []]. inversion Heq; subst.
    split; [reflexivity|].
    exists [ EvProgress (msg_check (S k)) (Ok tt); EvSetTimeout polling_interval ], op.
    reflexivity.
  - destruct Hin as [Heq | Hin]; [discriminate|].
    destruct (IH _ Hin) as (-> & before & op' & ->).
    split; [reflexivity|].
    exists ([ EvProgress (msg_check (S k)) (Ok tt);
              EvSetTimeout polling_interval;
              EvGetVideosOperation ai op (Ok next) ] ++ before), op'.
    reflexivity.
Qed.

End PollingMore.

#[local] Hint Rewrite poll_results_app : observe.

(** X5.  A run submits at most once, fetches at most once and creates at
    most one object URL (nothing is retried); and what it submits is the
    prompt and the aspect ratio it was given, the MIME type and payload
    the decoder found in the image, the model
    ['veo-3.1-fast-generate-preview'], one video, at ['720p']. *)
Theorem generateVideo_single_attempt :
  forall (W : Type) (host : Host.t W) prompt imageDataUrl aspectRatio onProgress
         fuel w o w' log,
    generateVideo host prompt imageDataUrl aspectRatio onProgress fuel w
    = (o, w', log) ->
    (List.length (submissions log) <= 1)%nat
    /\ (List.length (fetches log) <= 1)%nat
    /\ (List.length (object_urls log) <= 1)%nat
    /\ forall params answer,
         In (params, answer) (submissions log) ->
         GenAI.prompt params = prompt
         /\ GenAI.aspectRatio (GenAI.config params) = aspectRatio
         /\ GenAI.model params = js "veo-3.1-fast-generate-preview"
         /\ GenAI.numberOfVideos (GenAI.config params) = 1%N
         /\ GenAI.resolution (GenAI.config params) = js "720p"
         /\ dataUrlToMimeAndBase64 imageDataUrl
            = Ok {| mimeType := GenAI.mimeType (GenAI.image params);
                    base64 := GenAI.imageBytes (GenAI.image params) |}.
Proof.
  intros W host prompt imageDataUrl aspectRatio onProgress fuel w o w' log Hrun.
  shape_of Hrun r Hr Hshape.
  assert (Hfields : forall params (answer a : result GenAI.GenerateVideosOperation),
             In (params, answer) [(submitted prompt aspectRatio r, a)] ->
             GenAI.prompt params = prompt
             /\ GenAI.aspectRatio (GenAI.config params) = aspectRatio
             /\ GenAI.model params = js "veo-3.1-fast-generate-preview"
             /\ GenAI.numberOfVideos (GenAI.config params) = 1%N
             /\ GenAI.resolution (GenAI.config params) = js "720p"
             /\ dataUrlToMimeAndBase64 imageDataUrl
                = Ok {| mimeType := GenAI.mimeType (GenAI.image params);
                        base64 := GenAI.imageBytes (GenAI.image params) |}).
  { intros params answer a [Heq | []]. inversion Heq; subst. cbn.
    rewrite Hr. destruct r. repeat split; auto. }
  destruct Hshape as [e | e | op0 e | op0 e l Hp | op0 l Hp | op0 final l o l' Hp Hf].
  - cbn. split; [lia|]. split; [lia|]. split; [lia|]. intros ? ? [].
  - cbn. split; [lia|]. split; [lia|]. split; [lia|]. intros params answer; apply Hfields.
  - cbn. split; [lia|]. split; [lia|]. split; [lia|]. intros params answer; apply Hfields.
  - destruct (Polling_elsewhere Hp) as (Hs & Hf & Hu & _).
    autorewrite with observe. rewrite Hs, Hf, Hu. cbn.
    split; [lia|]. split; [lia|]. split; [lia|]. intros params answer; apply Hfields.
  - destruct (Polling_elsewhere Hp) as (Hs & Hf & Hu & _).
    autorewrite with observe. rewrite Hs, Hf, Hu. cbn.
    split; [lia|]. split; [lia|]. split; [lia|]. intros params answer; apply Hfields.
  - destruct (Polling_elsewhere Hp) as (Hs & Hfl & Hu & _).
    destruct (Finishing_elsewhere Hf) as (_ & _ & _ & _ & Hs' & _).
    autorewrite with observe. rewrite Hs, Hfl, Hu, Hs'. cbn.
    split; [lia|]. split; [destruct Hf; cbn; lia|]. split; [destruct Hf; cbn; lia|].
    intros params answer; apply Hfields.
Qed.

(** X5 on the scenario of the design document. *)
Lemma generateVideo_single_attempt_witness :
  let log := snd (Scenario.run (js "cred") Scenario.done_operation (Some (js "cred")) 2 2) in
  (List.length (submissions log) <= 1)%nat
  /\ (List.length (fetches log) <= 1)%nat
  /\ (List.length (object_urls log) <= 1)%nat
  /\ forall params answer,
       In (params, answer) (submissions log) ->
       GenAI.prompt params = js "A dog running on a beach"
       /\ GenAI.aspectRatio (GenAI.config params) = GenAI.Ratio_16_9
       /\ GenAI.model params = js "veo-3.1-fast-generate-preview"
       /\ GenAI.numberOfVideos (GenAI.config params) = 1%N
       /\ GenAI.resolution (GenAI.config params) = js "720p"
       /\ dataUrlToMimeAndBase64 (js "data:image/png;base64,AAAA")
          = Ok {| mimeType := GenAI.mimeType (GenAI.image params);
                  base64 := GenAI.imageBytes (GenAI.image params) |}.
Proof.
  cbv zeta.
  eapply (@generateVideo_single_attempt _
            (Scenario.host (js "cred") Scenario.done_operation)
            (js "A dog running on a beach") (js "data:image/png;base64,AAAA")
            GenAI.Ratio_16_9 Scenario.onProgress 2
            (Scenario.start (Some (js "cred")) 2)).
  reflexivity.
Defined.

(** X6.  When the service rejects the submission with [e], the call
    throws [e]; the callback has received the first message only, and
    there is no poll, no delay, no fetch and no object URL. *)
Theorem submission_failure_propagates :
  forall (W : Type) (host : Host.t W) prompt imageDataUrl aspectRatio onProgress
         fuel w o w' log params e,
    generateVideo host prompt imageDataUrl aspectRatio onProgress fuel w
    = (o, w', log) ->
    In (params, Throw e) (submissions log) ->
    o = Threw e
    /\ progress_messages log = [msg_sending]
    /\ polled log = [] /\ timeouts log = []
    /\ fetches log = [] /\ object_urls log = [].
Proof.
  intros W host prompt imageDataUrl aspectRatio onProgress fuel w o w' log
         params e Hrun Hin.
  shape_of Hrun r Hr Hshape.
  destruct Hshape as [e' | e' | op0 e' | op0 e' l Hp | op0 l Hp | op0 final l o l' Hp Hf].
  - cbn in Hin. contradiction.
  - cbn in Hin. destruct Hin as [Heq | []]. inversion Heq; subst. cbn. auto 10.
  - cbn in Hin. destruct Hin as [Heq | []]. discriminate.
  - destruct (Polling_elsewhere Hp) as (Hs & _).
    autorewrite with observe in Hin. rewrite Hs in Hin.
    destruct Hin as [Heq | []]. discriminate.
  - destruct (Polling_elsewhere Hp) as (Hs & _).
    autorewrite with observe in Hin. rewrite Hs in Hin.
    destruct Hin as [Heq | []]. discriminate.
  - destruct (Polling_elsewhere Hp) as (Hs & _).
    destruct (Finishing_elsewhere Hf) as (_ & _ & _ & _ & Hs' & _).
    autorewrite with observe in Hin. rewrite Hs, Hs' in Hin.
    destruct Hin as [Heq | []]. discriminate.
Qed.

(** X6 on a service that rejects submissions for lack of quota. *)
Lemma submission_failure_propagates_witness :
  let run := Script.run (Script.host (Throw Script.quota) (Throw Script.quota)
                           (Ok Scenario.ok_response)) Scenario.onProgress 3 in
  fst (fst run) = Threw Script.quota
  /\ progress_messages (snd run) = [msg_sending]
  /\ polled (snd run) = [] /\ timeouts (snd run) = []
  /\ fetches (snd run) = [] /\ object_urls (snd run) = [].
Proof.
  cbv zeta.
  eapply (@submission_failure_propagates _
            (Script.host (Throw Script.quota) (Throw Script.quota)
               (Ok Scenario.ok_response))
            (js "A dog running on a beach") (js "data:image/png;base64,AAAA")
            GenAI.Ratio_16_9 Scenario.onProgress 3
            (Scenario.start (Some (js "cred")) 0) _ _ _
            (submitted (js "A dog running on a beach") GenAI.Ratio_16_9
               {| mimeType := js "image/png"; base64 := Some (js "AAAA") |})).
  - reflexivity.
  - left. reflexivity.
Defined.

(** X7.  When the service rejects a poll with [e], the call throws [e]
    and that poll is the last thing it does: no further poll, no fetch, no
    object URL. *)
Theorem poll_failure_propagates :
  forall (W : Type) (host : Host.t W) prompt imageDataUrl aspectRatio onProgress
         fuel w o w' log e,
    generateVideo host prompt imageDataUrl aspectRatio onProgress fuel w
    = (o, w', log) ->
    In (Throw e) (poll_results log) ->
    o = Threw e
    /\ (exists before ai operation,
          log = before ++ [EvGetVideosOperation ai operation (Throw e)])
    /\ fetches log = [] /\ object_urls log = [].
Proof.
  intros W host prompt imageDataUrl aspectRatio onProgress fuel w o w' log e Hrun Hin.
  shape_of Hrun r Hr Hshape.
  destruct Hshape as [e' | e' | op0 e' | op0 e' l Hp | op0 l Hp | op0 final l o l' Hp Hf];
    try (cbn in Hin; contradiction).
  - destruct (Polling_elsewhere Hp) as (_ & Hfl & Hu & _).
    autorewrite with observe in Hin |- *. cbn in Hin. rewrite Hfl, Hu.
    destruct (Polling_poll_results Hp _ Hin) as (Heq & before & op' & ->).
    inversion Heq; subst e'.
    split; [reflexivity|]. split; [|split; reflexivity].
    do 2 eexists. exists op'. rewrite app_assoc. reflexivity.
  - autorewrite with observe in Hin. cbn in Hin.
    destruct (Polling_poll_results Hp _ Hin) as (Heq & _). discriminate.
  - autorewrite with observe in Hin. cbn in Hin.
    apply in_app_or in Hin. destruct Hin as [Hin | Hin].
    + destruct (Polling_poll_results Hp _ Hin) as (Heq & _). discriminate.
    + destruct Hf; cbn in Hin; contradiction.
Qed.

(** X7 on a service that accepts the job and rejects the poll. *)
Lemma poll_failure_propagates_witness :
  let run := Script.run (Script.host (Ok Scenario.pending_operation) (Throw Script.quota)
                           (Ok Scenario.ok_response)) Scenario.onProgress 3 in
  fst (fst run) = Threw Script.quota
  /\ (exists before ai operation,
        snd run = before ++ [EvGetVideosOperation ai operation (Throw Script.quota)])
  /\ fetches (snd run) = [] /\ object_urls (snd run) = [].
Proof.
  cbv zeta.
  eapply (@poll_failure_propagates _
            (Script.host (Ok Scenario.pending_operation) (Throw Script.quota)
               (Ok Scenario.ok_response))
            (js "A dog running on a beach") (js "data:image/png;base64,AAAA")
            GenAI.Ratio_16_9 Scenario.onProgress 3
            (Scenario.start (Some (js "cred")) 0)).
  - reflexivity.
  - left. reflexivity.
Defined.

(** X8.  In every run there are as many delays as polls, each of 10000
    ms; no descriptor that is done is ever handed back to the service;
    and the descriptors handed back are, in order, the answers received
    (all of them, or all but the last). *)
Theorem polling_discipline :
  forall (W : Type) (host : Host.t W) prompt imageDataUrl aspectRatio onProgress
         fuel w o w' log,
    generateVideo host prompt imageDataUrl aspectRatio onProgress fuel w
    = (o, w', log) ->
    timeouts log = repeat 10000%N (List.length (polled log))
    /\ Forall (fun a => GenAI.done a = false) (polled log)
    /\ exists rest,
         answers log = polled log ++ rest /\ (List.length rest <= 1)%nat.
Proof.
  intros W host prompt imageDataUrl aspectRatio onProgress fuel w o w' log Hrun.
  shape_of Hrun r Hr Hshape.
  destruct Hshape as [e | e | op0 e | op0 e l Hp | op0 l Hp | op0 final l o l' Hp Hf].
  - cbn. split; [reflexivity|]. split; [constructor|]. exists []. auto.
  - cbn. split; [reflexivity|]. split; [constructor|]. exists []. auto.
  - cbn. split; [reflexivity|]. split; [constructor|]. exists [op0]. auto.
  - destruct (Polling_discipline Hp) as (Ht & Hd & rest & Ha & Hl).
    autorewrite with observe.
    change ([op0] ++ answers l) with (op0 :: answers l).
    change ([] ++ polled l) with (polled l). change ([] ++ timeouts l) with (timeouts l).
    rewrite Ht, Ha. eauto.
  - destruct (Polling_discipline Hp) as (Ht & Hd & rest & Ha & Hl).
    autorewrite with observe.
    change ([op0] ++ answers l) with (op0 :: answers l).
    change ([] ++ polled l) with (polled l). change ([] ++ timeouts l) with (timeouts l).
    rewrite Ht, Ha. eauto.
  - destruct (Polling_discipline Hp) as (Ht & Hd & rest & Ha & Hl).
    destruct (Finishing_elsewhere Hf) as (_ & Ht' & Hp' & Ha' & _).
    autorewrite with observe.
    rewrite Ht', Hp', Ha', !app_nil_r.
    change ([op0] ++ answers l) with (op0 :: answers l).
    change ([] ++ polled l) with (polled l). change ([] ++ timeouts l) with (timeouts l).
    rewrite Ht, Ha. eauto.
Qed.

(** X8 on a service that answers Pending twice and then Done. *)
Lemma polling_discipline_witness :
  let log := snd (Scenario.run (js "cred") Scenario.done_operation (Some (js "cred")) 2 2) in
  timeouts log = repeat 10000%N (List.length (polled log))
  /\ Forall (fun a => GenAI.done a = false) (polled log)
  /\ exists rest,
       answers log = polled log ++ rest /\ (List.length rest <= 1)%nat.
Proof.
  cbv zeta.
  eapply (@polling_discipline _
            (Scenario.host (js "cred") Scenario.done_operation)
            (js "A dog running on a beach") (js "data:image/png;base64,AAAA")
            GenAI.Ratio_16_9 Scenario.onProgress 2
            (Scenario.start (Some (js "cred")) 2)).
  reflexivity.
Defined.

(** X9.  The progress callback is not guarded: when a call of it throws
    [e], that call is the last event of the run and the run throws [e]. *)
Theorem throwing_callback_aborts :
  forall (W : Type) (host : Host.t W) prompt imageDataUrl aspectRatio onProgress
         fuel w o w' log,
    generateVideo host prompt imageDataUrl aspectRatio onProgress fuel w
    = (o, w', log) ->
    callbacks_returned log = false ->
    exists msg e before,
      log = before ++ [EvProgress msg (Throw e)]
      /\ o = Threw e
      /\ callbacks_returned before = true.
Proof.
  intros W host prompt imageDataUrl aspectRatio onProgress fuel w o w' log Hrun Hcb.
  shape_of Hrun r Hr Hshape.
  destruct Hshape as [e | e | op0 e | op0 e l Hp | op0 l Hp | op0 final l o l' Hp Hf];
    try (cbn in Hcb; discriminate).
  - exists msg_sending, e, [EvApiKey (process_env_API_KEY host w)]. auto.
  - eexists msg_warming_up, e, [_; _; _]. cbn. auto.
  - autorewrite with observe in Hcb. cbn in Hcb.
    destruct (Polling_callback Hp Hcb) as (msg & e1 & before & -> & Heq & Hb).
    inversion Heq; subst e1.
    exists msg, e, (opening (process_env_API_KEY host w)
                      (submitted prompt aspectRatio r) op0 ++ before).
    rewrite app_assoc. autorewrite with observe. rewrite Hb. auto.
  - autorewrite with observe in Hcb. cbn in Hcb.
    destruct (Polling_callback Hp Hcb) as (msg & e1 & before & -> & Heq & Hb).
    discriminate.
  - autorewrite with observe in Hcb. cbn in Hcb.
    destruct (callbacks_returned l) eqn:Hl.
    + cbn in Hcb.
      destruct Hf as [e | | | | |]; try (cbn in Hcb; discriminate).
      exists msg_complete, e, (opening (process_env_API_KEY host w)
                                 (submitted prompt aspectRatio r) op0 ++ l).
      rewrite <- app_assoc. autorewrite with observe. rewrite Hl. auto.
    + destruct (Polling_callback Hp Hl) as (msg & e1 & before & _ & Heq & _).
      discriminate.
Qed.

(** X9 with a callback that throws on the second message. *)
Lemma throwing_callback_aborts_witness :
  exists msg e before,
    snd (Script.run (Script.host (Ok Scenario.done_operation) (Ok Scenario.done_operation)
                       (Ok Scenario.ok_response))
           (Script.throws_on msg_warming_up Script.quota) 0)
    = before ++ [EvProgress msg (Throw e)]
    /\ fst (fst (Script.run (Script.host (Ok Scenario.done_operation)
                               (Ok Scenario.done_operation) (Ok Scenario.ok_response))
                   (Script.throws_on msg_warming_up Script.quota) 0))
       = Threw e
    /\ callbacks_returned before = true.
Proof.
  eapply (@throwing_callback_aborts _
            (Script.host (Ok Scenario.done_operation) (Ok Scenario.done_operation)
               (Ok Scenario.ok_response))
            (js "A dog running on a beach") (js "data:image/png;base64,AAAA")
            GenAI.Ratio_16_9 (Script.throws_on msg_warming_up Script.quota) 0
            (Scenario.start (Some (js "cred")) 0)).
  - reflexivity.
  - reflexivity.
Defined.

Section Unbounded.

Context {W : Type} (host : Host.t W).
Variable onProgress : jsstring -> W -> result unit * W.

Hypothesis callback_returns : forall msg w, fst (onProgress msg w) = Ok tt.
Hypothesis polls_pending :
  forall ai operation w,
    exists next,
      fst (operations_getVideosOperation host ai operation w) = Ok next
      /\ GenAI.done next = false.

Lemma while_not_done_pending fuel :
  forall ai pollCount operation w,
    GenAI.done operation = false ->
    exists w' l,
      while_not_done host fuel ai onProgress pollCount operation w
      = (StillPolling, w', l)
      /\ List.length (polled l) = fuel
      /\ progress_messages l = List.map msg_check (seq (S pollCount) fuel).
Proof.
  induction fuel as [|fuel IH]; intros ai pollCount operation w Hd; simpl; rewrite Hd.
  - exists w, []. auto.
  - unfold bind, call_onProgress, sleep, getVideosOperation, interact.
    pose proof (callback_returns (msg_check (S pollCount)) w) as Hcb.
    destruct (onProgress (msg_check (S pollCount)) w) as [r1 w1]. cbn in Hcb. subst r1.
    destruct (polls_pending ai operation (setTimeout host polling_interval w1))
      as (next & Hnext & Hdn).
    destruct (operations_getVideosOperation host ai operation
                (setTimeout host polling_interval w1)) as [r2 w2].
    cbn in Hnext. subst r2.
    destruct (IH ai (S pollCount) next w2 Hdn) as (w' & l & -> & Hlen & Hmsg).
    eexists. eexists. split; [reflexivity|]. cbn. rewrite Hlen, Hmsg. auto.
Qed.

End Unbounded.

(** X10.  The loop has no bound of its own: against a service that
    answers Pending to the submission and to every poll (with a callback
    that returns), the call is still polling after any number of cycles,
    having polled and reported once per cycle. *)
Theorem never_done_never_returns :
  forall (W : Type) (host : Host.t W) prompt imageDataUrl aspectRatio onProgress,
    (forall msg w, fst (onProgress msg w) = Ok tt) ->
    (forall ai params w,
        exists operation,
          fst (models_generateVideos host ai params w) = Ok operation
          /\ GenAI.done operation = false) ->
    (forall ai operation w,
        exists next,
          fst (operations_getVideosOperation host ai operation w) = Ok next
          /\ GenAI.done next = false) ->
    forall fuel w,
      exists w' log,
        generateVideo host prompt imageDataUrl aspectRatio onProgress fuel w
        = (StillPolling, w', log)
        /\ List.length (polled log) = fuel
        /\ progress_messages log
           = [msg_sending; msg_warming_up] ++ List.map msg_check (seq 1 fuel)
        /\ fetches log = [].
Proof.
  intros W host prompt imageDataUrl aspectRatio onProgress Hcb Hsub Hpoll fuel w.
  unfold generateVideo.
  destruct (decoder_returns imageDataUrl) as [r ->]. cbv zeta.
  unfold bind at 1. unfold read_API_KEY at 1.
  unfold bind at 1. cbn [settle ret].
  unfold bind at 1. unfold call_onProgress at 1, interact at 1.
  pose proof (Hcb msg_sending w) as H1.
  destruct (onProgress msg_sending w) as [r1 w1]. cbn in H1. subst r1.
  unfold bind at 1. unfold generateVideos, interact at 1.
  match goal with
  | |- context [models_generateVideos host ?ai ?p w1] =>
      destruct (Hsub ai p w1) as (operation & H2 & Hd);
      destruct (models_generateVideos host ai p w1) as [r2 w2]
  end.
  cbn in H2. subst r2.
  unfold bind at 1. unfold call_onProgress at 1, interact at 1.
  pose proof (Hcb msg_warming_up w2) as H3.
  destruct (onProgress msg_warming_up w2) as [r3 w3]. cbn in H3. subst r3.
  unfold bind at 1.
  match goal with
  | |- context [while_not_done host fuel ?ai onProgress 0 operation w3] =>
      destruct (while_not_done_pending host onProgress Hcb Hpoll fuel ai 0 operation w3 Hd)
        as (w' & l & Hloop & Hlen & Hmsg)
  end.
  destruct (Polling_elsewhere (while_not_done_shape _ _ _ _ _ _ _ Hloop)) as (_ & Hf & _).
  rewrite Hloop.
  eexists. eexists. split; [reflexivity|].
  cbn. rewrite Hlen, Hmsg, Hf. auto.
Qed.

(** X10 on a service that never finishes, followed for five cycles. *)
Lemma never_done_never_returns_witness :
  exists w' log,
    Script.run (Script.host (Ok Scenario.pending_operation) (Ok Scenario.pending_operation)
                  (Ok Scenario.ok_response)) Scenario.onProgress 5
    = (StillPolling, w', log)
    /\ List.length (polled log) = 5%nat
    /\ progress_messages log
       = [msg_sending; msg_warming_up] ++ List.map msg_check (seq 1 5)
    /\ fetches log = [].
Proof.
  apply (@never_done_never_returns _
           (Script.host (Ok Scenario.pending_operation) (Ok Scenario.pending_operation)
              (Ok Scenario.ok_response))
           (js "A dog running on a beach") (js "data:image/png;base64,AAAA")
           GenAI.Ratio_16_9 Scenario.onProgress).
  - intros msg w. reflexivity.
  - intros ai params w. exists Scenario.pending_operation. split; reflexivity.
  - intros ai operation w. exists Scenario.pending_operation. split; reflexivity.
Defined.

Section Counters.

Lemma js_injective a b : js a = js b -> a = b.
Proof.
  unfold js. intros H.
  rewrite <- (string_of_list_ascii_of_string a), <- (string_of_list_ascii_of_string b).
  f_equal. revert H.
  generalize (list_ascii_of_string a) (list_ascii_of_string b).
  induction l as [|x l IH]; intros [|y l'] H; try discriminate; [reflexivity|].
  cbn in H. inversion H as [[Hx Hl]]. f_equal; [|auto].
  rewrite <- (ascii_N_embedding x), <- (ascii_N_embedding y), Hx. reflexivity.
Qed.

Lemma Number_toString_injective m n :
  Number_toString m = Number_toString n -> m = n.
Proof.
  unfold Number_toString. intros H. apply js_injective in H.
  assert (Hu : Nat.to_uint m = Nat.to_uint n).
  { pose proof (NilEmpty.usu (Nat.to_uint m)) as Hm.
    pose proof (NilEmpty.usu (Nat.to_uint n)) as Hn.
    rewrite H in Hm. congruence. }
  rewrite <- (Unsigned.of_to m), <- (Unsigned.of_to n), Hu. reflexivity.
Qed.

End Counters.

(** X11.  The progress messages of two different cycles differ: the
    count printed in a message determines the cycle. *)
Theorem check_messages_distinct :
  forall m n, m <> n -> msg_check m <> msg_check n.
Proof.
  intros m n Hne H. apply Hne. unfold msg_check in H.
  apply app_inv_head in H. apply app_inv_tail in H.
  apply Number_toString_injective. exact H.
Qed.

(** X11 at cycles 9 and 10. *)
Lemma check_messages_distinct_witness : msg_check 9 <> msg_check 10.
Proof. apply (@check_messages_distinct 9 10). discriminate. Defined.

(* ================================================================== *)
(** * The rotation of the loading messages *)
(* ================================================================== *)

Section Rotation.

Lemma jsstring_eqb_eq a b : jsstring_eqb a b = true <-> a = b.
Proof.
  unfold jsstring_eqb. destruct (list_eq_dec N.eq_dec a b); split; auto; discriminate.
Qed.

(** [indexOf] answers [-1] for an absent string and a position holding
    the string otherwise. *)
Lemma indexOf_spec x l :
  (AppUI.indexOf x l = (-1)%Z /\ ~ In x l)
  \/ ((0 <= AppUI.indexOf x l < Z.of_nat (List.length l))%Z
      /\ nth_error l (Z.to_nat (AppUI.indexOf x l)) = Some x).
Proof.
  induction l as [|y l IH]; cbn [AppUI.indexOf].
  - left. split; [reflexivity | intros []].
  - destruct (jsstring_eqb y x) eqn:Heq.
    + right. apply jsstring_eqb_eq in Heq. subst. cbn. split; [lia | reflexivity].
    + assert (Hne : y <> x).
      { intros Hyx. apply jsstring_eqb_eq in Hyx. congruence. }
      destruct IH as [[Hi Hn] | [Hi Hn]].
      * left. rewrite Hi. cbn. split; [reflexivity|]. intros [H|H]; auto.
      * right. destruct (Z.ltb_spec (AppUI.indexOf x l) 0); [lia|].
        split; [cbn [List.length]; lia|].
        replace (Z.to_nat (AppUI.indexOf x l + 1)) with (S (Z.to_nat (AppUI.indexOf x l)))
          by lia.
        exact Hn.
Qed.

Lemma next_of_absent prev :
  ~ In prev AppUI.LOADING_MESSAGES ->
  AppUI.next_loading_message prev = Some (js "Initializing hyperdrive...").
Proof.
  intros Hn. unfold AppUI.next_loading_message.
  destruct (indexOf_spec prev AppUI.LOADING_MESSAGES) as [[-> _] | [_ Hin]].
  - reflexivity.
  - exfalso. apply Hn. eapply nth_error_In. exact Hin.
Qed.

(** No loading message begins like a progress message of [generateVideo]. *)
Lemma not_a_loading_message c s :
  c = 83%N \/ c = 65%N /\ hd 0%N s = 73%N \/ c = 86%N ->
  ~ In (c :: s) AppUI.LOADING_MESSAGES.
Proof.
  intros Hc Hin. cbn in Hin.
  repeat (destruct Hin as [Heq | Hin];
          [inversion Heq; subst; cbn in Hc; intuition discriminate|]).
  exact Hin.
Qed.

End Rotation.

(** X12.  A tick of the interval always yields one of the loading
    messages, never [undefined]; from a message that is not in the list
    (the empty string, a progress message) it yields the first one. *)
Theorem loading_message_tick :
  forall prev,
    exists next,
      AppUI.next_loading_message prev = Some next
      /\ In next AppUI.LOADING_MESSAGES
      /\ (~ In prev AppUI.LOADING_MESSAGES -> next = js "Initializing hyperdrive...").
Proof.
  intros prev. unfold AppUI.next_loading_message.
  destruct (indexOf_spec prev AppUI.LOADING_MESSAGES) as [[Hi Hn] | [Hi Hin]].
  - rewrite Hi. eexists. split; [reflexivity|]. split; [left; reflexivity | reflexivity].
  - cbn [List.length AppUI.LOADING_MESSAGES] in *.
    set (i := AppUI.indexOf prev AppUI.LOADING_MESSAGES) in *.
    assert (Hr : (0 <= Z.rem (i + 1) 8 < 8)%Z).
    { rewrite Z.rem_mod_nonneg by lia. apply Z.mod_pos_bound. lia. }
    change (Z.of_nat 8) with 8%Z.
    unfold AppUI.at_index. destruct (Z.ltb_spec (Z.rem (i + 1) 8) 0); [lia|].
    destruct (nth_error AppUI.LOADING_MESSAGES (Z.to_nat (Z.rem (i + 1) 8))) as [m|] eqn:Hm.
    + exists m. split; [reflexivity|]. split; [eapply nth_error_In; eassumption|].
      intros Hn. exfalso. apply Hn. eapply nth_error_In. exact Hin.
    + apply nth_error_None in Hm. cbn [List.length AppUI.LOADING_MESSAGES] in Hm. lia.
Qed.

(** X12 at the empty string, the loading message before the first run. *)
Lemma loading_message_tick_witness :
  exists next,
    AppUI.next_loading_message [] = Some next
    /\ In next AppUI.LOADING_MESSAGES
    /\ next = js "Initializing hyperdrive...".
Proof.
  destruct (loading_message_tick []) as (next & Hnext & Hin & Hfirst).
  exists next. split; [exact Hnext|]. split; [exact Hin|].
  apply Hfirst. vm_compute. intuition discriminate.
Defined.

(** X13.  From any loading message, eight ticks come back to it and no
    fewer do: the eight messages are shown in turn. *)
Theorem loading_messages_cycle :
  forall m,
    In m AppUI.LOADING_MESSAGES ->
    AppUI.ticks 8 m = Some m
    /\ forall k, (0 < k < 8)%nat -> AppUI.ticks k m <> Some m.
Proof.
  intros m Hin. cbn in Hin.
  repeat (destruct Hin as [<- | Hin];
          [split; [vm_compute; reflexivity|];
           intros k Hk;
           do 8 (destruct k as [|k]; [try lia; vm_compute; discriminate|]); lia|]).
  contradiction.
Qed.

(** X13 at the first message. *)
Lemma loading_messages_cycle_witness :
  AppUI.ticks 8 (js "Initializing hyperdrive...") = Some (js "Initializing hyperdrive...")
  /\ forall k, (0 < k < 8)%nat ->
       AppUI.ticks k (js "Initializing hyperdrive...")
       <> Some (js "Initializing hyperdrive...").
Proof.
  apply (@loading_messages_cycle (js "Initializing hyperdrive...")).
  left. reflexivity.
Defined.

Section ProgressMessages.

Lemma progress_message_absent msg :
  msg = msg_sending \/ msg = msg_warming_up \/ msg = msg_complete
  \/ (exists n, msg = msg_check n) ->
  ~ In msg AppUI.LOADING_MESSAGES.
Proof.
  intros [-> | [-> | [-> | [n ->]]]].
  - apply not_a_loading_message. auto.
  - apply not_a_loading_message. cbn. auto.
  - apply not_a_loading_message. auto.
  - unfold msg_check.
    change (js "Video generation in progress... (check #")
      with (86%N :: tl (js "Video generation in progress... (check #")).
    cbn [app]. apply not_a_loading_message. auto.
Qed.

Lemma Polling_messages ai pollCount operation o l :
  Polling ai pollCount operation o l ->
  Forall (fun msg => exists n, msg = msg_check n) (progress_messages l).
Proof.
  induction 1; cbn -[msg_check]; eauto.
Qed.

(** The messages a run hands to the progress callback. *)
Lemma generateVideo_messages (W : Type) (host : Host.t W)
    prompt imageDataUrl aspectRatio onProgress fuel w o w' log :
  generateVideo host prompt imageDataUrl aspectRatio onProgress fuel w
  = (o, w', log) ->
  Forall (fun msg => msg = msg_sending \/ msg = msg_warming_up \/ msg = msg_complete
                     \/ (exists n, msg = msg_check n))
         (progress_messages log).
Proof.
  intros Hrun. shape_of Hrun r Hr Hshape.
  assert (Hloop : forall ai k op o1 l,
             Polling ai k op o1 l ->
             Forall (fun msg => msg = msg_sending \/ msg = msg_warming_up
                                \/ msg = msg_complete \/ (exists n, msg = msg_check n))
                    (progress_messages l)).
  { intros ai k op o1 l Hp. eapply Forall_impl; [|exact (Polling_messages Hp)].
    cbn. auto. }
  destruct Hshape as [e | e | op0 e | op0 e l Hp | op0 l Hp | op0 final l o l' Hp Hf];
    autorewrite with observe; cbn -[msg_sending msg_warming_up msg_complete msg_check];
    repeat (constructor; [auto|]); eauto.
  destruct (Finishing_elsewhere Hf) as (-> & _).
  apply Forall_app. split; eauto.
Qed.

End ProgressMessages.

(** X14.  Every message a run of [generateVideo] hands to the progress
    callback is foreign to the loading messages: when it has been stored
    as the loading message, the next tick of the interval puts the first
    loading message in its place. *)
Theorem progress_message_restarts_rotation :
  forall (W : Type) (host : Host.t W) prompt imageDataUrl aspectRatio onProgress
         fuel w o w' log msg,
    generateVideo host prompt imageDataUrl aspectRatio onProgress fuel w
    = (o, w', log) ->
    In msg (progress_messages log) ->
    ~ In msg AppUI.LOADING_MESSAGES
    /\ AppUI.next_loading_message msg = Some (js "Initializing hyperdrive...").
Proof.
  intros W host prompt imageDataUrl aspectRatio onProgress fuel w o w' log msg Hrun Hin.
  pose proof (generateVideo_messages _ _ _ _ _ _ _ Hrun) as Hall.
  rewrite Forall_forall in Hall. specialize (Hall _ Hin).
  pose proof (progress_message_absent Hall) as Habs.
  split; [exact Habs | exact (next_of_absent Habs)].
Qed.

(** X14 at the message of the second cycle of a run. *)
Lemma progress_message_restarts_rotation_witness :
  ~ In (msg_check 2) AppUI.LOADING_MESSAGES
  /\ AppUI.next_loading_message (msg_check 2) = Some (js "Initializing hyperdrive...").
Proof.
  eapply (@progress_message_restarts_rotation _
            (Scenario.host (js "cred") Scenario.done_operation)
            (js "A dog running on a beach") (js "data:image/png;base64,AAAA")
            GenAI.Ratio_16_9 Scenario.onProgress 2
            (Scenario.start (Some (js "cred")) 2)).
  - reflexivity.
  - vm_compute. auto 10.
Defined.

(* ================================================================== *)
(** * More on the generate handler *)
(* ================================================================== *)

Section Handler.

Context {W : Type} (host : Host.t W).

Lemma Qfloor_below (n : Z) (d : positive) (k : Z) :
  (n < k * Zpos d)%Z -> (Qfloor (n # d) < k)%Z.
Proof.
  intros H. cbn [Qfloor]. apply Z.div_lt_upper_bound; lia.
Qed.

(** Six times a Number below 1 may round up, yet never to 6: the
    product has at most 56 bits, so at most 4 is added to a numerator
    that is at least 6 short. *)
Lemma rounded_product_below (n : Z) (d : positive) :
  (0 <= n < 2 ^ 53)%Z -> (n < Zpos d)%Z ->
  (Qfloor (round_to_binary64 ((n # d) * inject_Z 6)) < 6)%Z.
Proof.
  intros Hn Hd. unfold round_to_binary64.
  unfold Qmult, inject_Z. cbn [Qnum Qden]. rewrite Pos.mul_1_r.
  set (N := (n * 6)%Z).
  set (excess := (Z.log2 N + 1 - 53)%Z).
  destruct (excess <=? 0)%Z eqn:He.
  - apply Qfloor_below. subst N. lia.
  - apply Z.leb_gt in He.
    assert (HN : (0 < N)%Z).
    { destruct (Z.eq_dec n 0) as [->|]; [|lia].
      subst excess N. cbn in He. lia. }
    assert (Hlog : (Z.log2 N < 56)%Z).
    { apply Z.log2_lt_pow2; [exact HN|]. subst N.
      change (2 ^ 56)%Z with (2 ^ 53 * 8)%Z. lia. }
    assert (Hex : excess = 1%Z \/ excess = 2%Z \/ excess = 3%Z) by lia.
    pose proof (Z.div_mod N (2 ^ excess)) as Hdm.
    pose proof (Z.mod_pos_bound N (2 ^ excess)) as Hmod.
    apply Qfloor_below.
    destruct Hex as [-> | [-> | ->]];
      change (2 ^ 1)%Z with 2%Z in *; change (2 ^ 2)%Z with 4%Z in *;
      change (2 ^ 3)%Z with 8%Z in *; change (2 ^ (1 - 1))%Z with 1%Z;
      change (2 ^ (2 - 1))%Z with 2%Z; change (2 ^ (3 - 1))%Z with 4%Z;
      (match goal with
       | |- context [if ?c then _ else _] => destruct c eqn:Hc
       end; [| subst N; lia]);
      apply orb_prop in Hc;
      (destruct Hc as [Hc | Hc];
       [apply Z.ltb_lt in Hc
       | apply andb_prop in Hc; destruct Hc as [Hc _]; apply Z.eqb_eq in Hc]);
      subst N; lia.
Qed.

Lemma random_in_unit_interval (x : unit_interval) :
  (Z.to_nat (Math_floor (Number_multiply (proj1_sig x)
                           (inject_Z (Z.of_nat (List.length App.RANDOM_PROMPTS)))))
   < List.length App.RANDOM_PROMPTS)%nat.
Proof.
  destruct x as [[n d] Hq]. cbn [proj1_sig].
  unfold binary64_below_one in Hq. cbn [Qnum Qden] in Hq.
  apply andb_prop in Hq. destruct Hq as [Hq Hd].
  apply andb_prop in Hq. destruct Hq as [Hq H53].
  apply andb_prop in Hq. destruct Hq as [_ H0].
  apply Z.leb_le in H0. apply Z.ltb_lt in H53. apply Z.ltb_lt in Hd.
  change (Z.of_nat (List.length App.RANDOM_PROMPTS)) with 6%Z.
  change (List.length App.RANDOM_PROMPTS) with 6%nat.
  unfold Math_floor, Number_multiply.
  pose proof (@rounded_product_below n d (conj H0 H53) Hd) as Hf.
  lia.
Qed.

(** What the catch block does with the thrown value. *)
Lemma catch_block (e : Thrown) (w : W) :
  exists w',
    (App.log_error host e ;;
     m <- settle (message e) ;;
     match App.or_else m App.msg_unknown with
     | Message_text errorMessage =>
         errorMessage <-
           (if String_includes App.msg_not_found errorMessage then
              App.set_state host (setIsKeySelected false) ;;
              ret App.msg_invalid_key
            else ret errorMessage) ;;
         App.set_state host (setError (Some errorMessage))
     | _ => throw TypeError_includes
     end) w
    = (match AppUI.errorMessage_of e with
       | Ok _ => Returned tt
       | Throw type_error => Threw type_error
       end,
       w',
       EvConsoleError e
       :: match AppUI.errorMessage_of e with
          | Ok errorMessage =>
              (if String_includes App.msg_not_found errorMessage
               then [ EvSetState (setIsKeySelected false) ] else [])
              ++ [ EvSetState (setError (Some (AppUI.shown_error errorMessage))) ]
          | Throw _ => []
          end).
Proof.
  unfold AppUI.errorMessage_of, AppUI.shown_error, bind, App.log_error.
  destruct e as [| |m]; cbn [message settle throw]; try (eexists; reflexivity).
  unfold ret at 1.
  destruct (App.or_else m App.msg_unknown) as [|errorMessage|];
    unfold throw; try (eexists; reflexivity).
  unfold bind, App.set_state, ret.
  destruct (String_includes App.msg_not_found errorMessage);
    eexists; reflexivity.
Qed.

(** A run of the handler with an image: the preparation, a run of
    [generateVideo] with [setLoadingMessage] as its callback, and the
    conclusion that fits how that run ended. *)
Lemma handleGenerate_shape image prompt aspectRatio fuel w o w' log :
  App.handleGenerate host (Some image) prompt aspectRatio fuel w = (o, w', log) ->
  exists draw finalPrompt w0 o1 w1 l1,
    match draw with
    | None => prompt <> [] /\ finalPrompt = prompt
    | Some (x, chosen) =>
        prompt = [] /\ chosen = finalPrompt /\ In finalPrompt App.RANDOM_PROMPTS
    end
    /\ generateVideo host finalPrompt (App.dataUrl image) aspectRatio
         (App.setLoadingMessage_callback host) fuel w0 = (o1, w1, l1)
    /\ log = AppUI.preparation draw ++ l1 ++ AppUI.conclusion o1
    /\ o = AppUI.handler_outcome o1.
Proof.
  unfold App.handleGenerate. intros H.
  assert (Hend : forall finalPrompt w0 pre,
    (let '(o2, w2, l2) :=
       try_finally
         (try_catch
            (url <- generateVideo host finalPrompt (App.dataUrl image) aspectRatio
                      (App.setLoadingMessage_callback host) fuel ;;
             App.set_state host (setVideoUrl (Some url)))
            (fun e =>
               App.log_error host e ;;
               m <- settle (message e) ;;
               match App.or_else m App.msg_unknown with
               | Message_text errorMessage =>
                   errorMessage <-
                     (if String_includes App.msg_not_found errorMessage then
                        App.set_state host (setIsKeySelected false) ;;
                        ret App.msg_invalid_key
                      else ret errorMessage) ;;
                   App.set_state host (setError (Some errorMessage))
               | _ => throw TypeError_includes
               end))
         (App.set_state host (setIsLoading false)) w0 in
     (o2, w2, pre ++ l2)) = (o, w', log) ->
    exists o1 w1 l1,
      generateVideo host finalPrompt (App.dataUrl image) aspectRatio
        (App.setLoadingMessage_callback host) fuel w0 = (o1, w1, l1)
      /\ log = pre ++ l1 ++ AppUI.conclusion o1
      /\ o = AppUI.handler_outcome o1).
  { intros finalPrompt w0 pre Hrun.
    unfold try_finally, try_catch in Hrun. unfold bind at 1 in Hrun.
    destruct (generateVideo host finalPrompt (App.dataUrl image) aspectRatio
                (App.setLoadingMessage_callback host) fuel w0)
      as [[o1 w1] l1] eqn:Hg.
    exists o1, w1, l1. split; [reflexivity|].
    destruct o1 as [url|e|].
    - unfold App.set_state in Hrun. inversion Hrun; subst.
      split; [|reflexivity]. cbn. rewrite <- !app_assoc. reflexivity.
    - destruct (catch_block e w1) as [w2 Hc]. rewrite Hc in Hrun.
      unfold App.set_state in Hrun. cbn [AppUI.conclusion AppUI.handler_outcome].
      destruct (AppUI.errorMessage_of e) as [errorMessage|type_error];
        inversion Hrun; subst; (split; [|reflexivity]);
        rewrite <- ?app_assoc, <- ?app_comm_cons, <- ?app_assoc; reflexivity.
    - inversion Hrun; subst. split; [|reflexivity].
      cbn. rewrite app_nil_r. reflexivity. }
  destruct prompt as [|c prompt'].
  - unfold bind at 1 2 3 4 in H. unfold App.set_state at 1 2 3 in H.
    unfold App.pick_random_prompt, App.random in H.
    unfold bind at 1 in H. cbv beta iota in H.
    destruct (Math_random host
                (React_setState host (setIsLoading true)
                   (React_setState host (setVideoUrl None)
                      (React_setState host (setError None) w)))) as [x wr] eqn:Hx.
    unfold ret at 1 in H. unfold bind at 1 in H. unfold App.set_state at 1 in H.
    cbv beta iota zeta in H.
    set (i := Z.to_nat (Math_floor (Number_multiply (proj1_sig x)
                 (inject_Z (Z.of_nat (List.length App.RANDOM_PROMPTS)))))) in *.
    set (chosen := nth i App.RANDOM_PROMPTS []) in *.
    match type of H with
    | context [try_finally ?body ?final ?w0] =>
        destruct (try_finally body final w0) as [[o2 w2] l2] eqn:Hrun
    end.
    match type of Hrun with
    | try_finally _ _ ?w0 = _ =>
        destruct (Hend chosen w0
                    (AppUI.preparation (Some (proj1_sig x, chosen))))
          as (o1 & w1 & l1 & Hg & Hlog & Ho)
    end.
    { rewrite Hrun. rewrite <- H. cbn. reflexivity. }
    exists (Some (proj1_sig x, chosen)), chosen. eexists. exists o1, w1, l1.
    split.
    { split; [reflexivity|]. split; [reflexivity|].
      apply nth_In. apply random_in_unit_interval. }
    split; [exact Hg|]. split; assumption.
  - unfold bind at 1 2 3 4 in H. unfold App.set_state at 1 2 3 in H.
    unfold ret at 1 in H. unfold bind at 1 in H. unfold ret at 1 in H.
    cbv beta iota zeta in H.
    match type of H with
    | context [try_finally ?body ?final ?w0] =>
        destruct (try_finally body final w0) as [[o2 w2] l2] eqn:Hrun
    end.
    match type of Hrun with
    | try_finally _ _ ?w0 = _ =>
        destruct (Hend (c :: prompt') w0 (AppUI.preparation None))
          as (o1 & w1 & l1 & Hg & Hlog & Ho)
    end.
    { rewrite Hrun. rewrite <- H. cbn. reflexivity. }
    exists None, (c :: prompt'). eexists. exists o1, w1, l1.
    split; [split; [discriminate | reflexivity]|].
    split; [exact Hg|]. split; assumption.
Qed.

End Handler.

Section HandlerFacts.

Lemma updates_app l1 l2 : AppUI.updates (l1 ++ l2) = AppUI.updates l1 ++ AppUI.updates l2.
Proof.
  induction l1 as [|e l1 IH]; [reflexivity|].
  destruct e; simpl; rewrite ?IH; reflexivity.
Qed.

Lemma random_draws_app l1 l2 :
  AppUI.random_draws (l1 ++ l2) = AppUI.random_draws l1 ++ AppUI.random_draws l2.
Proof.
  induction l1 as [|e l1 IH]; [reflexivity|].
  destruct e; simpl; rewrite ?IH; reflexivity.
Qed.

Lemma console_errors_app l1 l2 :
  AppUI.console_errors (l1 ++ l2) = AppUI.console_errors l1 ++ AppUI.console_errors l2.
Proof.
  induction l1 as [|e l1 IH]; [reflexivity|].
  destruct e; simpl; rewrite ?IH; reflexivity.
Qed.

Lemma state_after_app l1 l2 st :
  AppUI.state_after (l1 ++ l2) st = AppUI.state_after l2 (AppUI.state_after l1 st).
Proof. unfold AppUI.state_after. rewrite updates_app, fold_left_app. reflexivity. Qed.

(** A run of [generateVideo] holds events of [generateVideo] only. *)
Lemma generateVideo_events (W : Type) (host : Host.t W)
    prompt imageDataUrl aspectRatio onProgress fuel w o w' log :
  generateVideo host prompt imageDataUrl aspectRatio onProgress fuel w
  = (o, w', log) ->
  Forall (fun e => from_generateVideo e = true) log.
Proof.
  intros Hrun. shape_of Hrun r Hr Hshape.
  assert (Hloop : forall ai k op o1 l,
             Polling ai k op o1 l -> Forall (fun e => from_generateVideo e = true) l).
  { intros ai k op o1 l Hp. induction Hp; repeat constructor; auto. }
  destruct Hshape as [e | e | op0 e | op0 e l Hp | op0 l Hp | op0 final l o l' Hp Hf];
    unfold opening; repeat (apply Forall_app; split); repeat constructor; eauto.
  destruct Hf; repeat constructor.
Qed.

(** Setting the loading message leaves the rest of the state alone. *)
Lemma service_events_keep_state l st :
  Forall (fun e => from_generateVideo e = true) l ->
  AppUI.prompt (AppUI.state_after l st) = AppUI.prompt st
  /\ AppUI.isLoading (AppUI.state_after l st) = AppUI.isLoading st
  /\ AppUI.videoUrl (AppUI.state_after l st) = AppUI.videoUrl st
  /\ AppUI.error (AppUI.state_after l st) = AppUI.error st
  /\ AppUI.isKeySelected (AppUI.state_after l st) = AppUI.isKeySelected st
  /\ AppUI.random_draws l = [] /\ AppUI.console_errors l = [].
Proof.
  intros H. revert st. induction H as [|e l He _ IH]; intros st.
  - cbn. auto 10.
  - unfold AppUI.state_after in *.
    destruct e; try discriminate;
      cbn [AppUI.updates fold_left AppUI.random_draws AppUI.console_errors];
      first [ exact (IH st) | exact (IH (AppUI.apply st (setLoadingMessage msg))) ].
Qed.

(** What a run submits carries the prompt the run was given. *)
Lemma generateVideo_submits_prompt (W : Type) (host : Host.t W)
    prompt imageDataUrl aspectRatio onProgress fuel w o w' log params answer :
  generateVideo host prompt imageDataUrl aspectRatio onProgress fuel w
  = (o, w', log) ->
  In (params, answer) (submissions log) ->
  GenAI.prompt params = prompt.
Proof.
  intros Hrun Hin. shape_of Hrun r Hr Hshape.
  destruct Hshape as [e | e | op0 e | op0 e l Hp | op0 l Hp | op0 final l o l' Hp Hf].
  - cbn in Hin. contradiction.
  - cbn in Hin. destruct Hin as [Heq | []]. inversion Heq. reflexivity.
  - cbn in Hin. destruct Hin as [Heq | []]. inversion Heq. reflexivity.
  - destruct (Polling_elsewhere Hp) as (Hs & _).
    autorewrite with observe in Hin. rewrite Hs in Hin.
    destruct Hin as [Heq | []]. inversion Heq. reflexivity.
  - destruct (Polling_elsewhere Hp) as (Hs & _).
    autorewrite with observe in Hin. rewrite Hs in Hin.
    destruct Hin as [Heq | []]. inversion Heq. reflexivity.
  - destruct (Polling_elsewhere Hp) as (Hs & _).
    destruct (Finishing_elsewhere Hf) as (_ & _ & _ & _ & Hs' & _).
    autorewrite with observe in Hin. rewrite Hs, Hs' in Hin.
    destruct Hin as [Heq | []]. inversion Heq. reflexivity.
Qed.

(** A run that returns has made an object URL, which it returns. *)
Lemma generateVideo_returns_object_url (W : Type) (host : Host.t W)
    prompt imageDataUrl aspectRatio onProgress fuel w w' log url :
  generateVideo host prompt imageDataUrl aspectRatio onProgress fuel w
  = (Returned url, w', log) ->
  exists blob, In (blob, url) (object_urls log).
Proof.
  intros Hrun. shape_of Hrun r Hr Hshape.
  inversion Hshape as [| | | | | op0 final l o l' Hp Hf]; subst.
  inversion Hf as [| | | | | key response blob url' Hlink Hok Hblob]; subst.
  exists blob. autorewrite with observe. apply in_or_app. right.
  apply in_or_app. right. left. reflexivity.
Qed.

Lemma preparation_has_no_submission draw : submissions (AppUI.preparation draw) = [].
Proof. destruct draw as [[x chosen]|]; reflexivity. Qed.

(** The conclusion holds setter calls and the console entry only. *)
Lemma conclusion_events o :
  submissions (AppUI.conclusion o) = []
  /\ answers (AppUI.conclusion o) = []
  /\ fetches (AppUI.conclusion o) = []
  /\ object_urls (AppUI.conclusion o) = []
  /\ AppUI.random_draws (AppUI.conclusion o) = [].
Proof.
  destruct o as [url|e|]; cbn [AppUI.conclusion]; [cbn; auto | | cbn; auto].
  destruct (AppUI.errorMessage_of e) as [errorMessage|type_error]; [|cbn; auto].
  destruct (String_includes App.msg_not_found errorMessage); cbn; auto.
Qed.

Lemma conclusion_has_no_submission o : submissions (AppUI.conclusion o) = [].
Proof. apply conclusion_events. Qed.

(** The string the catch block works on is never empty. *)
Lemma errorMessage_nonempty e errorMessage :
  AppUI.errorMessage_of e = Ok errorMessage -> errorMessage <> [].
Proof.
  destruct e as [| |[|[|c s]|]]; cbn; intros H; inversion H; discriminate.
Qed.

Lemma shown_error_nonempty errorMessage :
  errorMessage <> [] -> AppUI.shown_error errorMessage <> [].
Proof.
  intros H. unfold AppUI.shown_error.
  destruct (String_includes _ _); [discriminate | exact H].
Qed.

End HandlerFacts.

(** X15.  With an image, whatever [handleGenerate] submits has a prompt
    that is not empty: the prompt typed, with no random draw, when there
    is one; otherwise one of the six canned prompts, drawn once and stored
    in the prompt field. *)
Theorem handleGenerate_prompt :
  forall (W : Type) (host : Host.t W) image prompt aspectRatio fuel w o w' log
         params answer,
    App.handleGenerate host (Some image) prompt aspectRatio fuel w = (o, w', log) ->
    In (params, answer) (submissions log) ->
    GenAI.prompt params <> []
    /\ (prompt <> [] ->
        GenAI.prompt params = prompt /\ AppUI.random_draws log = [])
    /\ (prompt = [] ->
        In (GenAI.prompt params) App.RANDOM_PROMPTS
        /\ In (setPrompt (GenAI.prompt params)) (AppUI.updates log)
        /\ List.length (AppUI.random_draws log) = 1%nat).
Proof.
  intros W host image prompt aspectRatio fuel w o w' log params answer Hrun Hin.
  destruct (handleGenerate_shape _ _ _ _ _ _ Hrun)
    as (draw & finalPrompt & w0 & o1 & w1 & l1 & Hdraw & Hg & -> & _).
  rewrite !submissions_app, preparation_has_no_submission,
    conclusion_has_no_submission, app_nil_r in Hin. cbn [app] in Hin.
  pose proof (@generateVideo_submits_prompt _ _ _ _ _ _ _ _ _ _ _ _ _ Hg Hin) as Hp.
  destruct (service_events_keep_state AppUI.initial
              (@generateVideo_events _ _ _ _ _ _ _ _ _ _ _ Hg))
    as (_ & _ & _ & _ & _ & Hr & _).
  assert (Hc : AppUI.random_draws (AppUI.conclusion o1) = []).
  { apply conclusion_events. }
  rewrite !random_draws_app, Hr, Hc, app_nil_r.
  destruct draw as [[x chosen]|].
  - destruct Hdraw as (-> & -> & Hmem). rewrite Hp.
    split; [|split].
    + intros Hempty. rewrite Hempty in Hmem. vm_compute in Hmem. intuition discriminate.
    + intros Hne. contradiction.
    + intros _. split; [exact Hmem|]. split; [|reflexivity].
      rewrite updates_app. apply in_or_app. left. cbn. auto.
  - destruct Hdraw as (Hne & ->). rewrite Hp.
    split; [exact Hne|]. split; [auto|]. intros Hempty. contradiction.
Qed.

(** X15 on a run of the handler with an empty prompt. *)
Lemma handleGenerate_prompt_witness :
  let log := snd (App.handleGenerate (Scenario.host (js "cred") Scenario.done_operation)
                    (Some Scenario.image) [] GenAI.Ratio_16_9 0
                    (Scenario.start (Some (js "cred")) 0)) in
  let params := submitted (js "A sleek and futuristic title sequence for a high-tech spy thriller.")
                  GenAI.Ratio_16_9
                  {| mimeType := js "image/png"; base64 := Some (js "AAAA") |} in
  GenAI.prompt params <> []
  /\ (@nil N <> [] -> GenAI.prompt params = [] /\ AppUI.random_draws log = [])
  /\ (@nil N = [] ->
      In (GenAI.prompt params) App.RANDOM_PROMPTS
      /\ In (setPrompt (GenAI.prompt params)) (AppUI.updates log)
      /\ List.length (AppUI.random_draws log) = 1%nat).
Proof.
  cbv zeta.
  eapply (@handleGenerate_prompt _
            (Scenario.host (js "cred") Scenario.done_operation)
            Scenario.image [] GenAI.Ratio_16_9 0
            (Scenario.start (Some (js "cred")) 0) _ _ _ _ (Ok Scenario.done_operation)).
  - reflexivity.
  - left. reflexivity.
Defined.

Section HandlerState.

Lemma preparation_state draw st :
  let st1 := AppUI.state_after (AppUI.preparation draw) st in
  AppUI.isLoading st1 = true
  /\ AppUI.videoUrl st1 = None
  /\ AppUI.error st1 = None
  /\ AppUI.isKeySelected st1 = AppUI.isKeySelected st
  /\ AppUI.console_errors (AppUI.preparation draw) = []
  /\ object_urls (AppUI.preparation draw) = []
  /\ answers (AppUI.preparation draw) = [].
Proof. destruct draw as [[x chosen]|]; cbn; auto 10. Qed.

Lemma conclusion_returned url st :
  let st3 := AppUI.state_after (AppUI.conclusion (Returned url)) st in
  AppUI.isLoading st3 = false
  /\ AppUI.videoUrl st3 = Some url
  /\ AppUI.error st3 = AppUI.error st
  /\ AppUI.isKeySelected st3 = AppUI.isKeySelected st.
Proof. cbn. auto. Qed.

Lemma conclusion_shown e errorMessage st :
  AppUI.errorMessage_of e = Ok errorMessage ->
  let st3 := AppUI.state_after (AppUI.conclusion (Threw e)) st in
  AppUI.isLoading st3 = false
  /\ AppUI.videoUrl st3 = AppUI.videoUrl st
  /\ AppUI.error st3 = Some (AppUI.shown_error errorMessage)
  /\ AppUI.console_errors (AppUI.conclusion (Threw e)) = [e]
  /\ (String_includes App.msg_not_found errorMessage = true ->
      AppUI.isKeySelected st3 = false
      /\ AppUI.shown_error errorMessage = App.msg_invalid_key)
  /\ (String_includes App.msg_not_found errorMessage = false ->
      AppUI.isKeySelected st3 = AppUI.isKeySelected st
      /\ AppUI.shown_error errorMessage = errorMessage).
Proof.
  intros He. unfold AppUI.conclusion. rewrite He.
  unfold AppUI.shown_error. cbv zeta.
  destruct (String_includes App.msg_not_found errorMessage);
    cbn -[App.msg_invalid_key App.msg_unknown]; repeat split; auto; discriminate.
Qed.

(** When the catch block throws, only the console and the loading flag
    have been touched. *)
Lemma conclusion_rethrown e type_error st :
  AppUI.errorMessage_of e = Throw type_error ->
  let st3 := AppUI.state_after (AppUI.conclusion (Threw e)) st in
  AppUI.isLoading st3 = false
  /\ AppUI.videoUrl st3 = AppUI.videoUrl st
  /\ AppUI.error st3 = AppUI.error st
  /\ AppUI.isKeySelected st3 = AppUI.isKeySelected st
  /\ AppUI.console_errors (AppUI.conclusion (Threw e)) = [e].
Proof.
  intros He. unfold AppUI.conclusion. rewrite He. cbn. auto.
Qed.

(** The values on which the catch block throws. *)
Lemma errorMessage_of_throw e type_error :
  AppUI.errorMessage_of e = Throw type_error ->
  (e = Thrown_null /\ type_error = TypeError_message_of_null)
  \/ (e = Thrown_undefined /\ type_error = TypeError_message_of_undefined)
  \/ (e = Thrown_value Message_other /\ type_error = TypeError_includes).
Proof.
  destruct e as [| |[|[|c s]|]]; cbn; intros H; inversion H; auto.
Qed.

Lemma errorMessage_of_ok e errorMessage :
  AppUI.errorMessage_of e = Ok errorMessage ->
  e <> Thrown_null /\ e <> Thrown_undefined /\ e <> Thrown_value Message_other.
Proof.
  destruct e as [| |[|[|c s]|]]; cbn; intros H; inversion H;
    repeat split; discriminate.
Qed.

Lemma truthy_nonempty s : s <> [] -> truthy (Some s) = true.
Proof. destruct s; [contradiction | reflexivity]. Qed.

End HandlerState.

(** X16.  With an image, [handleGenerate] throws only out of its catch
    block: a [TypeError], when what [generateVideo] threw is [null] or
    [undefined] (reading [message] fails) or has a truthy message that is
    not a string ([includes] is not a function); the loading flag is down
    all the same, and neither a video nor an error is set.  While the job
    is still being polled the loading flag is up and neither is set.
    Once the handler has returned the loading flag is down and exactly
    one of the two is set: the object URL that [generateVideo] made, or a
    non-empty error message for what it threw, which the error banner
    shows. *)
Theorem handleGenerate_settles :
  forall (W : Type) (host : Host.t W) image prompt aspectRatio fuel w o w' log st,
    App.handleGenerate host (Some image) prompt aspectRatio fuel w = (o, w', log) ->
    let st' := AppUI.state_after log st in
    match o with
    | Threw type_error =>
        AppUI.isLoading st' = false
        /\ AppUI.videoUrl st' = None /\ AppUI.error st' = None
        /\ ((AppUI.console_errors log = [Thrown_null]
             /\ type_error
                = Error (js "Cannot read properties of null (reading 'message')"))
            \/ (AppUI.console_errors log = [Thrown_undefined]
                /\ type_error
                   = Error (js "Cannot read properties of undefined (reading 'message')"))
            \/ (AppUI.console_errors log = [Thrown_value Message_other]
                /\ type_error = Error (js "errorMessage.includes is not a function")))
    | StillPolling =>
        AppUI.isLoading st' = true
        /\ AppUI.videoUrl st' = None /\ AppUI.error st' = None
    | Returned _ =>
        AppUI.isLoading st' = false
        /\ ((exists url blob,
               AppUI.videoUrl st' = Some url
               /\ In (blob, url) (object_urls log)
               /\ AppUI.error st' = None
               /\ AppUI.console_errors log = [])
            \/ (exists e errorMessage,
                  AppUI.videoUrl st' = None
                  /\ AppUI.console_errors log = [e]
                  /\ e <> Thrown_null /\ e <> Thrown_undefined
                  /\ e <> Thrown_value Message_other
                  /\ errorMessage <> []
                  /\ AppUI.error st' = Some errorMessage
                  /\ AppUI.shows_error st' = true))
    end.
Proof.
  intros W host image prompt aspectRatio fuel w o w' log st Hrun st'.
  destruct (handleGenerate_shape _ _ _ _ _ _ Hrun)
    as (draw & finalPrompt & w0 & o1 & w1 & l1 & _ & Hg & Hlog & Ho).
  subst st' log o. rewrite !state_after_app, !console_errors_app, !object_urls_app.
  destruct (preparation_state draw st) as (Hl & Hv & He & _ & Hc & Hu & _).
  set (st1 := AppUI.state_after (AppUI.preparation draw) st) in *.
  destruct (service_events_keep_state st1 (@generateVideo_events _ _ _ _ _ _ _ _ _ _ _ Hg))
    as (_ & Hl2 & Hv2 & He2 & _ & _ & Hc2).
  set (st2 := AppUI.state_after l1 st1) in *.
  rewrite Hc, Hu, Hc2. cbn [app].
  destruct o1 as [url|e|]; cbn [AppUI.handler_outcome].
  - destruct (conclusion_returned url st2) as (Hl3 & Hv3 & He3 & _).
    split; [exact Hl3|]. left.
    destruct (generateVideo_returns_object_url _ _ _ _ _ _ _ Hg) as [blob Hb].
    exists url, blob. split; [exact Hv3|]. split; [|split; [congruence | reflexivity]].
    apply in_or_app. right. apply in_or_app. left. exact Hb.
  - destruct (AppUI.errorMessage_of e) as [errorMessage|type_error] eqn:Hm.
    + destruct (conclusion_shown e st2 Hm) as (Hl3 & Hv3 & He3 & Hc3 & _).
      destruct (errorMessage_of_ok e Hm) as (Hn1 & Hn2 & Hn3).
      pose proof (shown_error_nonempty (errorMessage_nonempty e Hm)) as Hne.
      split; [exact Hl3|]. right. exists e, (AppUI.shown_error errorMessage).
      split; [congruence|]. split; [exact Hc3|].
      split; [exact Hn1|]. split; [exact Hn2|]. split; [exact Hn3|].
      split; [exact Hne|]. split; [exact He3|].
      unfold AppUI.shows_error. rewrite He3.
      apply truthy_nonempty. exact Hne.
    + destruct (conclusion_rethrown e st2 Hm) as (Hl3 & Hv3 & He3 & _ & Hc3).
      split; [exact Hl3|]. split; [congruence|]. split; [congruence|].
      rewrite Hc3.
      destruct (errorMessage_of_throw e Hm) as [[-> ->] | [[-> ->] | [-> ->]]]; auto.
  - cbn [AppUI.conclusion]. cbn. repeat split; congruence.
Qed.

(** X16 on a service that rejects the submission with [null], and on
    the scenario of the design document, from the initial state. *)
Lemma handleGenerate_settles_witness :
  (let run := App.handleGenerate
                (Script.host (Throw Thrown_null) (Throw Thrown_null)
                   (Ok Scenario.ok_response))
                (Some Scenario.image) (js "A dog running on a beach")
                GenAI.Ratio_16_9 0 (Scenario.start (Some (js "cred")) 0) in
   let st' := AppUI.state_after (snd run) AppUI.initial in
   fst (fst run)
   = Threw (Error (js "Cannot read properties of null (reading 'message')"))
   /\ AppUI.isLoading st' = false
   /\ AppUI.videoUrl st' = None /\ AppUI.error st' = None)
  /\ (let log := snd (App.handleGenerate (Scenario.host (js "cred") Scenario.done_operation)
                        (Some Scenario.image) (js "A dog running on a beach")
                        GenAI.Ratio_16_9 0 (Scenario.start (Some (js "cred")) 0)) in
      let st' := AppUI.state_after log AppUI.initial in
      AppUI.isLoading st' = false
      /\ AppUI.videoUrl st' = Some (js "blob:0")
      /\ AppUI.error st' = None).
Proof.
  cbv zeta. split.
  - split; [reflexivity|].
    pose proof (@handleGenerate_settles _
                  (Script.host (Throw Thrown_null) (Throw Thrown_null)
                     (Ok Scenario.ok_response))
                  Scenario.image (js "A dog running on a beach") GenAI.Ratio_16_9 0
                  (Scenario.start (Some (js "cred")) 0)
                  (Threw (Error (js "Cannot read properties of null (reading 'message')")))
                  _ _ AppUI.initial eq_refl) as H.
    cbv zeta in H. destruct H as (Hl & Hv & He & _). auto.
  - pose proof (@handleGenerate_settles _
                  (Scenario.host (js "cred") Scenario.done_operation)
                  Scenario.image (js "A dog running on a beach") GenAI.Ratio_16_9 0
                  (Scenario.start (Some (js "cred")) 0) (Returned tt) _ _
                  AppUI.initial eq_refl) as H.
    cbv zeta in H. destruct H as (Hl & _).
    split; [exact Hl|]. split; reflexivity.
Defined.

(** X17.  What the handler makes of a value [e] thrown by
    [generateVideo], which it first writes to the console.  A message
    that is a non-empty string: when it contains ['Requested entity was
    not found'] the key is marked as not selected and the error is the
    invalid-key text, otherwise the key flag is untouched and the error
    is the message itself.  A message that is absent, falsy or the empty
    string: the error is ['An unknown error occurred.'].  [null],
    [undefined], or a truthy message that is not a string: [setError] is
    not called and the handler throws a [TypeError].  In every case no
    video is set and the loading flag is down. *)
Theorem handleGenerate_error_mapping :
  forall (W : Type) (host : Host.t W) image prompt aspectRatio fuel w o w' log st e,
    App.handleGenerate host (Some image) prompt aspectRatio fuel w = (o, w', log) ->
    In e (AppUI.console_errors log) ->
    let st' := AppUI.state_after log st in
    AppUI.videoUrl st' = None
    /\ AppUI.isLoading st' = false
    /\ match e with
       | Thrown_value (Message_text (c :: s)) =>
           o = Returned tt
           /\ if String_includes (js "Requested entity was not found") (c :: s)
              then AppUI.isKeySelected st' = false
                   /\ AppUI.error st'
                      = Some (js "API Key is invalid or not found. Please select a valid key.")
              else AppUI.isKeySelected st' = AppUI.isKeySelected st
                   /\ AppUI.error st' = Some (c :: s)
       | Thrown_value (Message_text []) | Thrown_value Message_falsy =>
           o = Returned tt
           /\ AppUI.isKeySelected st' = AppUI.isKeySelected st
           /\ AppUI.error st' = Some (js "An unknown error occurred.")
       | Thrown_null =>
           o = Threw (Error (js "Cannot read properties of null (reading 'message')"))
           /\ AppUI.isKeySelected st' = AppUI.isKeySelected st
           /\ AppUI.error st' = None
       | Thrown_undefined =>
           o = Threw (Error (js "Cannot read properties of undefined (reading 'message')"))
           /\ AppUI.isKeySelected st' = AppUI.isKeySelected st
           /\ AppUI.error st' = None
       | Thrown_value Message_other =>
           o = Threw (Error (js "errorMessage.includes is not a function"))
           /\ AppUI.isKeySelected st' = AppUI.isKeySelected st
           /\ AppUI.error st' = None
       end.
Proof.
  intros W host image prompt aspectRatio fuel w o w' log st e Hrun Hin st'.
  destruct (handleGenerate_shape _ _ _ _ _ _ Hrun)
    as (draw & finalPrompt & w0 & o1 & w1 & l1 & _ & Hg & Hlog & Ho).
  subst st' log o. rewrite !state_after_app. rewrite !console_errors_app in Hin.
  destruct (preparation_state draw st) as (_ & Hv & He & Hk & Hc & _).
  set (st1 := AppUI.state_after (AppUI.preparation draw) st) in *.
  destruct (service_events_keep_state st1 (@generateVideo_events _ _ _ _ _ _ _ _ _ _ _ Hg))
    as (_ & _ & Hv2 & He2 & Hk2 & _ & Hc2).
  set (st2 := AppUI.state_after l1 st1) in *.
  rewrite Hc, Hc2 in Hin. cbn [app] in Hin.
  destruct o1 as [url|e1|]; try (cbn in Hin; contradiction).
  assert (He1 : e1 = e).
  { destruct (AppUI.errorMessage_of e1) as [m|t] eqn:Hm.
    - destruct (conclusion_shown e1 st2 Hm) as (_ & _ & _ & Hc3 & _).
      rewrite Hc3 in Hin. destruct Hin as [Heq | []]. exact Heq.
    - destruct (conclusion_rethrown e1 st2 Hm) as (_ & _ & _ & _ & Hc3).
      rewrite Hc3 in Hin. destruct Hin as [Heq | []]. exact Heq. }
  subst e1. clear Hin. cbn [AppUI.handler_outcome].
  assert (Hthrow : forall type_error,
             AppUI.errorMessage_of e = Throw type_error ->
             AppUI.videoUrl (AppUI.state_after (AppUI.conclusion (Threw e)) st2) = None
             /\ AppUI.isLoading (AppUI.state_after (AppUI.conclusion (Threw e)) st2) = false
             /\ AppUI.isKeySelected (AppUI.state_after (AppUI.conclusion (Threw e)) st2)
                = AppUI.isKeySelected st
             /\ AppUI.error (AppUI.state_after (AppUI.conclusion (Threw e)) st2) = None).
  { intros type_error Hm.
    destruct (conclusion_rethrown e st2 Hm) as (Hl3 & Hv3 & He3 & Hk3 & _).
    repeat split; congruence. }
  assert (Hshow : forall errorMessage,
             AppUI.errorMessage_of e = Ok errorMessage ->
             AppUI.videoUrl (AppUI.state_after (AppUI.conclusion (Threw e)) st2) = None
             /\ AppUI.isLoading (AppUI.state_after (AppUI.conclusion (Threw e)) st2) = false
             /\ if String_includes App.msg_not_found errorMessage
                then AppUI.isKeySelected (AppUI.state_after (AppUI.conclusion (Threw e)) st2)
                     = false
                     /\ AppUI.error (AppUI.state_after (AppUI.conclusion (Threw e)) st2)
                        = Some App.msg_invalid_key
                else AppUI.isKeySelected (AppUI.state_after (AppUI.conclusion (Threw e)) st2)
                     = AppUI.isKeySelected st
                     /\ AppUI.error (AppUI.state_after (AppUI.conclusion (Threw e)) st2)
                        = Some errorMessage).
  { intros errorMessage Hm.
    destruct (conclusion_shown e st2 Hm) as (Hl3 & Hv3 & He3 & _ & Hyes & Hno).
    split; [congruence|]. split; [exact Hl3|].
    destruct (String_includes App.msg_not_found errorMessage).
    - destruct (Hyes eq_refl) as [Hk3 Hs]. split; [exact Hk3|]. congruence.
    - destruct (Hno eq_refl) as [Hk3 Hs]. split; congruence. }
  destruct e as [| |[|[|c s]|]].
  - destruct (Hthrow _ eq_refl) as (H1 & H2 & H3 & H4). auto.
  - destruct (Hthrow _ eq_refl) as (H1 & H2 & H3 & H4). auto.
  - destruct (Hshow _ eq_refl) as (H1 & H2 & H3 & H4). auto.
  - destruct (Hshow _ eq_refl) as (H1 & H2 & H3 & H4). auto.
  - destruct (Hshow (c :: s) eq_refl) as (H1 & H2 & H3). auto.
  - destruct (Hthrow _ eq_refl) as (H1 & H2 & H3 & H4). auto.
Qed.

(** X17 on a service that answers the submission with a not-found
    error, and on one that rejects it with [undefined]. *)
Lemma handleGenerate_error_mapping_witness :
  (let log := snd (App.handleGenerate
                     (Script.host (Throw Script.not_found) (Throw Script.not_found)
                        (Ok Scenario.ok_response))
                     (Some Scenario.image) (js "A dog running on a beach")
                     GenAI.Ratio_16_9 0 (Scenario.start (Some (js "cred")) 0)) in
   let st' := AppUI.state_after log
                {| AppUI.prompt := []; AppUI.isLoading := false;
                   AppUI.loadingMessage := []; AppUI.videoUrl := None;
                   AppUI.error := None; AppUI.isKeySelected := true |} in
   AppUI.isKeySelected st' = false
   /\ AppUI.error st'
      = Some (js "API Key is invalid or not found. Please select a valid key."))
  /\ (let run := App.handleGenerate
                   (Script.host (Throw Thrown_undefined) (Throw Thrown_undefined)
                      (Ok Scenario.ok_response))
                   (Some Scenario.image) (js "A dog running on a beach")
                   GenAI.Ratio_16_9 0 (Scenario.start (Some (js "cred")) 0) in
      let st' := AppUI.state_after (snd run) AppUI.initial in
      fst (fst run)
      = Threw (Error (js "Cannot read properties of undefined (reading 'message')"))
      /\ AppUI.error st' = None).
Proof.
  cbv zeta. split.
  - pose proof (@handleGenerate_error_mapping _
                  (Script.host (Throw Script.not_found) (Throw Script.not_found)
                     (Ok Scenario.ok_response))
                  Scenario.image (js "A dog running on a beach") GenAI.Ratio_16_9 0
                  (Scenario.start (Some (js "cred")) 0) _ _ _
                  {| AppUI.prompt := []; AppUI.isLoading := false;
                     AppUI.loadingMessage := []; AppUI.videoUrl := None;
                     AppUI.error := None; AppUI.isKeySelected := true |}
                  Script.not_found eq_refl (or_introl eq_refl)) as H.
    cbv zeta in H. destruct H as (_ & _ & _ & H). exact H.
  - pose proof (@handleGenerate_error_mapping _
                  (Script.host (Throw Thrown_undefined) (Throw Thrown_undefined)
                     (Ok Scenario.ok_response))
                  Scenario.image (js "A dog running on a beach") GenAI.Ratio_16_9 0
                  (Scenario.start (Some (js "cred")) 0) _ _ _ AppUI.initial
                  Thrown_undefined eq_refl (or_introl eq_refl)) as H.
    cbv zeta in H. destruct H as (_ & _ & Ho & _ & He). split; assumption.
Defined.

Section EndToEnd.

(** A descriptor that is done and has no download link makes the run
    throw, provided no callback threw. *)
Lemma no_link_throws (W : Type) (host : Host.t W)
    prompt imageDataUrl aspectRatio onProgress fuel w o w' log operation :
  generateVideo host prompt imageDataUrl aspectRatio onProgress fuel w
  = (o, w', log) ->
  callbacks_returned log = true ->
  In operation (answers log) ->
  GenAI.done operation = true ->
  truthy (downloadLink_of operation) = false ->
  o = Threw no_download_link.
Proof.
  intros Hrun Hcb Hin Hdone Hlink.
  shape_of Hrun r Hr Hshape.
  destruct Hshape as [e | e | op0 e | op0 e l Hp | op0 l Hp | op0 final l o l' Hp Hf];
    try (cbn in Hin; contradiction); try (cbn in Hcb; discriminate).
  - autorewrite with observe in Hin.
    pose proof (Polling_done_answer Hp Hin Hdone). discriminate.
  - autorewrite with observe in Hin.
    pose proof (Polling_done_answer Hp Hin Hdone). discriminate.
  - destruct (Finishing_elsewhere Hf) as (_ & _ & _ & Ha & _).
    autorewrite with observe in Hin, Hcb.
    rewrite Ha, app_nil_r in Hin.
    pose proof (Polling_done_answer Hp Hin Hdone) as Hfinal.
    inversion Hfinal; subst final.
    destruct Hf; try congruence.
    cbn in Hcb. rewrite andb_false_r in Hcb. discriminate.
Qed.

Lemma handler_frame_observed draw o :
  answers (AppUI.preparation draw) = [] /\ fetches (AppUI.preparation draw) = []
  /\ answers (AppUI.conclusion o) = [] /\ fetches (AppUI.conclusion o) = [].
Proof.
  destruct (conclusion_events o) as (_ & Ha & Hf & _).
  destruct draw as [[x chosen]|]; cbn; auto.
Qed.

End EndToEnd.

(** X18.  From the service to the screen: when, during a run of the
    handler, the service answers Done with no download link, the handler
    ends with the error ['Video generation failed: No download link
    found.'] on display, no video, the loading flag down and the key flag
    untouched. *)
Theorem handler_reports_missing_video :
  forall (W : Type) (host : Host.t W) image prompt aspectRatio fuel w o w' log st
         operation,
    App.handleGenerate host (Some image) prompt aspectRatio fuel w = (o, w', log) ->
    In operation (answers log) ->
    GenAI.done operation = true ->
    truthy (downloadLink_of operation) = false ->
    let st' := AppUI.state_after log st in
    o = Returned tt
    /\ AppUI.error st' = Some (js "Video generation failed: No download link found.")
    /\ AppUI.shows_error st' = true
    /\ AppUI.videoUrl st' = None
    /\ AppUI.isLoading st' = false
    /\ AppUI.isKeySelected st' = AppUI.isKeySelected st.
Proof.
  intros W host image prompt aspectRatio fuel w o w' log st operation
         Hrun Hin Hdone Hlink st'.
  destruct (handleGenerate_shape _ _ _ _ _ _ Hrun)
    as (draw & finalPrompt & w0 & o1 & w1 & l1 & _ & Hg & Hlog & Ho).
  destruct (handler_frame_observed draw o1) as (Ha1 & _ & Ha2 & _).
  subst st' log. rewrite !answers_app, Ha1, Ha2, app_nil_r in Hin. cbn [app] in Hin.
  assert (Hcb : callbacks_returned l1 = true).
  { eapply generateVideo_callbacks; [|exact Hg]. intros msg w2. reflexivity. }
  pose proof (@no_link_throws _ _ _ _ _ _ _ _ _ _ _ _ Hg Hcb Hin Hdone Hlink) as ->.
  rewrite !state_after_app.
  destruct (preparation_state draw st) as (_ & Hv & _ & Hk & _).
  set (st1 := AppUI.state_after (AppUI.preparation draw) st) in *.
  destruct (service_events_keep_state st1 (@generateVideo_events _ _ _ _ _ _ _ _ _ _ _ Hg))
    as (_ & _ & Hv2 & _ & Hk2 & _).
  set (st2 := AppUI.state_after l1 st1) in *.
  destruct (@conclusion_shown no_download_link _ st2 eq_refl)
    as (Hl3 & Hv3 & He3 & _ & _ & Hno).
  destruct (Hno eq_refl) as [Hk3 Hs].
  split; [exact Ho|]. unfold AppUI.shows_error. rewrite He3, Hs.
  repeat split; congruence.
Qed.

(** X18 on a service that is done at once with no video generated. *)
Lemma handler_reports_missing_video_witness :
  let run := App.handleGenerate (Scenario.host (js "cred") Scenario.empty_operation)
               (Some Scenario.image) (js "A dog running on a beach")
               GenAI.Ratio_16_9 0 (Scenario.start (Some (js "cred")) 0) in
  let st' := AppUI.state_after (snd run) AppUI.initial in
  fst (fst run) = Returned tt
  /\ AppUI.error st' = Some (js "Video generation failed: No download link found.")
  /\ AppUI.shows_error st' = true
  /\ AppUI.videoUrl st' = None
  /\ AppUI.isLoading st' = false
  /\ AppUI.isKeySelected st' = AppUI.isKeySelected AppUI.initial.
Proof.
  cbv zeta.
  eapply (@handler_reports_missing_video _
            (Scenario.host (js "cred") Scenario.empty_operation)
            Scenario.image (js "A dog running on a beach") GenAI.Ratio_16_9 0
            (Scenario.start (Some (js "cred")) 0) _ _ _ AppUI.initial
            Scenario.empty_operation).
  - reflexivity.
  - left. reflexivity.
  - reflexivity.
  - reflexivity.
Defined.

(* ================================================================== *)
(** * The key check *)
(* ================================================================== *)

(** X19.  [checkApiKey] waits for [window.aistudio] in steps of 500 ms
    and does nothing else meanwhile; at the first step where it is there
    it asks once whether a key is selected and stores exactly the answer;
    when that question is rejected it stores nothing. *)
Theorem checkApiKey_waits_then_asks_once :
  forall (W : Type) (host : Host.t W) (studio : AppUI.AIStudio W) fuel w o w' log,
    AppUI.checkApiKey host studio fuel w = (o, w', log) ->
    exists n,
      let at_step k := Nat.iter k (setTimeout host 500%N) w in
      (n <= fuel)%nat
      /\ (forall k, (k < n)%nat -> AppUI.window_aistudio studio (at_step k) = false)
      /\ match o with
         | Returned _ =>
             exists hasKey,
               AppUI.window_aistudio studio (at_step n) = true
               /\ fst (AppUI.hasSelectedApiKey studio (at_step n)) = Ok hasKey
               /\ log = repeat (EvSetTimeout 500%N) n
                        ++ [EvSetState (setIsKeySelected hasKey)]
         | Threw e =>
             AppUI.window_aistudio studio (at_step n) = true
             /\ fst (AppUI.hasSelectedApiKey studio (at_step n)) = Throw e
             /\ log = repeat (EvSetTimeout 500%N) n
         | StillPolling =>
             n = fuel
             /\ AppUI.window_aistudio studio (at_step n) = false
             /\ log = repeat (EvSetTimeout 500%N) n
         end.
Proof.
  intros W host studio fuel. induction fuel as [|fuel IH]; intros w o w' log H.
  - cbn in H. destruct (AppUI.window_aistudio studio w) eqn:Hwin.
    + exists 0%nat. cbn. split; [lia|]. split; [intros k Hk; lia|].
      unfold bind, AppUI.await, App.set_state in H.
      destruct (AppUI.hasSelectedApiKey studio w) as [[hasKey|e] w1];
        inversion H; subst; cbn; eauto.
    + inversion H; subst. exists 0%nat. cbn. split; [lia|].
      split; [intros k Hk; lia|]. auto.
  - cbn in H. destruct (AppUI.window_aistudio studio w) eqn:Hwin.
    + exists 0%nat. cbn. split; [lia|]. split; [intros k Hk; lia|].
      unfold bind, AppUI.await, App.set_state in H.
      destruct (AppUI.hasSelectedApiKey studio w) as [[hasKey|e] w1];
        inversion H; subst; cbn; eauto.
    + unfold bind, sleep in H.
      destruct (AppUI.checkApiKey host studio fuel
                  (setTimeout host AppUI.retry_interval w)) as [[o1 w1] l1] eqn:Hrec.
      destruct (IH _ _ _ _ Hrec) as (n & Hle & Hbefore & Hend).
      exists (S n). cbv zeta.
      assert (Hstep : forall k,
                 Nat.iter (S k) (setTimeout host 500%N) w
                 = Nat.iter k (setTimeout host 500%N)
                     (setTimeout host AppUI.retry_interval w)).
      { intros k. rewrite Nat.iter_succ_r. reflexivity. }
      split; [lia|]. split.
      * intros [|k] Hk; [exact Hwin|]. rewrite Hstep. apply Hbefore. lia.
      * rewrite Hstep.
        destruct o1 as [[]|e|]; inversion H; subst.
        -- destruct Hend as (hasKey & Hw & Hh & ->). exists hasKey. auto.
        -- destruct Hend as (Hw & Hh & ->). auto.
        -- destruct Hend as (-> & Hw & ->). auto.
Qed.

(** X19 on a page where [window.aistudio] appears after three timers
    and reports a selected key. *)
Lemma checkApiKey_waits_then_asks_once_witness :
  exists n,
    let at_step k :=
      Nat.iter k (setTimeout Script.clock_host 500%N) (Scenario.start None 0) in
    (n <= 10)%nat
    /\ (forall k, (k < n)%nat ->
          AppUI.window_aistudio (Script.studio 3 (Ok true) (Ok tt)) (at_step k) = false)
    /\ exists hasKey,
         AppUI.window_aistudio (Script.studio 3 (Ok true) (Ok tt)) (at_step n) = true
         /\ fst (AppUI.hasSelectedApiKey (Script.studio 3 (Ok true) (Ok tt)) (at_step n))
            = Ok hasKey
         /\ snd (AppUI.checkApiKey Script.clock_host (Script.studio 3 (Ok true) (Ok tt))
                   10 (Scenario.start None 0))
            = repeat (EvSetTimeout 500%N) n ++ [EvSetState (setIsKeySelected hasKey)].
Proof.
  exact (@checkApiKey_waits_then_asks_once _ Script.clock_host
           (Script.studio 3 (Ok true) (Ok tt)) 10 (Scenario.start None 0)
           (Returned tt) _ _ eq_refl).
Defined.
